(** * grp-demo: the in-memory user store and its gRPC handlers

    A shallow embedding of [internal/models/user.go],
    [internal/repository/user_repository.go] and
    [internal/service/user_service.go], followed by the properties of the
    store, the filter engine, the bulk-ingest handler and the chat echo loop.

    Conventions of the embedding:
    - Go's [int32] is a [Z] kept in range by [wrap32]; every [++] on an
      [int32] is followed by its wrap-around.
    - [map[int32]*models.User] is a [gmap Z User].  Where the code ranges over
      the map and the order can be observed ([List]), the iteration order is an
      explicit argument.
    - [time.Time] is a [Z]; every call of [time.Now()] takes the clock reading
      as an argument [now].
    - a Go [error] result is an [option]: [None] is [nil].
    - the store is shared by all calls and locked for one repository method
      at a time; the writes of other calls that are served between two
      repository calls of a handler are an explicit argument of the handler
      (module [concurrent]). *)

From stdpp Require Import base gmap list strings pretty sorting.
From Stdlib Require Import ZArith Lia String Ascii.

Open Scope Z_scope.

(** ** Machine integers *)

Definition wrap32 (z : Z) : Z := (z + 2 ^ 31) mod 2 ^ 32 - 2 ^ 31.

Definition int32_range (z : Z) : Prop := - 2 ^ 31 <= z < 2 ^ 31.

(** ** Go strings: byte sequences with [len], [==] and slicing *)

Definition len (s : string) : nat := String.length s.

(** [s[lo:hi]] for indices within [0 <= lo <= hi <= len(s)], which all
    slices taken by the code below are (see [contains_checked_ok]). *)
Definition slice (s : string) (lo hi : nat) : string :=
  String.substring lo (hi - lo) s.

(** ** proto/user.proto: the messages, with the fields the code reads *)

Module pb.

Module UserRequest.
Record t := mk { Id : Z }.
End UserRequest.

Module CreateUserRequest.
Record t := mk { Name : string; Email : string; Role : string }.
End CreateUserRequest.

Module UpdateUserRequest.
Record t := mk { Id : Z; Name : string; Email : string; Role : string }.
End UpdateUserRequest.

Module UserFilter.
Record t := mk { Keyword : string; Roles : list string; Limit : Z }.
End UserFilter.

Module UserResponse.
Record t := mk
  { Id : Z; Name : string; Email : string; Role : string;
    CreatedAt : Z; UpdatedAt : Z }.
End UserResponse.

Module BulkCreateResponse.
Record t := mk
  { CreatedCount : Z; UserIds : list Z; Errors : list string }.
End BulkCreateResponse.

Inductive MessageType := MESSAGE_TYPE_TEXT.

Module ChatMessage.
Record t := mk
  { From : string; To : string; Message : string;
    Timestamp : Z; Type_ : MessageType }.
End ChatMessage.

End pb.

(** ** internal/models/user.go *)

Module models.

Record User := mkUser
  { ID : Z; Name : string; Email : string; Role : string;
    CreatedAt : Z; UpdatedAt : Z }.

Definition ToProto (u : User) : pb.UserResponse.t :=
  pb.UserResponse.mk (ID u) (Name u) (Email u) (Role u)
                     (CreatedAt u) (UpdatedAt u).

Definition FromCreateRequest (now : Z) (req : pb.CreateUserRequest.t)
    (id : Z) : User :=
  let role := pb.CreateUserRequest.Role req in
  let role := if String.eqb role "" then "user"%string else role in
  mkUser id (pb.CreateUserRequest.Name req) (pb.CreateUserRequest.Email req)
         role now now.

(** [func (u *User) Update(req)]: the receiver after the call. *)
Definition Update (now : Z) (u : User) (req : pb.UpdateUserRequest.t)
    : User :=
  let name := if negb (String.eqb (pb.UpdateUserRequest.Name req) "")
              then pb.UpdateUserRequest.Name req else Name u in
  let email := if negb (String.eqb (pb.UpdateUserRequest.Email req) "")
               then pb.UpdateUserRequest.Email req else Email u in
  let role := if negb (String.eqb (pb.UpdateUserRequest.Role req) "")
              then pb.UpdateUserRequest.Role req else Role u in
  mkUser (ID u) name email role (CreatedAt u) now.

Definition set_ID (u : User) (id : Z) : User :=
  mkUser id (Name u) (Email u) (Role u) (CreatedAt u) (UpdatedAt u).

End models.

(** ** internal/repository/user_repository.go *)

Module repository.
Import models.

Inductive error := ErrUserNotFound | ErrEmailExists | ErrInvalidInput.

(** [err.Error()] of the three sentinel errors. *)
Definition Error (e : error) : string :=
  match e with
  | ErrUserNotFound => "user not found"
  | ErrEmailExists => "email already exists"
  | ErrInvalidInput => "invalid input"
  end.

Record InMemoryUserRepository := mkRepo
  { users : gmap Z User; nextID : Z }.

Definition NewInMemoryUserRepository (now : Z) : InMemoryUserRepository :=
  mkRepo
    (<[1 := mkUser 1 "John Doe" "john@example.com" "admin" now now]>
     (<[2 := mkUser 2 "Jane Smith" "jane@example.com" "user" now now]>
      (<[3 := mkUser 3 "Bob Johnson" "bob@example.com" "user" now now]>
       ∅)))
    4.

(** The result pair of a user pointer and an [error]: exactly one of the
    two is non-nil. *)
Definition GetByID (r : InMemoryUserRepository) (id : Z) : User + error :=
  match users r !! id with
  | None => inr ErrUserNotFound
  | Some user => inl user
  end.

(** The scan [for _, existingUser := range r.users] of [Create] and of
    [EmailExists]: it only reports whether some record matches, so its
    outcome does not depend on the iteration order. *)
Definition emailScan (m : gmap Z User) (email : string) : bool :=
  existsb (fun kv => String.eqb (Email kv.2) email) (map_to_list m).

(** [Create] writes the assigned ID into the caller's record and stores the
    pointer to that very record; the second component is the record after
    the call.  No caller writes to the record once it is stored, so the
    sharing cannot be observed and the map holds values. *)
Definition Create (r : InMemoryUserRepository) (user : User)
    : InMemoryUserRepository * User * option error :=
  if String.eqb (Name user) "" || String.eqb (Email user) "" then
    (r, user, Some ErrInvalidInput)
  else if emailScan (users r) (Email user) then
    (r, user, Some ErrEmailExists)
  else
    let user := set_ID user (nextID r) in
    (mkRepo (<[ID user := user]> (users r)) (wrap32 (nextID r + 1)),
     user, None).

Definition Update (r : InMemoryUserRepository) (user : User)
    : InMemoryUserRepository * option error :=
  match users r !! ID user with
  | None => (r, Some ErrUserNotFound)
  | Some _ => (mkRepo (<[ID user := user]> (users r)) (nextID r), None)
  end.

Definition Delete (r : InMemoryUserRepository) (id : Z)
    : InMemoryUserRepository * option error :=
  match users r !! id with
  | None => (r, Some ErrUserNotFound)
  | Some _ => (mkRepo (delete id (users r)) (nextID r), None)
  end.

Definition EmailExists (r : InMemoryUserRepository) (email : string)
    : bool :=
  emailScan (users r) email.

(** [for i := 0; i <= len(s)-len(substr); i++]: [n] iterations are left,
    the loop variable is [i]. *)
Fixpoint findSubstring_loop (n i : nat) (s substr : string) : bool :=
  match n with
  | O => false
  | S n' =>
      if String.eqb (slice s i (i + len substr)) substr then true
      else findSubstring_loop n' (S i) s substr
  end.

(** The bound [len(s)-len(substr)] is an [int] and may be negative, in
    which case the loop body never runs. *)
Definition findSubstring (s substr : string) : bool :=
  findSubstring_loop
    (Z.to_nat (Z.of_nat (len s) - Z.of_nat (len substr) + 1)) 0 s substr.

Definition contains (s substr : string) : bool :=
  (len substr <=? len s)%nat &&
  (String.eqb s substr ||
   ((len substr <? len s)%nat &&
    (String.eqb (slice s 0 (len substr)) substr ||
     String.eqb (slice s (len s - len substr) (len s)) substr ||
     findSubstring s substr))).

(** The same two functions with Go's evaluation spelled out: [&&] and [||]
    evaluate their right operand only when needed, indices are [int]s, and
    a slice expression out of range panics ([None]).  They never panic and
    agree with [contains] and [findSubstring] (see [contains_checked_ok]). *)
Definition slice_checked (s : string) (lo hi : Z) : option string :=
  if (0 <=? lo) && (lo <=? hi) && (hi <=? Z.of_nat (len s))
  then Some (slice s (Z.to_nat lo) (Z.to_nat hi))
  else None.

Fixpoint findSubstring_checked_loop (n : nat) (i : Z) (s substr : string)
    : option bool :=
  match n with
  | O => Some false
  | S n' =>
      match slice_checked s i (i + Z.of_nat (len substr)) with
      | None => None
      | Some t =>
          if String.eqb t substr then Some true
          else findSubstring_checked_loop n' (i + 1) s substr
      end
  end.

Definition findSubstring_checked (s substr : string) : option bool :=
  findSubstring_checked_loop
    (Z.to_nat (Z.of_nat (len s) - Z.of_nat (len substr) + 1)) 0 s substr.

Definition contains_checked (s substr : string) : option bool :=
  if negb (len substr <=? len s)%nat then Some false
  else if String.eqb s substr then Some true
  else if negb (len substr <? len s)%nat then Some false
  else
    match slice_checked s 0 (Z.of_nat (len substr)) with
    | None => None
    | Some t =>
        if String.eqb t substr then Some true
        else
          match slice_checked s (Z.of_nat (len s) - Z.of_nat (len substr))
                              (Z.of_nat (len s)) with
          | None => None
          | Some t =>
              if String.eqb t substr then Some true
              else findSubstring_checked s substr
          end
    end.

(** The inner loop over [filter.Roles]. *)
Fixpoint roleMatch (role : string) (roles : list string) : bool :=
  match roles with
  | [] => false
  | r :: roles' => if String.eqb role r then true else roleMatch role roles'
  end.

(** The body of [List]: [snapshot] is the sequence in which [range r.users]
    yields the records, [result] and [count] are the loop's variables.
    [count] is an [int]; it counts appended records, of which there are at
    most 2^32 (the keys are [int32]s), so it never wraps. *)
Fixpoint List_loop (filter : pb.UserFilter.t) (snapshot : list User)
    (result : list User) (count : Z) : list User :=
  match snapshot with
  | [] => result
  | user :: rest =>
      if negb (String.eqb (pb.UserFilter.Keyword filter) "") &&
         negb (contains (Name user) (pb.UserFilter.Keyword filter))
      then List_loop filter rest result count
      else if (0 <? Datatypes.length (pb.UserFilter.Roles filter))%nat &&
              negb (roleMatch (Role user) (pb.UserFilter.Roles filter))
      then List_loop filter rest result count
      else if (0 <? pb.UserFilter.Limit filter) &&
              (pb.UserFilter.Limit filter <=? count)
      then result
      else List_loop filter rest (result ++ [user]) (count + 1)
  end.

(** A record gets past both [continue] tests of the loop of [List]. *)
Definition passes (filter : pb.UserFilter.t) (user : User) : bool :=
  negb (negb (String.eqb (pb.UserFilter.Keyword filter) "") &&
        negb (contains (Name user) (pb.UserFilter.Keyword filter))) &&
  negb ((0 <? Datatypes.length (pb.UserFilter.Roles filter))%nat &&
        negb (roleMatch (Role user) (pb.UserFilter.Roles filter))).

(** Go leaves the iteration order of a map unspecified: [order] is any
    enumeration of the live records. *)
Definition iteration_order (r : InMemoryUserRepository)
    (order : list User) : Prop :=
  order ≡ₚ (map_to_list (users r)).*2.

Definition List_in_order (order : list User) (filter : pb.UserFilter.t)
    : list User :=
  List_loop filter order [] 0.

(** [List] run in the enumeration order of the [gmap]. *)
Definition List (r : InMemoryUserRepository) (filter : pb.UserFilter.t)
    : list User * option error :=
  (List_in_order (map_to_list (users r)).*2 filter, None).

End repository.

(** ** internal/service/user_service.go *)

Module service.
Import models repository.

(** The [codes] of [google.golang.org/grpc] the handlers use, and
    [status.Error(code, message)]. *)
Inductive Code :=
| NotFound | AlreadyExists | InvalidArgument
| DeadlineExceeded | Canceled | Internal.

Record Status := mkStatus { code : Code; message : string }.

(** What [ctx.Err()] returns for the context of a call. *)
Inductive ctxErr := ctxNil | ctxDeadlineExceeded | ctxCanceled.

Definition checkContext (ctx : ctxErr) : option Status :=
  match ctx with
  | ctxDeadlineExceeded => Some (mkStatus DeadlineExceeded "Request timeout")
  | ctxCanceled => Some (mkStatus Canceled "Request canceled")
  | ctxNil => None
  end.

Definition GetUser (ctx : ctxErr) (r : InMemoryUserRepository)
    (req : pb.UserRequest.t) : pb.UserResponse.t + Status :=
  match checkContext ctx with
  | Some err => inr err
  | None =>
      match GetByID r (pb.UserRequest.Id req) with
      | inr ErrUserNotFound =>
          inr (mkStatus NotFound
                 ("User ID=" +:+ pretty (pb.UserRequest.Id req) +:+
                  " not found"))
      | inr err =>
          inr (mkStatus Internal ("Failed to get user: " +:+ Error err))
      | inl user => inl (ToProto user)
      end
  end.

Definition CreateUser (now : Z) (ctx : ctxErr) (r : InMemoryUserRepository)
    (req : pb.CreateUserRequest.t)
    : InMemoryUserRepository * (pb.UserResponse.t + Status) :=
  match checkContext ctx with
  | Some err => (r, inr err)
  | None =>
      let user := FromCreateRequest now req 0 in
      match Create r user with
      | (r, _, Some ErrInvalidInput) =>
          (r, inr (mkStatus InvalidArgument "Name and email are required"))
      | (r, _, Some ErrEmailExists) =>
          (r, inr (mkStatus AlreadyExists
                     ("Email " +:+ pb.CreateUserRequest.Email req +:+
                      " already in use")))
      | (r, _, Some err) =>
          (r, inr (mkStatus Internal
                     ("Failed to create user: " +:+ Error err)))
      | (r, user, None) => (r, inl (ToProto user))
      end
  end.

(** [UpdateUser] when no other call writes to the store between its
    [GetByID] and its [repository.Update]; [concurrent.UpdateUser] below is
    the handler with such writes. *)
Definition UpdateUser (now : Z) (ctx : ctxErr) (r : InMemoryUserRepository)
    (req : pb.UpdateUserRequest.t)
    : InMemoryUserRepository * (pb.UserResponse.t + Status) :=
  match checkContext ctx with
  | Some err => (r, inr err)
  | None =>
      match GetByID r (pb.UpdateUserRequest.Id req) with
      | inr ErrUserNotFound =>
          (r, inr (mkStatus NotFound
                     ("User ID=" +:+ pretty (pb.UpdateUserRequest.Id req) +:+
                      " not found")))
      | inr err =>
          (r, inr (mkStatus Internal
                     ("Failed to get user: " +:+ Error err)))
      | inl user =>
          let user := models.Update now user req in
          match repository.Update r user with
          | (r, Some err) =>
              (r, inr (mkStatus Internal
                         ("Failed to update user: " +:+ Error err)))
          | (r, None) => (r, inl (ToProto user))
          end
      end
  end.

Definition DeleteUser (ctx : ctxErr) (r : InMemoryUserRepository)
    (req : pb.UserRequest.t) : InMemoryUserRepository * (unit + Status) :=
  match checkContext ctx with
  | Some err => (r, inr err)
  | None =>
      match Delete r (pb.UserRequest.Id req) with
      | (r, Some ErrUserNotFound) =>
          (r, inr (mkStatus NotFound
                     ("User ID=" +:+ pretty (pb.UserRequest.Id req) +:+
                      " not found")))
      | (r, Some err) =>
          (r, inr (mkStatus Internal
                     ("Failed to delete user: " +:+ Error err)))
      | (r, None) => (r, inl tt)
      end
  end.

(** How the input of a client stream ends: [io.EOF], or another error of
    [stream.Recv()]. *)
Inductive recvEnd := EOF | RecvError (err : string).

(** The loop of [CreateUsers] when no other call writes to the store while
    the batch is served and [stream.SendAndClose] succeeds;
    [concurrent.CreateUsers] below is the handler without these two
    provisos.  [items] are the requests [stream.Recv()] delivers, each with
    the clock reading of its [FromCreateRequest]; [createdCount] is an
    [int32]. *)
Fixpoint CreateUsers_loop (r : InMemoryUserRepository)
    (items : list (Z * pb.CreateUserRequest.t)) (fin : recvEnd)
    (createdCount : Z) (userIDs : list Z) (errors : list string)
    : InMemoryUserRepository * (pb.BulkCreateResponse.t + string) :=
  match items with
  | [] =>
      match fin with
      | EOF => (r, inl (pb.BulkCreateResponse.mk createdCount userIDs errors))
      | RecvError err => (r, inr err)
      end
  | (now, req) :: rest =>
      let user := FromCreateRequest now req 0 in
      match Create r user with
      | (r, _, Some err) =>
          CreateUsers_loop r rest fin createdCount userIDs
            (errors ++ ["Email " +:+ pb.CreateUserRequest.Email req +:+
                        ": " +:+ Error err])
      | (r, user, None) =>
          CreateUsers_loop r rest fin (wrap32 (createdCount + 1))
            (userIDs ++ [ID user]) errors
      end
  end.

Definition CreateUsers (r : InMemoryUserRepository)
    (items : list (Z * pb.CreateUserRequest.t)) (fin : recvEnd)
    : InMemoryUserRepository * (pb.BulkCreateResponse.t + string) :=
  CreateUsers_loop r items fin 0 [] [].

(** The reply the receiving goroutine of [Chat] builds for [msg]. *)
Definition echoResponse (now : Z) (msg : pb.ChatMessage.t)
    : pb.ChatMessage.t :=
  pb.ChatMessage.mk "Server" (pb.ChatMessage.From msg)
    ("Echo: " +:+ pb.ChatMessage.Message msg) now pb.MESSAGE_TYPE_TEXT.

(** The receiving goroutine of [Chat]; the heartbeat goroutine, which
    shares nothing with it but the stream, is not modelled.  [inbound] are
    the messages [stream.Recv()] delivers before it fails, each with the
    clock reading of its reply and with whether [stream.Send] of the reply
    succeeds; the result is the sequence of replies sent. *)
Fixpoint Chat_echo_loop (inbound : list (Z * pb.ChatMessage.t * bool))
    : list pb.ChatMessage.t :=
  match inbound with
  | [] => []
  | (now, msg, sent) :: rest =>
      let response := echoResponse now msg in
      if sent : bool then response :: Chat_echo_loop rest else []
  end.

(** The error [StreamUsers] returns: the error of the stream's context, the
    error of [stream.Send], or a status of its own. *)
Inductive streamError :=
| StreamContextErr (err : ctxErr)
| StreamSendErr (err : string)
| StreamStatus (st : Status).

(** The loop of [StreamUsers] over the records [List] returned.  [env i]
    is what the [i]-th iteration meets: the value of
    [stream.Context().Err()] and the result of [stream.Send] ([None] is
    [nil]).  The result is the sequence of responses sent and the error
    returned; the pause after each send has no effect on either. *)
Fixpoint StreamUsers_loop (users : list User)
    (env : nat -> ctxErr * option string) (i : nat)
    : list pb.UserResponse.t * option streamError :=
  match users with
  | [] => ([], None)
  | user :: rest =>
      match (env i).1 with
      | ctxNil =>
          match (env i).2 with
          | Some err => ([], Some (StreamSendErr err))
          | None =>
              let '(sent, err) := StreamUsers_loop rest env (S i) in
              (ToProto user :: sent, err)
          end
      | err => ([], Some (StreamContextErr err))
      end
  end.

(** [StreamUsers], with the order in which [List] iterates over the map. *)
Definition StreamUsers (order : list User) (filter : pb.UserFilter.t)
    (env : nat -> ctxErr * option string)
    : list pb.UserResponse.t * option streamError :=
  match (List_in_order order filter, @None error) with
  | (_, Some err) =>
      ([], Some (StreamStatus
                   (mkStatus Internal
                      ("Failed to list users: " +:+ Error err))))
  | (users, None) => StreamUsers_loop users env 0
  end.

(** What the [select] of the heartbeat goroutine of [Chat] receives: a tick
    of the 30-second ticker, with the clock reading of the heartbeat and
    with whether [stream.Send] of it succeeds, or the end of the stream's
    context. *)
Inductive heartbeatEvent :=
| Tick (now : Z) (sent : bool)
| ContextDone.

(** The heartbeat goroutine of [Chat] on a sequence of events; the result
    is the sequence of heartbeats sent.  Go's zero value of the field [To],
    which the code leaves out, is the empty string. *)
Fixpoint Chat_heartbeat_loop (events : list heartbeatEvent)
    : list pb.ChatMessage.t :=
  match events with
  | [] => []
  | Tick now sent :: rest =>
      let heartbeat :=
        pb.ChatMessage.mk "Server" "" "Heartbeat" now pb.MESSAGE_TYPE_TEXT in
      if sent then heartbeat :: Chat_heartbeat_loop rest else []
  | ContextDone :: _ => []
  end.

End service.

(** ** Sequences of store operations *)

Module trace.
Import models repository.

Inductive op :=
| OpCreate (user : User)
| OpUpdate (user : User)
| OpDelete (id : Z).

(** One operation on the store; the second component is the ID the store
    assigned, if the operation was a successful [Create]. *)
Definition exec (r : InMemoryUserRepository) (o : op)
    : InMemoryUserRepository * list Z :=
  match o with
  | OpCreate user =>
      match Create r user with
      | (r, user, None) => (r, [ID user])
      | (r, _, Some _) => (r, [])
      end
  | OpUpdate user => ((Update r user).1, [])
  | OpDelete id => ((Delete r id).1, [])
  end.

(** The operations in order; the IDs assigned, in order of assignment. *)
Fixpoint run (r : InMemoryUserRepository) (ops : list op)
    : InMemoryUserRepository * list Z :=
  match ops with
  | [] => (r, [])
  | o :: ops' =>
      let '(r1, ids1) := exec r o in
      let '(r2, ids2) := run r1 ops' in
      (r2, ids1 ++ ids2)
  end.

End trace.

(** ** The handlers beside other calls

    The store is shared by all calls, and each method of the repository
    holds its lock for the time of that method only.  A handler that calls
    the repository more than once meets, from its second call on, the store
    as the writes of the other calls served in the meantime have left it.
    These writes are sequences of [trace.op]. *)

Module concurrent.
Import models repository service.

(** [UpdateUser] takes the lock twice: in [GetByID] and in
    [repository.Update].  [r] is the store [GetByID] reads; [others] are
    the writes of other calls served before [repository.Update] gets the
    lock. *)
Definition UpdateUser (now : Z) (ctx : ctxErr) (r : InMemoryUserRepository)
    (others : list trace.op) (req : pb.UpdateUserRequest.t)
    : InMemoryUserRepository * (pb.UserResponse.t + Status) :=
  match checkContext ctx with
  | Some err => (r, inr err)
  | None =>
      match GetByID r (pb.UpdateUserRequest.Id req) with
      | inr ErrUserNotFound =>
          (r, inr (mkStatus NotFound
                     ("User ID=" +:+ pretty (pb.UpdateUserRequest.Id req) +:+
                      " not found")))
      | inr err =>
          (r, inr (mkStatus Internal
                     ("Failed to get user: " +:+ Error err)))
      | inl user =>
          let user := models.Update now user req in
          let r := (trace.run r others).1 in
          match repository.Update r user with
          | (r, Some err) =>
              (r, inr (mkStatus Internal
                         ("Failed to update user: " +:+ Error err)))
          | (r, None) => (r, inl (ToProto user))
          end
      end
  end.

(** [CreateUsers] takes the lock once per request, in [Create], and waits
    in [stream.Recv()] in between.  Each request of [arrivals] comes with
    the clock reading of its [FromCreateRequest] and, before it, with the
    writes of other calls served since the handler last held the lock (for
    the first request: since the store was [r]).  [send] is the result of
    [stream.SendAndClose], which the handler returns: the summary reaches
    the client only when it is [nil]. *)
Fixpoint CreateUsers_loop (r : InMemoryUserRepository)
    (arrivals : list (list trace.op * (Z * pb.CreateUserRequest.t)))
    (fin : recvEnd) (send : option string)
    (createdCount : Z) (userIDs : list Z) (errors : list string)
    : InMemoryUserRepository * (pb.BulkCreateResponse.t + string) :=
  match arrivals with
  | [] =>
      match fin with
      | EOF =>
          match send with
          | None =>
              (r, inl (pb.BulkCreateResponse.mk createdCount userIDs errors))
          | Some err => (r, inr err)
          end
      | RecvError err => (r, inr err)
      end
  | (others, (now, req)) :: rest =>
      let r := (trace.run r others).1 in
      let user := FromCreateRequest now req 0 in
      match Create r user with
      | (r, _, Some err) =>
          CreateUsers_loop r rest fin send createdCount userIDs
            (errors ++ ["Email " +:+ pb.CreateUserRequest.Email req +:+
                        ": " +:+ Error err])
      | (r, user, None) =>
          CreateUsers_loop r rest fin send (wrap32 (createdCount + 1))
            (userIDs ++ [ID user]) errors
      end
  end.

Definition CreateUsers (r : InMemoryUserRepository)
    (arrivals : list (list trace.op * (Z * pb.CreateUserRequest.t)))
    (fin : recvEnd) (send : option string)
    : InMemoryUserRepository * (pb.BulkCreateResponse.t + string) :=
  CreateUsers_loop r arrivals fin send 0 [] [].

End concurrent.

(** ** Reference notions the properties are stated with *)

Module spec.
Import models repository.

(** [sub] occurs in [s]: reference substring containment. *)
Definition is_substring (sub s : string) : Prop :=
  exists pre suf : string, s = pre +:+ sub +:+ suf.

(** No two live users have the same email. *)
Definition emails_unique (m : gmap Z User) : Prop :=
  forall k1 k2 u1 u2,
    m !! k1 = Some u1 -> m !! k2 = Some u2 ->
    Email u1 = Email u2 -> k1 = k2.

(** Some live user has the email [email]. *)
Definition live_email (m : gmap Z User) (email : string) : Prop :=
  exists k u, m !! k = Some u /\ Email u = email.

(** Every record is stored under its own ID. *)
Definition keys_consistent (m : gmap Z User) : Prop :=
  forall k u, m !! k = Some u -> ID u = k.

(** The ID counter has not wrapped: it is positive and above every key in
    use. *)
Definition counter_fresh (r : InMemoryUserRepository) : Prop :=
  0 < nextID r < 2 ^ 31 /\
  forall k u, users r !! k = Some u -> k < nextID r.

(** The filter of the Query/Filter Engine in the words of the
    specification: the name contains the keyword (an empty keyword matches
    all) and the role appears in the role set (an empty set matches
    all). *)
Definition keeps (filter : pb.UserFilter.t) (u : User) : Prop :=
  (pb.UserFilter.Keyword filter = "" \/
   is_substring (pb.UserFilter.Keyword filter) (Name u)) /\
  (pb.UserFilter.Roles filter = [] \/
   In (Role u) (pb.UserFilter.Roles filter)).

(** A straightforward decision procedure for [is_substring]: [sub] is a
    prefix of some suffix of [s]. *)
Fixpoint substringb (sub s : string) : bool :=
  String.prefix sub s ||
  match s with
  | EmptyString => false
  | String _ s' => substringb sub s'
  end.

Definition keepsb (filter : pb.UserFilter.t) (u : User) : bool :=
  (String.eqb (pb.UserFilter.Keyword filter) "" ||
   substringb (pb.UserFilter.Keyword filter) (Name u)) &&
  (match pb.UserFilter.Roles filter with [] => true | _ => false end ||
   existsb (String.eqb (Role u)) (pb.UserFilter.Roles filter)).

(** [List] in the words of the specification: the matching records in
    iteration order, cut to the first [limit] when [limit > 0]. *)
Definition List_spec (order : list User) (filter : pb.UserFilter.t)
    : list User :=
  let kept := List.filter (keepsb filter) order in
  if 0 <? pb.UserFilter.Limit filter
  then take (Z.to_nat (pb.UserFilter.Limit filter)) kept
  else kept.

(** A creation request the store accepts as input: name and email are
    present. *)
Definition valid_request (req : pb.CreateUserRequest.t) : Prop :=
  pb.CreateUserRequest.Name req <> "" /\
  pb.CreateUserRequest.Email req <> "".

(** [l] is a run of consecutive integers starting at [start]. *)
Fixpoint consecutive_from (start : Z) (l : list Z) : Prop :=
  match l with
  | [] => True
  | x :: l' => x = start /\ consecutive_from (start + 1) l'
  end.

(** [l] is a run of consecutive [int32]s starting at [start]: each is the
    wrapped successor of the one before. *)
Fixpoint consecutive32_from (start : Z) (l : list Z) : Prop :=
  match l with
  | [] => True
  | x :: l' => x = start /\ consecutive32_from (wrap32 (start + 1)) l'
  end.

(** An [int32] after [n] increments. *)
Fixpoint bump32 (n : nat) (z : Z) : Z :=
  match n with
  | O => z
  | S n' => bump32 n' (wrap32 (z + 1))
  end.

(** The [n] values an [int32] counter takes from [start] on. *)
Fixpoint ids32 (start : Z) (n : nat) : list Z :=
  match n with
  | O => []
  | S n' => start :: ids32 (wrap32 (start + 1)) n'
  end.

(** Bulk ingest in the words of the specification: each item goes through
    [Create] on its own, in arrival order, whatever happened to the items
    before it; a success contributes its ID, a failure its message. *)
Fixpoint process_each (r : InMemoryUserRepository)
    (items : list (Z * pb.CreateUserRequest.t))
    : InMemoryUserRepository * list Z * list string :=
  match items with
  | [] => (r, [], [])
  | (now, req) :: rest =>
      match Create r (FromCreateRequest now req 0) with
      | (r1, user, None) =>
          let '(r2, ids, errs) := process_each r1 rest in
          (r2, ID user :: ids, errs)
      | (r1, _, Some err) =>
          let '(r2, ids, errs) := process_each r1 rest in
          (r2, ids,
           ("Email " +:+ pb.CreateUserRequest.Email req +:+ ": " +:+
            Error err) :: errs)
      end
  end.

Definition request_emails (items : list (Z * pb.CreateUserRequest.t))
    : list string :=
  map (fun it => pb.CreateUserRequest.Email it.2) items.

(** The store operations a batch amounts to. *)
Definition ops_of_items (items : list (Z * pb.CreateUserRequest.t))
    : list trace.op :=
  map (fun it => trace.OpCreate (FromCreateRequest it.1 it.2 0)) items.

(** The emails of the creations in a sequence of operations. *)
Fixpoint created_emails (ops : list trace.op) : list string :=
  match ops with
  | [] => []
  | trace.OpCreate user :: ops' => Email user :: created_emails ops'
  | _ :: ops' => created_emails ops'
  end.

(** A valid creation, or a deletion. *)
Definition create_or_delete (o : trace.op) : Prop :=
  match o with
  | trace.OpCreate user => Name user <> ""%string /\ Email user <> ""%string
  | trace.OpDelete _ => True
  | trace.OpUpdate _ => False
  end.

(** The [i]-th request of a generated batch: distinct emails, none of them
    in the seed data. *)
Definition fresh_email (i : nat) : string := "user" +:+ pretty i.

Definition fresh_request (i : nat) : Z * pb.CreateUserRequest.t :=
  (0, pb.CreateUserRequest.mk "New User" (fresh_email i) "").

(** Create the [i]-th generated user, then delete it again: on the seeded
    store it is the record with the [int32] ID [4 + i]. *)
Definition churn (i : nat) : list trace.op :=
  [trace.OpCreate (FromCreateRequest 0 (fresh_request i).2 0);
   trace.OpDelete (wrap32 (4 + Z.of_nat i))].

Definition churn_ops (n : nat) : list trace.op :=
  flat_map churn (seq 0 n).

End spec.

(** ** Calls served one after another *)

Module rpc.
Import models repository service.

(** The calls of the registered service that reach the store. *)
Inductive call :=
| CallGetUser (ctx : ctxErr) (req : pb.UserRequest.t)
| CallCreateUser (now : Z) (ctx : ctxErr) (req : pb.CreateUserRequest.t)
| CallUpdateUser (now : Z) (ctx : ctxErr) (req : pb.UpdateUserRequest.t)
| CallDeleteUser (ctx : ctxErr) (req : pb.UserRequest.t)
| CallStreamUsers (filter : pb.UserFilter.t)
| CallCreateUsers (items : list (Z * pb.CreateUserRequest.t))
                  (fin : recvEnd).

(** The store after a call. *)
Definition handle (r : InMemoryUserRepository) (c : call)
    : InMemoryUserRepository :=
  match c with
  | CallGetUser _ _ => r
  | CallCreateUser now ctx req => (CreateUser now ctx r req).1
  | CallUpdateUser now ctx req => (UpdateUser now ctx r req).1
  | CallDeleteUser ctx req => (DeleteUser ctx r req).1
  | CallStreamUsers _ => r
  | CallCreateUsers items fin => (CreateUsers r items fin).1
  end.

(** The store after a sequence of calls, each served to its end before the
    next begins. *)
Definition serve (r : InMemoryUserRepository) (calls : list call)
    : InMemoryUserRepository :=
  foldl handle r calls.

End rpc.

(** ** Further reference notions *)

Module laws.
Import models repository service rpc.

(** Name, email and role are present. *)
Definition record_complete (u : User) : Prop :=
  Name u <> ""%string /\ Email u <> ""%string /\ Role u <> ""%string.

Definition store_complete (m : gmap Z User) : Prop :=
  forall k u, m !! k = Some u -> record_complete u.

(** The records are complete and sit under their own IDs. *)
Definition well_kept (r : InMemoryUserRepository) : Prop :=
  spec.keys_consistent (users r) /\ store_complete (users r).

(** The records sit under their own IDs and no two share an email. *)
Definition unique_kept (r : InMemoryUserRepository) : Prop :=
  spec.keys_consistent (users r) /\ spec.emails_unique (users r).

(** Two update requests for the same user as one: a field of the later
    request wins when it is set. *)
Definition merge_updates (q1 q2 : pb.UpdateUserRequest.t)
    : pb.UpdateUserRequest.t :=
  pb.UpdateUserRequest.mk
    (pb.UpdateUserRequest.Id q2)
    (if String.eqb (pb.UpdateUserRequest.Name q2) ""
     then pb.UpdateUserRequest.Name q1 else pb.UpdateUserRequest.Name q2)
    (if String.eqb (pb.UpdateUserRequest.Email q2) ""
     then pb.UpdateUserRequest.Email q1 else pb.UpdateUserRequest.Email q2)
    (if String.eqb (pb.UpdateUserRequest.Role q2) ""
     then pb.UpdateUserRequest.Role q1 else pb.UpdateUserRequest.Role q2).

(** A call that cannot give a user an email: every call but an
    [UpdateUser] with the email field set. *)
Definition keeps_emails (c : call) : Prop :=
  match c with
  | CallUpdateUser _ _ req => pb.UpdateUserRequest.Email req = ""%string
  | _ => True
  end.

(** The [CreateUser] calls a batch amounts to. *)
Definition calls_of_items (items : list (Z * pb.CreateUserRequest.t))
    : list call :=
  map (fun it => CallCreateUser it.1 ctxNil it.2) items.

(** The reply to each of these messages is sent successfully. *)
Definition all_sent (inbound : list (Z * pb.ChatMessage.t * bool)) : Prop :=
  Forall (fun it => it.2 = true) inbound.

(** A batch during which no other call writes to the store. *)
Definition alone (items : list (Z * pb.CreateUserRequest.t))
    : list (list trace.op * (Z * pb.CreateUserRequest.t)) :=
  map (fun it => ([], it)) items.

(** All the writes served while a batch is, in the order in which they get
    the lock. *)
Definition merged
    (arrivals : list (list trace.op * (Z * pb.CreateUserRequest.t)))
    : list trace.op :=
  flat_map
    (fun a => a.1 ++ [trace.OpCreate (FromCreateRequest a.2.1 a.2.2 0)])
    arrivals.

(** The requests of a batch in arrival order, each with the store it meets
    when its [Create] gets the lock. *)
Fixpoint turns (r : InMemoryUserRepository)
    (arrivals : list (list trace.op * (Z * pb.CreateUserRequest.t)))
    : list (InMemoryUserRepository * (Z * pb.CreateUserRequest.t)) :=
  match arrivals with
  | [] => []
  | (others, (now, req)) :: rest =>
      let r1 := (trace.run r others).1 in
      (r1, (now, req))
      :: turns (Create r1 (FromCreateRequest now req 0)).1.1 rest
  end.

(** What the Create path makes of a request on the store it meets: the ID
    [Create] assigns, or the message recorded for its error. *)
Definition turn_outcome
    (t : InMemoryUserRepository * (Z * pb.CreateUserRequest.t))
    : Z + string :=
  match Create t.1 (FromCreateRequest t.2.1 t.2.2 0) with
  | (_, user, None) => inl (ID user)
  | (_, _, Some err) =>
      inr ("Email " +:+ pb.CreateUserRequest.Email t.2.2 +:+ ": " +:+
           Error err)
  end.

Fixpoint assigned (outcomes : list (Z + string)) : list Z :=
  match outcomes with
  | [] => []
  | inl id :: rest => id :: assigned rest
  | inr _ :: rest => assigned rest
  end.

Fixpoint refused (outcomes : list (Z + string)) : list string :=
  match outcomes with
  | [] => []
  | inl _ :: rest => refused rest
  | inr message :: rest => message :: refused rest
  end.

(** A valid request that meets a store in which no live user has its
    email. *)
Definition fresh_turn
    (t : InMemoryUserRepository * (Z * pb.CreateUserRequest.t)) : Prop :=
  spec.valid_request t.2.2
  /\ ~ spec.live_email (users t.1) (pb.CreateUserRequest.Email t.2.2).

(** The IDs the store assigns while a batch is served, in order of
    assignment; an ID is tagged [true] when it goes to a request of the
    batch and [false] when it goes to another call. *)
Fixpoint assignments (r : InMemoryUserRepository)
    (arrivals : list (list trace.op * (Z * pb.CreateUserRequest.t)))
    : list (bool * Z) :=
  match arrivals with
  | [] => []
  | (others, (now, req)) :: rest =>
      let '(r1, ids) := trace.run r others in
      match Create r1 (FromCreateRequest now req 0) with
      | (r2, user, None) =>
          map (pair false) ids ++ (true, ID user) :: assignments r2 rest
      | (r2, _, Some _) => map (pair false) ids ++ assignments r2 rest
      end
  end.

(** The IDs that went to the batch. *)
Fixpoint own (l : list (bool * Z)) : list Z :=
  match l with
  | [] => []
  | (true, id) :: rest => id :: own rest
  | (false, _) :: rest => own rest
  end.

End laws.

(** * Properties *)

(** ** Strings *)

Section strings.

Lemma append_cons (c : ascii) (a b : string) :
  String c a +:+ b = String c (a +:+ b).
Proof. reflexivity. Qed.

Lemma append_nil_l (a : string) : "" +:+ a = a.
Proof. reflexivity. Qed.

Lemma len_cons (c : ascii) (a : string) : len (String c a) = S (len a).
Proof. reflexivity. Qed.

Lemma len_append (a b : string) : len (a +:+ b) = (len a + len b)%nat.
Proof.
  induction a as [|c a IH]; [reflexivity|].
  rewrite append_cons, !len_cons, IH. reflexivity.
Qed.

Lemma append_nil_r (a : string) : a +:+ "" = a.
Proof.
  induction a as [|c a IH]; [reflexivity|].
  rewrite append_cons, IH. reflexivity.
Qed.

Lemma append_assoc (a b c : string) : (a +:+ b) +:+ c = a +:+ (b +:+ c).
Proof.
  induction a as [|x a IH]; [reflexivity|].
  rewrite !append_cons, IH. reflexivity.
Qed.

Lemma len_zero (a : string) : len a = 0%nat -> a = "".
Proof. destruct a; [reflexivity | discriminate]. Qed.

(** A slice that starts at 0 and equals [sub] exhibits [sub] as a prefix. *)
Lemma substring_0_prefix (sub s : string) :
  String.substring 0 (len sub) s = sub -> exists suf, s = sub +:+ suf.
Proof.
  revert s. induction sub as [|c sub IH]; intros s H.
  - exists s. reflexivity.
  - destruct s as [|d s]; [discriminate|].
    rewrite len_cons in H. simpl in H. injection H as -> H.
    destruct (IH _ H) as [suf ->]. exists suf. reflexivity.
Qed.

Lemma substring_0_append (sub suf : string) :
  String.substring 0 (len sub) (sub +:+ suf) = sub.
Proof.
  induction sub as [|c sub IH].
  - rewrite append_nil_l. destruct suf; reflexivity.
  - rewrite append_cons, len_cons. simpl. now rewrite IH.
Qed.

Lemma substring_at_split (i : nat) (sub s : string) :
  String.substring i (len sub) s = sub -> (i + len sub <= len s)%nat ->
  exists pre suf, len pre = i /\ s = pre +:+ sub +:+ suf.
Proof.
  revert s. induction i as [|i IH]; intros s H Hle.
  - destruct (substring_0_prefix _ _ H) as [suf ->].
    exists ""%string, suf. split; reflexivity.
  - destruct s as [|c s].
    + rewrite Nat.add_succ_l in Hle. inversion Hle.
    + simpl in H. rewrite len_cons in Hle.
      destruct (IH s H) as (pre & suf & Hpre & ->); [lia|].
      exists (String c pre), suf. split; [|reflexivity].
      rewrite len_cons. lia.
Qed.

Lemma substring_at_append (pre sub suf : string) :
  String.substring (len pre) (len sub) (pre +:+ sub +:+ suf) = sub.
Proof.
  induction pre as [|c pre IH].
  - rewrite append_nil_l. apply substring_0_append.
  - rewrite append_cons, len_cons. simpl. exact IH.
Qed.

Lemma slice_len (s sub : string) (i : nat) :
  slice s i (i + len sub) = String.substring i (len sub) s.
Proof. unfold slice. f_equal. lia. Qed.

End strings.

(** ** The hand-rolled substring test *)

Section contains_correct.
Import repository spec.

Lemma findSubstring_loop_true (n i : nat) (s sub : string) :
  findSubstring_loop n i s sub = true <->
  exists j, (i <= j < i + n)%nat /\ String.substring j (len sub) s = sub.
Proof.
  revert i. induction n as [|n IH]; intros i; simpl.
  - split; [discriminate | intros (j & Hj & _); lia].
  - rewrite slice_len.
    destruct (String.eqb_spec (String.substring i (len sub) s) sub) as [E|N].
    + split; [intros _; exists i; split; [lia | exact E] | reflexivity].
    + rewrite IH. split.
      * intros (j & Hj & E). exists j. split; [lia | exact E].
      * intros (j & Hj & E). exists j. split; [|exact E].
        destruct (Nat.eq_dec j i) as [->|]; [contradiction | lia].
Qed.

Lemma is_substring_len (sub s : string) :
  is_substring sub s -> (len sub <= len s)%nat.
Proof. intros (pre & suf & ->). rewrite !len_append. lia. Qed.

Lemma findSubstring_correct (s sub : string) :
  findSubstring s sub = true <-> is_substring sub s.
Proof.
  unfold findSubstring. rewrite findSubstring_loop_true. split.
  - intros (j & Hj & E).
    destruct (substring_at_split j sub s E) as (pre & suf & _ & ->); [lia|].
    exists pre, suf. reflexivity.
  - intros (pre & suf & ->). exists (len pre). split.
    + rewrite !len_append. lia.
    + apply substring_at_append.
Qed.

(** [contains] decides substring containment, for every pair of strings. *)
Lemma contains_correct (s sub : string) :
  contains s sub = true <-> is_substring sub s.
Proof.
  unfold contains. split.
  - intros H. apply andb_true_iff in H as [Hle H].
    apply Nat.leb_le in Hle.
    apply orb_true_iff in H as [H|H].
    + apply String.eqb_eq in H as ->. exists ""%string, ""%string.
      rewrite append_nil_l, append_nil_r. reflexivity.
    + apply andb_true_iff in H as [Hlt H]. apply Nat.ltb_lt in Hlt.
      rewrite !orb_true_iff in H. destruct H as [[H|H]|H].
      * apply String.eqb_eq in H. unfold slice in H.
        rewrite Nat.sub_0_r in H.
        destruct (substring_0_prefix _ _ H) as [suf ->].
        exists ""%string, suf. reflexivity.
      * apply String.eqb_eq in H. unfold slice in H.
        replace (len s - (len s - len sub))%nat with (len sub) in H by lia.
        destruct (substring_at_split _ _ _ H) as (pre & suf & _ & ->);
          [lia|].
        exists pre, suf. reflexivity.
      * now apply findSubstring_correct.
  - intros H. pose proof (is_substring_len _ _ H) as Hle.
    apply andb_true_iff. split; [now apply Nat.leb_le|].
    destruct (String.eqb_spec s sub) as [E|N]; [reflexivity|]. simpl.
    apply andb_true_iff. split.
    + apply Nat.ltb_lt. destruct (Nat.eq_dec (len sub) (len s)) as [E|]; [|lia].
      exfalso. apply N. destruct H as (pre & suf & ->).
      rewrite !len_append in E.
      assert (pre = ""%string) as -> by (apply len_zero; lia).
      assert (suf = ""%string) as -> by (apply len_zero; lia).
      rewrite append_nil_l, append_nil_r. reflexivity.
    + rewrite !orb_true_iff. right. now apply findSubstring_correct.
Qed.

Lemma substringb_nil (sub : string) :
  substringb sub "" = String.prefix sub "" || false.
Proof. reflexivity. Qed.

Lemma substringb_cons (sub : string) (c : ascii) (s : string) :
  substringb sub (String c s) =
  String.prefix sub (String c s) || substringb sub s.
Proof. reflexivity. Qed.

Lemma prefix_is_substring (sub s : string) :
  String.prefix sub s = true -> is_substring sub s.
Proof.
  intros H. apply prefix_correct in H.
  destruct (substring_0_prefix _ _ H) as [suf E].
  exists ""%string, suf. exact E.
Qed.

Lemma substringb_correct (sub s : string) :
  substringb sub s = true <-> is_substring sub s.
Proof.
  split.
  - induction s as [|c s IH]; intros H.
    + rewrite substringb_nil, orb_false_r in H.
      now apply prefix_is_substring.
    + rewrite substringb_cons in H. apply orb_true_iff in H as [H|H].
      * now apply prefix_is_substring.
      * destruct (IH H) as (pre & suf & ->).
        exists (String c pre), suf. reflexivity.
  - intros (pre & suf & ->). induction pre as [|c pre IH].
    + rewrite append_nil_l.
      assert (String.prefix sub (sub +:+ suf) = true) as Hp
        by (apply prefix_correct, substring_0_append).
      destruct (sub +:+ suf).
      * rewrite substringb_nil, Hp. reflexivity.
      * rewrite substringb_cons, Hp. reflexivity.
    + rewrite append_cons, substringb_cons, IH. apply orb_true_r.
Qed.

(** Every slice [contains] and [findSubstring] take is within the bounds
    of [s]: the slicing never panics, and the functions with the bounds
    checks compute what [contains] and [findSubstring] compute. *)
Lemma slice_checked_in_range (s : string) (lo hi : nat) :
  (lo <= hi <= len s)%nat ->
  slice_checked s (Z.of_nat lo) (Z.of_nat hi) = Some (slice s lo hi).
Proof.
  intros H. unfold slice_checked.
  replace ((0 <=? Z.of_nat lo) && (Z.of_nat lo <=? Z.of_nat hi) &&
           (Z.of_nat hi <=? Z.of_nat (len s))) with true.
  - now rewrite !Nat2Z.id.
  - symmetry. rewrite !andb_true_iff, !Z.leb_le. lia.
Qed.

Lemma findSubstring_checked_loop_ok (n i : nat) (s sub : string) :
  (0 < n -> i + n + len sub <= len s + 1)%nat ->
  findSubstring_checked_loop n (Z.of_nat i) s sub
  = Some (findSubstring_loop n i s sub).
Proof.
  revert i. induction n as [|n IH]; intros i H; [reflexivity|].
  cbn [findSubstring_checked_loop findSubstring_loop].
  replace (Z.of_nat i + Z.of_nat (len sub)) with (Z.of_nat (i + len sub))
    by lia.
  rewrite slice_checked_in_range by lia.
  destruct (String.eqb _ sub); [reflexivity|].
  replace (Z.of_nat i + 1) with (Z.of_nat (S i)) by lia.
  apply IH. lia.
Qed.

Lemma findSubstring_checked_ok (s sub : string) :
  findSubstring_checked s sub = Some (findSubstring s sub).
Proof.
  unfold findSubstring_checked, findSubstring.
  apply (findSubstring_checked_loop_ok _ 0). lia.
Qed.

Lemma contains_checked_ok (s sub : string) :
  contains_checked s sub = Some (contains s sub).
Proof.
  unfold contains_checked, contains.
  destruct (Nat.leb_spec (len sub) (len s)) as [Hle|Hgt]; [|reflexivity].
  cbn [negb andb].
  destruct (String.eqb s sub); [reflexivity|]. cbn [orb].
  destruct (Nat.ltb_spec (len sub) (len s)) as [Hlt|Hge]; [|reflexivity].
  cbn [negb andb].
  change 0 with (Z.of_nat 0).
  rewrite slice_checked_in_range by lia.
  destruct (String.eqb (slice s 0 (len sub)) sub); [reflexivity|].
  cbn [orb].
  replace (Z.of_nat (len s) - Z.of_nat (len sub))
    with (Z.of_nat (len s - len sub)) by lia.
  rewrite slice_checked_in_range by lia.
  destruct (String.eqb (slice s (len s - len sub) (len s)) sub);
    [reflexivity|].
  cbn [orb]. apply findSubstring_checked_ok.
Qed.

End contains_correct.

(** ** The loop of [List] *)

Section list_loop.
Import models repository spec.

Lemma roleMatch_existsb (role : string) (roles : list string) :
  roleMatch role roles = existsb (String.eqb role) roles.
Proof.
  induction roles as [|r roles IH]; simpl; [reflexivity|].
  rewrite IH. now destruct (String.eqb role r).
Qed.

Lemma contains_substringb (s sub : string) :
  contains s sub = substringb sub s.
Proof.
  apply eq_true_iff_eq. rewrite contains_correct, substringb_correct.
  reflexivity.
Qed.

Lemma passes_keepsb (filter : pb.UserFilter.t) (user : User) :
  passes filter user = keepsb filter user.
Proof.
  unfold passes, keepsb.
  rewrite contains_substringb, roleMatch_existsb.
  destruct (String.eqb (pb.UserFilter.Keyword filter) "");
    destruct (substringb _ _); destruct (pb.UserFilter.Roles filter);
    simpl; try reflexivity;
    now destruct (_ || _).
Qed.

Lemma keepsb_keeps (filter : pb.UserFilter.t) (user : User) :
  keepsb filter user = true <-> keeps filter user.
Proof.
  unfold keepsb, keeps.
  rewrite andb_true_iff, !orb_true_iff, String.eqb_eq, substringb_correct.
  apply and_iff_compat_l.
  rewrite existsb_exists. split.
  - intros [H|(x & Hin & E)].
    + left. now destruct (pb.UserFilter.Roles filter).
    + right. apply String.eqb_eq in E as ->. exact Hin.
  - intros [H|H].
    + left. now rewrite H.
    + right. exists (Role user). split; [exact H | apply String.eqb_refl].
Qed.

(** The loop from any intermediate state: what is left to append is the
    matching part of the rest, cut to the room the limit leaves. *)
Lemma List_loop_spec (filter : pb.UserFilter.t) (snapshot result : list User)
    (count : Z) :
  List_loop filter snapshot result count =
  result ++
  (if 0 <? pb.UserFilter.Limit filter
   then take (Z.to_nat (pb.UserFilter.Limit filter - count))
             (List.filter (passes filter) snapshot)
   else List.filter (passes filter) snapshot).
Proof.
  revert result count.
  induction snapshot as [|user rest IH]; intros result count; simpl.
  - rewrite take_nil. destruct (0 <? _); now rewrite app_nil_r.
  - pose proof (eq_refl (passes filter user)) as P. unfold passes at 2 in P.
    revert P.
    destruct (negb (String.eqb (pb.UserFilter.Keyword filter) "") &&
              negb (contains (Name user) (pb.UserFilter.Keyword filter)));
      simpl; [intros ->; apply IH|].
    destruct ((0 <? Datatypes.length (pb.UserFilter.Roles filter))%nat &&
              negb (roleMatch (Role user) (pb.UserFilter.Roles filter)));
      simpl; intros ->; [apply IH|].
    destruct (Z.ltb_spec 0 (pb.UserFilter.Limit filter)) as [Hpos|Hnp];
      simpl.
    + destruct (Z.leb_spec (pb.UserFilter.Limit filter) count)
        as [Hfull|Hroom].
      * replace (Z.to_nat (pb.UserFilter.Limit filter - count)) with 0%nat
          by lia.
        simpl. now rewrite app_nil_r.
      * rewrite IH.
        replace (0 <? pb.UserFilter.Limit filter) with true
          by (symmetry; now apply Z.ltb_lt).
        replace (Z.to_nat (pb.UserFilter.Limit filter - count))
          with (S (Z.to_nat (pb.UserFilter.Limit filter - (count + 1))))
          by lia.
        simpl. now rewrite <- app_assoc.
    + rewrite IH.
      replace (0 <? pb.UserFilter.Limit filter) with false
        by (symmetry; now apply Z.ltb_ge).
      now rewrite <- app_assoc.
Qed.

Lemma List_in_order_spec (order : list User) (filter : pb.UserFilter.t) :
  List_in_order order filter = List_spec order filter.
Proof.
  unfold List_in_order, List_spec. rewrite List_loop_spec, Z.sub_0_r. simpl.
  rewrite (List.filter_ext _ _ (passes_keepsb filter)). reflexivity.
Qed.

End list_loop.

(** ** The Query/Filter Engine *)

Section query_filter.
Import models repository spec.

(** C4.  [List] keeps exactly the users whose name contains the keyword
    (an empty keyword keeps all) and whose role is in the role set (an
    empty set keeps all), in iteration order, cut to the first [limit]
    matches when [limit > 0]; and [contains] agrees with reference
    substring containment on every pair of strings, without ever slicing
    out of range. *)
Theorem List_keeps_matching_then_truncates :
  (forall order filter, List_in_order order filter = List_spec order filter)
  /\ (forall r filter,
        List r filter = (List_spec (map_to_list (users r)).*2 filter, None))
  /\ (forall order filter u,
        In u (List.filter (keepsb filter) order) <->
        In u order /\ keeps filter u)
  /\ (forall s sub,
        (contains s sub = true <-> is_substring sub s)
        /\ contains_checked s sub = Some (contains s sub)).
Proof.
  split; [exact List_in_order_spec|].
  split; [intros r filter; unfold List; now rewrite List_in_order_spec|].
  split.
  - intros order filter u. rewrite List.filter_In, keepsb_keeps. reflexivity.
  - intros s sub. split; [apply contains_correct | apply contains_checked_ok].
Qed.

(** C2, as the code has it.  With a limit [N > 0], [List] returns at most
    [N] records, whatever the store and the iteration order; with limit
    0 (or a negative one) nothing is cut: every matching record is
    returned. *)
Theorem List_positive_limit_caps (r : InMemoryUserRepository)
    (order : list User) (filter : pb.UserFilter.t) :
  (0 < pb.UserFilter.Limit filter ->
   Z.of_nat (Datatypes.length (List_in_order order filter))
     <= pb.UserFilter.Limit filter
   /\ Z.of_nat (Datatypes.length (List r filter).1)
        <= pb.UserFilter.Limit filter)
  /\ (pb.UserFilter.Limit filter <= 0 ->
      List_in_order order filter = List.filter (keepsb filter) order
      /\ (List r filter).1
         = List.filter (keepsb filter) (map_to_list (users r)).*2).
Proof.
  unfold List, fst. rewrite !List_in_order_spec. unfold List_spec.
  split; intros H.
  - replace (0 <? pb.UserFilter.Limit filter) with true
      by (symmetry; now apply Z.ltb_lt).
    rewrite !length_take. lia.
  - replace (0 <? pb.UserFilter.Limit filter) with false
      by (symmetry; now apply Z.ltb_ge).
    split; reflexivity.
Qed.

Lemma List_positive_limit_caps_witness :
  (Z.of_nat (Datatypes.length
               (List_in_order
                  [mkUser 3 "Bob Johnson" "bob@example.com" "user" 0 0;
                   mkUser 1 "John Doe" "john@example.com" "admin" 0 0]
                  (pb.UserFilter.mk "John" [] 1))) <= 1
   /\ Z.of_nat (Datatypes.length
                  (List (NewInMemoryUserRepository 0)
                        (pb.UserFilter.mk "John" [] 1)).1) <= 1)
  /\ (List_in_order
        [mkUser 3 "Bob Johnson" "bob@example.com" "user" 0 0;
         mkUser 1 "John Doe" "john@example.com" "admin" 0 0]
        (pb.UserFilter.mk "" ["admin"%string] 0)
      = List.filter (keepsb (pb.UserFilter.mk "" ["admin"%string] 0))
          [mkUser 3 "Bob Johnson" "bob@example.com" "user" 0 0;
           mkUser 1 "John Doe" "john@example.com" "admin" 0 0]
      /\ (List (NewInMemoryUserRepository 0)
               (pb.UserFilter.mk "" ["admin"%string] 0)).1
         = List.filter (keepsb (pb.UserFilter.mk "" ["admin"%string] 0))
             (map_to_list (users (NewInMemoryUserRepository 0))).*2).
Proof.
  split.
  - apply (proj1 (List_positive_limit_caps (NewInMemoryUserRepository 0)
                    [mkUser 3 "Bob Johnson" "bob@example.com" "user" 0 0;
                     mkUser 1 "John Doe" "john@example.com" "admin" 0 0]
                    (pb.UserFilter.mk "John" [] 1))).
    simpl. lia.
  - apply (proj2 (List_positive_limit_caps (NewInMemoryUserRepository 0)
                    [mkUser 3 "Bob Johnson" "bob@example.com" "user" 0 0;
                     mkUser 1 "John Doe" "john@example.com" "admin" 0 0]
                    (pb.UserFilter.mk "" ["admin"%string] 0))).
    simpl. lia.
Defined.

Lemma seed_order_length (now : Z) (order : list User) :
  iteration_order (NewInMemoryUserRepository now) order ->
  Datatypes.length order = 3%nat.
Proof.
  unfold iteration_order. intros ->. rewrite length_fmap.
  rewrite length_map_to_list. unfold NewInMemoryUserRepository. simpl.
  rewrite !map_size_insert_None, map_size_empty; [reflexivity|..];
    by simplify_map_eq.
Qed.

Lemma List_no_filter_no_limit (order : list User) :
  List_in_order order (pb.UserFilter.mk "" [] 0) = order.
Proof.
  rewrite List_in_order_spec. unfold List_spec. simpl. apply filter_true.
Qed.

(** C2 as stated fails at [N = 0]: on the seeded store a filter with
    limit 0 returns all three records, in whatever order the map is
    iterated. *)
Lemma List_limit_zero_is_unbounded :
  ~ (forall order,
       iteration_order (NewInMemoryUserRepository 0) order ->
       Z.of_nat (Datatypes.length
                   (List_in_order order (pb.UserFilter.mk "" [] 0))) <= 0)
  /\ Datatypes.length
       (List (NewInMemoryUserRepository 0) (pb.UserFilter.mk "" [] 0)).1
     = 3%nat.
Proof.
  assert (iteration_order (NewInMemoryUserRepository 0)
            (map_to_list (users (NewInMemoryUserRepository 0))).*2) as Ho
    by (unfold iteration_order; reflexivity).
  split.
  - intros H. specialize (H _ Ho).
    rewrite List_no_filter_no_limit, (seed_order_length 0 _ Ho) in H. lia.
  - unfold List, fst. rewrite List_no_filter_no_limit.
    apply (seed_order_length 0 _ Ho).
Qed.

End query_filter.

(** ** The store: [Create], [Update], [Delete] *)

Section store.
Import models repository spec.

Lemma emailScan_true (m : gmap Z User) (email : string) :
  emailScan m email = true <-> live_email m email.
Proof.
  unfold emailScan, live_email. rewrite existsb_exists. split.
  - intros ([k u] & Hin & E). apply String.eqb_eq in E.
    apply list_elem_of_In, elem_of_map_to_list in Hin. eauto.
  - intros (k & u & Hk & E). exists (k, u). split.
    + now apply list_elem_of_In, elem_of_map_to_list.
    + now apply String.eqb_eq.
Qed.

Lemma emailScan_false (m : gmap Z User) (email : string) :
  emailScan m email = false <-> ~ live_email m email.
Proof.
  rewrite <- emailScan_true. destruct (emailScan m email); split;
    congruence.
Qed.

Lemma eqb_empty_false (s : string) : s <> ""%string -> String.eqb s "" = false.
Proof. intros H. now apply String.eqb_neq. Qed.

Lemma Create_invalid (r : InMemoryUserRepository) (user : User) :
  Name user = ""%string \/ Email user = ""%string ->
  Create r user = (r, user, Some ErrInvalidInput).
Proof.
  unfold Create. intros [-> | ->]; simpl; [reflexivity|].
  now rewrite orb_true_r.
Qed.

Lemma Create_duplicate (r : InMemoryUserRepository) (user : User) :
  Name user <> ""%string -> Email user <> ""%string ->
  live_email (users r) (Email user) ->
  Create r user = (r, user, Some ErrEmailExists).
Proof.
  intros Hn He Hl. unfold Create.
  rewrite (eqb_empty_false _ Hn), (eqb_empty_false _ He). simpl.
  apply emailScan_true in Hl. now rewrite Hl.
Qed.

Lemma Create_fresh (r : InMemoryUserRepository) (user : User) :
  Name user <> ""%string -> Email user <> ""%string ->
  ~ live_email (users r) (Email user) ->
  Create r user =
  (mkRepo (<[nextID r := set_ID user (nextID r)]> (users r))
          (wrap32 (nextID r + 1)),
   set_ID user (nextID r), None).
Proof.
  intros Hn He Hl. unfold Create.
  rewrite (eqb_empty_false _ Hn), (eqb_empty_false _ He). simpl.
  apply emailScan_false in Hl. now rewrite Hl.
Qed.

(** The three ways [Create] can end. *)
Lemma Create_cases (r : InMemoryUserRepository) (user : User) :
  (Create r user = (r, user, Some ErrInvalidInput) /\
   (Name user = ""%string \/ Email user = ""%string))
  \/ (Create r user = (r, user, Some ErrEmailExists) /\
      Name user <> ""%string /\ Email user <> ""%string /\
      live_email (users r) (Email user))
  \/ (Create r user =
        (mkRepo (<[nextID r := set_ID user (nextID r)]> (users r))
                (wrap32 (nextID r + 1)),
         set_ID user (nextID r), None) /\
      Name user <> ""%string /\ Email user <> ""%string /\
      ~ live_email (users r) (Email user)).
Proof.
  destruct (string_dec (Name user) "") as [Hn|Hn];
    [left; split; [apply Create_invalid|]; auto|].
  destruct (string_dec (Email user) "") as [He|He];
    [left; split; [apply Create_invalid|]; auto|].
  destruct (emailScan (users r) (Email user)) eqn:Hs.
  - apply emailScan_true in Hs. right; left.
    split; [now apply Create_duplicate | auto].
  - apply emailScan_false in Hs. right; right.
    split; [now apply Create_fresh | auto].
Qed.

Lemma FromCreateRequest_Name now req id :
  Name (FromCreateRequest now req id) = pb.CreateUserRequest.Name req.
Proof. reflexivity. Qed.

Lemma FromCreateRequest_Email now req id :
  Email (FromCreateRequest now req id) = pb.CreateUserRequest.Email req.
Proof. reflexivity. Qed.

End store.

Section handlers.
Import models repository spec service.

(** C6.  [Create] with an empty name or an empty email fails with
    [ErrInvalidInput], whatever the emails in the store; with both present
    and the email held by a live user it fails with [ErrEmailExists],
    whatever the name and role; otherwise it succeeds, assigns the
    counter's value as ID, stores the record under it and advances the
    counter.  [CreateUser] reports the three outcomes as
    [InvalidArgument], [AlreadyExists] and the stored record. *)
Theorem Create_validates_then_checks_email_then_stores
    (r : InMemoryUserRepository) :
  (forall user,
     (Name user = ""%string \/ Email user = ""%string ->
      Create r user = (r, user, Some ErrInvalidInput))
     /\ (Name user <> ""%string -> Email user <> ""%string ->
         live_email (users r) (Email user) ->
         Create r user = (r, user, Some ErrEmailExists))
     /\ (Name user <> ""%string -> Email user <> ""%string ->
         ~ live_email (users r) (Email user) ->
         exists r',
           Create r user = (r', set_ID user (nextID r), None) /\
           users r' = <[nextID r := set_ID user (nextID r)]> (users r) /\
           users r' !! nextID r = Some (set_ID user (nextID r)) /\
           nextID r' = wrap32 (nextID r + 1)))
  /\ (forall now req,
        (pb.CreateUserRequest.Name req = ""%string \/
         pb.CreateUserRequest.Email req = ""%string ->
         CreateUser now ctxNil r req =
         (r, inr (mkStatus InvalidArgument "Name and email are required")))
        /\ (valid_request req ->
            live_email (users r) (pb.CreateUserRequest.Email req) ->
            CreateUser now ctxNil r req =
            (r, inr (mkStatus AlreadyExists
                       ("Email " +:+ pb.CreateUserRequest.Email req +:+
                        " already in use"))))
        /\ (valid_request req ->
            ~ live_email (users r) (pb.CreateUserRequest.Email req) ->
            exists r' resp,
              CreateUser now ctxNil r req = (r', inl resp) /\
              pb.UserResponse.Id resp = nextID r /\
              users r' !! nextID r =
                Some (FromCreateRequest now req (nextID r)) /\
              nextID r' = wrap32 (nextID r + 1))).
Proof.
  split.
  - intros user. split; [apply Create_invalid|].
    split; [apply Create_duplicate|].
    intros Hn He Hl. eexists. split; [now apply Create_fresh|].
    simpl. split; [reflexivity|]. split; [apply lookup_insert_eq|reflexivity].
  - intros now req. unfold CreateUser. simpl. split; [|split].
    + intros H. rewrite Create_invalid; [reflexivity | exact H].
    + intros [Hn He] Hl. rewrite Create_duplicate; auto.
    + intros [Hn He] Hl. rewrite Create_fresh; auto.
      eexists _, _. split; [reflexivity|]. simpl.
      split; [reflexivity|]. split; [apply lookup_insert_eq|reflexivity].
Qed.

Lemma Create_validates_then_checks_email_then_stores_witness :
  (Create (NewInMemoryUserRepository 0)
          (mkUser 0 "" "john@example.com" "user" 5 5)
     = (NewInMemoryUserRepository 0,
        mkUser 0 "" "john@example.com" "user" 5 5, Some ErrInvalidInput)
   /\ Create (NewInMemoryUserRepository 0)
             (mkUser 0 "Test" "john@example.com" "user" 5 5)
      = (NewInMemoryUserRepository 0,
         mkUser 0 "Test" "john@example.com" "user" 5 5, Some ErrEmailExists)
   /\ (exists r',
         Create (NewInMemoryUserRepository 0)
                (mkUser 0 "Test" "test@example.com" "user" 5 5)
         = (r', set_ID (mkUser 0 "Test" "test@example.com" "user" 5 5) 4,
            None) /\
         users r' =
           <[4 := set_ID (mkUser 0 "Test" "test@example.com" "user" 5 5) 4]>
             (users (NewInMemoryUserRepository 0)) /\
         users r' !! 4 =
           Some (set_ID (mkUser 0 "Test" "test@example.com" "user" 5 5) 4) /\
         nextID r' = wrap32 (4 + 1)))
  /\ (CreateUser 5 ctxNil (NewInMemoryUserRepository 0)
                 (pb.CreateUserRequest.mk "Test" "" "")
      = (NewInMemoryUserRepository 0,
         inr (mkStatus InvalidArgument "Name and email are required"))
      /\ CreateUser 5 ctxNil (NewInMemoryUserRepository 0)
                    (pb.CreateUserRequest.mk "Test" "john@example.com" "")
         = (NewInMemoryUserRepository 0,
            inr (mkStatus AlreadyExists
                   ("Email " +:+ "john@example.com" +:+ " already in use")))
      /\ (exists r' resp,
            CreateUser 5 ctxNil (NewInMemoryUserRepository 0)
                       (pb.CreateUserRequest.mk "Test" "test@example.com" "")
            = (r', inl resp) /\
            pb.UserResponse.Id resp = 4 /\
            users r' !! 4 =
              Some (FromCreateRequest 5
                      (pb.CreateUserRequest.mk "Test" "test@example.com" "")
                      4) /\
            nextID r' = wrap32 (4 + 1))).
Proof.
  destruct (Create_validates_then_checks_email_then_stores
              (NewInMemoryUserRepository 0)) as [H H'].
  assert (live_email (users (NewInMemoryUserRepository 0))
                     "john@example.com") as Hjohn
    by (exists 1, (mkUser 1 "John Doe" "john@example.com" "admin" 0 0);
        split; reflexivity).
  assert (~ live_email (users (NewInMemoryUserRepository 0))
                       "test@example.com") as Htest
    by (apply emailScan_false; vm_compute; reflexivity).
  split; [split; [|split] | split; [|split]].
  - apply (proj1 (H _)). left. reflexivity.
  - apply (proj1 (proj2 (H _))); [discriminate | discriminate | exact Hjohn].
  - apply (proj2 (proj2 (H (mkUser 0 "Test" "test@example.com" "user" 5 5))));
      [discriminate | discriminate | exact Htest].
  - apply (proj1 (H' 5 (pb.CreateUserRequest.mk "Test" "" ""))).
    right. reflexivity.
  - apply (proj1 (proj2 (H' 5 (pb.CreateUserRequest.mk "Test"
                                 "john@example.com" "")))).
    + split; discriminate.
    + exact Hjohn.
  - apply (proj2 (proj2 (H' 5 (pb.CreateUserRequest.mk "Test"
                                 "test@example.com" "")))).
    + split; discriminate.
    + exact Htest.
Defined.

(** C7.  For an ID with no live record, [Update] of the store and the
    [UpdateUser] handler both fail with not-found and leave the records
    and the ID counter as they were; the handler leaves them so whatever
    the state of the call's context. *)
Theorem UpdateUser_missing_id_is_NotFound (now : Z)
    (r : InMemoryUserRepository) (req : pb.UpdateUserRequest.t) :
  users r !! pb.UpdateUserRequest.Id req = None ->
  (forall user,
     ID user = pb.UpdateUserRequest.Id req ->
     repository.Update r user = (r, Some ErrUserNotFound))
  /\ UpdateUser now ctxNil r req =
     (r, inr (mkStatus NotFound
                ("User ID=" +:+ pretty (pb.UpdateUserRequest.Id req) +:+
                 " not found")))
  /\ (forall ctx, exists st, UpdateUser now ctx r req = (r, inr st)).
Proof.
  intros Hnone. split; [|split].
  - intros user E. unfold repository.Update. now rewrite E, Hnone.
  - unfold UpdateUser, GetByID. simpl. now rewrite Hnone.
  - intros ctx. unfold UpdateUser, GetByID. rewrite Hnone.
    destruct ctx; simpl; eauto.
Qed.

Lemma UpdateUser_missing_id_is_NotFound_witness :
  UpdateUser 9 ctxNil (NewInMemoryUserRepository 0)
             (pb.UpdateUserRequest.mk 999 "Ghost" "" "")
  = (NewInMemoryUserRepository 0,
     inr (mkStatus NotFound "User ID=999 not found")).
Proof.
  apply (proj1 (proj2 (UpdateUser_missing_id_is_NotFound 9
           (NewInMemoryUserRepository 0)
           (pb.UpdateUserRequest.mk 999 "Ghost" "" "") eq_refl))).
Defined.



(** The replies to a first stretch of messages whose sends all succeed. *)
Lemma Chat_echo_loop_all_sent
    (answered rest : list (Z * pb.ChatMessage.t * bool)) :
  laws.all_sent answered ->
  Chat_echo_loop (answered ++ rest)
  = map (fun it => echoResponse it.1.1 it.1.2) answered
    ++ Chat_echo_loop rest.
Proof.
  intros Hall. induction Hall as [|[[n m] sent] answered Hs _ IH].
  - reflexivity.
  - simpl in Hs. subst sent. simpl. now rewrite IH.
Qed.

Lemma Chat_echo_loop_sound (inbound : list (Z * pb.ChatMessage.t * bool))
    (i : nat) (reply : pb.ChatMessage.t) :
  Chat_echo_loop inbound !! i = Some reply ->
  exists now msg,
    inbound !! i = Some (now, msg, true)
    /\ laws.all_sent (take i inbound)
    /\ reply = echoResponse now msg.
Proof.
  revert i. induction inbound as [|[[now msg] sent] rest IH]; intros i H.
  - discriminate.
  - simpl in H. destruct sent; [|discriminate].
    destruct i as [|i].
    + injection H as <-. exists now, msg. simpl.
      split; [reflexivity|]. split; [constructor | reflexivity].
    + apply IH in H as (now' & msg' & H1 & H2 & H3).
      exists now', msg'. simpl. split; [exact H1|].
      split; [constructor; [reflexivity | exact H2] | exact H3].
Qed.

(** C3, as the code has it.  Every inbound message the echo loop receives,
    that is, every message before which no send has failed, is answered
    with the reply synthesized from it: the sender of the reply is the
    fixed label "Server", its recipient is the inbound sender, and its body
    is the inbound body after the marker "Echo: ", so it contains the
    inbound body; the reply's sender equals the inbound recipient only when
    that was "Server".  The replies to the messages before it have all been
    sent, in order; if the send of the reply succeeds it is the next reply
    on the stream, and if it fails the loop ends without it.  Conversely
    the loop sends nothing but these replies. *)
Theorem Chat_echo_reply (inbound : list (Z * pb.ChatMessage.t * bool))
    (i : nat) (now : Z) (msg : pb.ChatMessage.t) (sent : bool) :
  inbound !! i = Some (now, msg, sent) ->
  laws.all_sent (take i inbound) ->
  (pb.ChatMessage.From (echoResponse now msg) = "Server"%string
   /\ pb.ChatMessage.To (echoResponse now msg) = pb.ChatMessage.From msg
   /\ pb.ChatMessage.Message (echoResponse now msg)
      = "Echo: " +:+ pb.ChatMessage.Message msg
   /\ is_substring (pb.ChatMessage.Message msg)
                   (pb.ChatMessage.Message (echoResponse now msg))
   /\ pb.ChatMessage.Timestamp (echoResponse now msg) = now
   /\ (pb.ChatMessage.From (echoResponse now msg) = pb.ChatMessage.To msg
       <-> pb.ChatMessage.To msg = "Server"%string))
  /\ take i (Chat_echo_loop inbound)
     = map (fun it => echoResponse it.1.1 it.1.2) (take i inbound)
  /\ (sent = true ->
      Chat_echo_loop inbound !! i = Some (echoResponse now msg))
  /\ (sent = false ->
      Chat_echo_loop inbound
      = map (fun it => echoResponse it.1.1 it.1.2) (take i inbound))
  /\ (forall j reply,
        Chat_echo_loop inbound !! j = Some reply ->
        exists now' msg',
          inbound !! j = Some (now', msg', true)
          /\ laws.all_sent (take j inbound)
          /\ reply = echoResponse now' msg').
Proof.
  intros Hi Hall.
  split.
  { simpl. repeat split; auto.
    exists "Echo: "%string, ""%string. now rewrite append_nil_r. }
  assert (Datatypes.length (take i inbound) = i) as Hlen.
  { apply lookup_lt_Some in Hi. rewrite length_take. lia. }
  assert (inbound = take i inbound ++ (now, msg, sent) :: drop (S i) inbound)
    as Hsplit.
  { rewrite <- (take_drop i inbound) at 1. f_equal.
    now apply drop_S. }
  assert (Chat_echo_loop inbound
          = map (fun it => echoResponse it.1.1 it.1.2) (take i inbound)
            ++ Chat_echo_loop ((now, msg, sent) :: drop (S i) inbound))
    as Hloop.
  { rewrite Hsplit at 1. now apply Chat_echo_loop_all_sent. }
  split; [|split; [|split]].
  - rewrite Hloop. rewrite take_app_length'; [reflexivity|].
    now rewrite length_map.
  - intros ->. rewrite Hloop. rewrite lookup_app_r by (rewrite length_map; lia).
    rewrite length_map, Hlen, Nat.sub_diag. reflexivity.
  - intros ->. rewrite Hloop. simpl. now rewrite app_nil_r.
  - intros j reply. apply Chat_echo_loop_sound.
Qed.

Lemma Chat_echo_reply_witness :
  pb.ChatMessage.From
    (echoResponse 7 (pb.ChatMessage.mk "Client" "Server" "Message 1" 3
                       pb.MESSAGE_TYPE_TEXT)) = "Server"%string
  /\ pb.ChatMessage.To
       (echoResponse 7 (pb.ChatMessage.mk "Client" "Server" "Message 1" 3
                          pb.MESSAGE_TYPE_TEXT)) = "Client"%string
  /\ is_substring "Message 1"
       (pb.ChatMessage.Message
          (echoResponse 7 (pb.ChatMessage.mk "Client" "Server" "Message 1" 3
                             pb.MESSAGE_TYPE_TEXT)))
  /\ Chat_echo_loop
       [(5, pb.ChatMessage.mk "Client" "Server" "Hello" 2
              pb.MESSAGE_TYPE_TEXT, true);
        (7, pb.ChatMessage.mk "Client" "Server" "Message 1" 3
              pb.MESSAGE_TYPE_TEXT, true)] !! 1%nat
     = Some (pb.ChatMessage.mk "Server" "Client" "Echo: Message 1" 7
               pb.MESSAGE_TYPE_TEXT).
Proof.
  destruct (Chat_echo_reply
              [(5, pb.ChatMessage.mk "Client" "Server" "Hello" 2
                     pb.MESSAGE_TYPE_TEXT, true);
               (7, pb.ChatMessage.mk "Client" "Server" "Message 1" 3
                     pb.MESSAGE_TYPE_TEXT, true)]
              1 7
              (pb.ChatMessage.mk "Client" "Server" "Message 1" 3
                 pb.MESSAGE_TYPE_TEXT) true)
    as ((Hfrom & Hto & _ & Hsub & _) & _ & Hsent & _).
  - reflexivity.
  - repeat constructor.
  - split; [exact Hfrom|]. split; [exact Hto|]. split; [exact Hsub|].
    apply Hsent. reflexivity.
Defined.

(** C3 as stated fails: for an inbound message addressed to "Alice" the
    reply is sent by "Server", not by "Alice". *)
Lemma Chat_echo_sender_not_swapped :
  Chat_echo_loop
    [(7, pb.ChatMessage.mk "Client" "Alice" "Message 1" 3
           pb.MESSAGE_TYPE_TEXT, true)]
  = [pb.ChatMessage.mk "Server" "Client" "Echo: Message 1" 7
       pb.MESSAGE_TYPE_TEXT]
  /\ pb.ChatMessage.From
       (echoResponse 7 (pb.ChatMessage.mk "Client" "Alice" "Message 1" 3
                          pb.MESSAGE_TYPE_TEXT))
     <> pb.ChatMessage.To
          (pb.ChatMessage.mk "Client" "Alice" "Message 1" 3
             pb.MESSAGE_TYPE_TEXT).
Proof. split; [reflexivity | discriminate]. Qed.

End handlers.

(** ** The [int32] counter *)

Section int32.
Import spec.

Lemma wrap32_range (z : Z) : int32_range (wrap32 z).
Proof.
  unfold int32_range, wrap32.
  pose proof (Z.mod_pos_bound (z + 2 ^ 31) (2 ^ 32)). lia.
Qed.

Lemma wrap32_id (z : Z) : int32_range z -> wrap32 z = z.
Proof.
  unfold int32_range, wrap32. intros H.
  rewrite Z.mod_small; lia.
Qed.

Lemma wrap32_max : wrap32 (2 ^ 31 - 1 + 1) = - 2 ^ 31.
Proof. reflexivity. Qed.

Lemma wrap32_add_l (a b : Z) : wrap32 (wrap32 a + b) = wrap32 (a + b).
Proof.
  unfold wrap32. f_equal.
  replace ((a + 2 ^ 31) mod 2 ^ 32 - 2 ^ 31 + b + 2 ^ 31)
    with ((a + 2 ^ 31) mod 2 ^ 32 + b) by lia.
  rewrite Zplus_mod_idemp_l. f_equal. lia.
Qed.

Lemma bump32_wrap (n : nat) (z : Z) :
  int32_range z -> bump32 n z = wrap32 (z + Z.of_nat n).
Proof.
  revert z. induction n as [|n IH]; intros z Hz.
  - simpl. rewrite Z.add_0_r. symmetry. now apply wrap32_id.
  - simpl bump32. rewrite IH by apply wrap32_range.
    rewrite wrap32_add_l. f_equal. lia.
Qed.

Lemma bump32_range (n : nat) (z : Z) :
  int32_range z -> int32_range (bump32 n z).
Proof. intros H. rewrite bump32_wrap by exact H. apply wrap32_range. Qed.

Lemma bump32_add (n m : nat) (z : Z) :
  bump32 (n + m) z = bump32 m (bump32 n z).
Proof. revert z. induction n as [|n IH]; intros z; simpl; auto. Qed.

Lemma ids32_length (start : Z) (n : nat) :
  Datatypes.length (ids32 start n) = n.
Proof. revert start. induction n; intros; simpl; auto. Qed.

Lemma ids32_app (start : Z) (n m : nat) :
  ids32 start (n + m) = ids32 start n ++ ids32 (bump32 n start) m.
Proof.
  revert start. induction n as [|n IH]; intros start; simpl; [reflexivity|].
  now rewrite IH.
Qed.

(** While the counter stays below 2^31 the IDs are consecutive
    integers. *)
Lemma ids32_seqZ (start : Z) (n : nat) :
  - 2 ^ 31 <= start -> start + Z.of_nat n <= 2 ^ 31 ->
  ids32 start n = seqZ start (Z.of_nat n).
Proof.
  revert start. induction n as [|n IH]; intros start Hlo Hhi.
  - reflexivity.
  - simpl ids32. rewrite seqZ_cons by lia. f_equal.
    replace (Z.pred (Z.of_nat (S n))) with (Z.of_nat n) by lia.
    destruct n as [|n]; [reflexivity|].
    rewrite wrap32_id by (unfold int32_range; lia).
    apply IH; lia.
Qed.

Lemma seqZ_sorted (n : nat) (start : Z) :
  StronglySorted Z.lt (seqZ start (Z.of_nat n)).
Proof.
  revert start. induction n as [|n IH]; intros start.
  - constructor.
  - rewrite seqZ_cons by lia.
    replace (Z.pred (Z.of_nat (S n))) with (Z.of_nat n) by lia.
    constructor; [apply IH|].
    apply Forall_forall. intros x Hx. apply elem_of_seqZ in Hx. lia.
Qed.

Lemma consecutive_from_seqZ (start : Z) (n : nat) :
  consecutive_from start (seqZ start (Z.of_nat n)).
Proof.
  revert start. induction n as [|n IH]; intros start.
  - exact I.
  - rewrite seqZ_cons by lia.
    replace (Z.pred (Z.of_nat (S n))) with (Z.of_nat n) by lia.
    split; [reflexivity | apply IH].
Qed.

Lemma consecutive32_from_ids32 (start : Z) (n : nat) :
  consecutive32_from start (ids32 start n).
Proof.
  revert start. induction n as [|n IH]; intros start; simpl; auto.
Qed.

(** The counter's values around the wrap: [2^31 - 1] is followed by
    [- 2^31]. *)
Lemma ids32_across_wrap (start : Z) (n : nat) :
  - 2 ^ 31 <= start -> start + Z.of_nat n = 2 ^ 31 - 1 ->
  ids32 start (n + 2) =
  seqZ start (Z.of_nat n) ++ [2 ^ 31 - 1; - 2 ^ 31].
Proof.
  intros Hlo Hn. rewrite ids32_app, ids32_seqZ by lia.
  rewrite bump32_wrap by (unfold int32_range; lia).
  rewrite Hn, wrap32_id by (unfold int32_range; lia).
  reflexivity.
Qed.

Lemma ids32_take (m n : nat) (start : Z) :
  take m (ids32 start n) = ids32 start (Nat.min m n).
Proof.
  revert n start. induction m as [|m IH]; intros [|n] start; simpl;
    try reflexivity.
  now rewrite IH.
Qed.

(** The [i]-th value of the counter. *)
Lemma ids32_fmap (start : Z) (n : nat) :
  int32_range start ->
  ids32 start n = (fun i => wrap32 (start + Z.of_nat i)) <$> seq 0 n.
Proof.
  intros Hs. induction n as [|n IH]; [reflexivity|].
  rewrite seq_S, fmap_app, <- IH, <- Nat.add_1_r, ids32_app.
  simpl. now rewrite bump32_wrap.
Qed.

Lemma ids32_lookup (start : Z) (n i : nat) :
  int32_range start -> (i < n)%nat ->
  ids32 start n !! i = Some (wrap32 (start + Z.of_nat i)).
Proof.
  intros Hs Hi. rewrite ids32_fmap by exact Hs.
  rewrite list_lookup_fmap, lookup_seq_lt by exact Hi. reflexivity.
Qed.

(** Two [int32]s that agree come from integers that are equal or at least
    2^32 apart. *)
Lemma wrap32_inj_within (a b : Z) :
  0 <= a - b < 2 ^ 32 -> wrap32 a = wrap32 b -> a = b.
Proof.
  unfold wrap32. intros Hab H.
  pose proof (Z.div_mod (a + 2 ^ 31) (2 ^ 32)) as Ha.
  pose proof (Z.div_mod (b + 2 ^ 31) (2 ^ 32)) as Hb.
  lia.
Qed.

(** The counter takes 2^32 values before it returns to one it has had. *)
Lemma ids32_NoDup (start : Z) (n : nat) :
  int32_range start -> Z.of_nat n <= 2 ^ 32 -> NoDup (ids32 start n).
Proof.
  intros Hs Hn. rewrite ids32_fmap by exact Hs.
  apply NoDup_fmap_2_strong; [|apply NoDup_seq].
  intros i j Hi Hj Heq. apply elem_of_seq in Hi, Hj.
  destruct (Z.le_gt_cases (Z.of_nat j) (Z.of_nat i)).
  - apply wrap32_inj_within in Heq; lia.
  - symmetry in Heq. apply wrap32_inj_within in Heq; lia.
Qed.

(** From 4 on, the counter is back at a seeded ID only after 2^32 - 3
    steps. *)
Lemma ids32_not_seeded (n : nat) :
  Z.of_nat n <= 2 ^ 32 - 3 ->
  Forall (fun id => id < 1 \/ 3 < id) (ids32 4 n).
Proof.
  intros Hn. rewrite ids32_fmap by (unfold int32_range; lia).
  apply Forall_fmap, Forall_forall. intros i Hi. apply elem_of_seq in Hi.
  simpl. unfold wrap32.
  pose proof (Z.div_mod (4 + Z.of_nat i + 2 ^ 31) (2 ^ 32)) as Hd.
  pose proof (Z.mod_pos_bound (4 + Z.of_nat i + 2 ^ 31) (2 ^ 32)) as Hm.
  lia.
Qed.

End int32.

(** ** Live emails under the store's writes *)

Section live_emails.
Import models repository spec.

Lemma live_email_insert (m : gmap Z User) (k : Z) (u : User) (e : string) :
  live_email (<[k := u]> m) e -> e = Email u \/ live_email m e.
Proof.
  intros (k' & u' & Hk & E). apply lookup_insert_Some in Hk.
  destruct Hk as [[<- <-]|[_ Hk]]; [left; auto | right].
  exists k', u'. auto.
Qed.

Lemma live_email_insert_new (m : gmap Z User) (k : Z) (u : User)
    (e : string) :
  m !! k = None ->
  e = Email u \/ live_email m e -> live_email (<[k := u]> m) e.
Proof.
  intros Hnone [->|(k' & u' & Hk & E)].
  - exists k, u. split; [apply lookup_insert_eq | reflexivity].
  - exists k', u'. split; [|exact E].
    rewrite lookup_insert_ne; [exact Hk | congruence].
Qed.

Lemma live_email_delete (m : gmap Z User) (k : Z) (e : string) :
  live_email (delete k m) e -> live_email m e.
Proof.
  intros (k' & u' & Hk & E). apply lookup_delete_Some in Hk as [_ Hk].
  exists k', u'. auto.
Qed.

Lemma Create_failure_unchanged (r r' : InMemoryUserRepository)
    (user user' : User) (e : error) :
  Create r user = (r', user', Some e) -> r' = r /\ user' = user.
Proof.
  destruct (Create_cases r user) as [[E _]|[[E _]|[E _]]];
    rewrite E; intros [= <- <-]; auto.
Qed.

Lemma Update_nextID (r : InMemoryUserRepository) (user : User) :
  nextID (Update r user).1 = nextID r.
Proof. unfold Update. now destruct (users r !! ID user). Qed.

Lemma Delete_nextID (r : InMemoryUserRepository) (id : Z) :
  nextID (Delete r id).1 = nextID r.
Proof. unfold Delete. now destruct (users r !! id). Qed.

Lemma Delete_live_email (r : InMemoryUserRepository) (id : Z) (e : string) :
  live_email (users (Delete r id).1) e -> live_email (users r) e.
Proof.
  unfold Delete. destruct (users r !! id); simpl; [|auto].
  apply live_email_delete.
Qed.

(** The seed data: three records under their IDs, with distinct emails,
    and a counter above them. *)
Lemma seed_lookup (now k : Z) (u : User) :
  users (NewInMemoryUserRepository now) !! k = Some u ->
  (k = 1 /\ u = mkUser 1 "John Doe" "john@example.com" "admin" now now)
  \/ (k = 2 /\ u = mkUser 2 "Jane Smith" "jane@example.com" "user" now now)
  \/ (k = 3 /\ u = mkUser 3 "Bob Johnson" "bob@example.com" "user" now now).
Proof.
  unfold NewInMemoryUserRepository. simpl.
  rewrite !lookup_insert_Some, lookup_empty.
  intros [[<- <-]|[_ [[<- <-]|[_ [[<- <-]|[_ H]]]]]]; auto. discriminate.
Qed.

Lemma seed_keys_consistent (now : Z) :
  keys_consistent (users (NewInMemoryUserRepository now)).
Proof.
  intros k u H.
  destruct (seed_lookup _ _ _ H) as [[-> ->]|[[-> ->]|[-> ->]]]; reflexivity.
Qed.

Lemma seed_emails_unique (now : Z) :
  emails_unique (users (NewInMemoryUserRepository now)).
Proof.
  intros k1 k2 u1 u2 H1 H2.
  destruct (seed_lookup _ _ _ H1) as [[-> ->]|[[-> ->]|[-> ->]]];
    destruct (seed_lookup _ _ _ H2) as [[-> ->]|[[-> ->]|[-> ->]]];
    simpl; intros E; try reflexivity; discriminate.
Qed.

Lemma seed_counter_fresh (now : Z) :
  counter_fresh (NewInMemoryUserRepository now).
Proof.
  split; [simpl; lia|]. intros k u H.
  destruct (seed_lookup _ _ _ H) as [[-> _]|[[-> _]|[-> _]]]; simpl; lia.
Qed.

Lemma seed_live_email (now : Z) (e : string) :
  live_email (users (NewInMemoryUserRepository now)) e ->
  e = "john@example.com"%string \/ e = "jane@example.com"%string \/
  e = "bob@example.com"%string.
Proof.
  intros (k & u & H & <-).
  destruct (seed_lookup _ _ _ H) as [[-> ->]|[[-> ->]|[-> ->]]]; auto.
Qed.

(** [Create] and [Delete] keep the emails of the live users distinct. *)
Lemma Create_emails_unique (r : InMemoryUserRepository) (user : User) :
  emails_unique (users r) -> emails_unique (users (Create r user).1.1).
Proof.
  intros Hu.
  destruct (Create_cases r user) as [[E _]|[[E _]|[E (_ & _ & Hl)]]];
    rewrite E; simpl; [exact Hu | exact Hu |].
  intros k1 k2 u1 u2 H1 H2 Em.
  apply lookup_insert_Some in H1, H2.
  destruct H1 as [[<- <-]|[N1 H1]], H2 as [[<- <-]|[N2 H2]].
  - reflexivity.
  - exfalso. apply Hl. exists k2, u2. auto.
  - exfalso. apply Hl. exists k1, u1. auto.
  - eapply Hu; eauto.
Qed.

Lemma Delete_emails_unique (r : InMemoryUserRepository) (id : Z) :
  emails_unique (users r) -> emails_unique (users (Delete r id).1).
Proof.
  intros Hu. unfold Delete. destruct (users r !! id); simpl; [|exact Hu].
  intros k1 k2 u1 u2 H1 H2 Em.
  apply lookup_delete_Some in H1 as [_ H1], H2 as [_ H2].
  eapply Hu; eauto.
Qed.

End live_emails.

(** ** Email uniqueness and [UpdateUser] *)

Section email_uniqueness.
Import models repository spec service.

(** C1 fails on the code.  On the seeded store, whose emails are distinct,
    [UpdateUser] with user 1's email for user 2 succeeds and leaves two
    live users with the email "john@example.com": the handler writes the
    new email without the scan that [Create] makes. *)
Theorem UpdateUser_duplicates_email :
  emails_unique (users (NewInMemoryUserRepository 0))
  /\ exists r',
       UpdateUser 5 ctxNil (NewInMemoryUserRepository 0)
         (pb.UpdateUserRequest.mk 2 "" "john@example.com" "")
       = (r', inl (pb.UserResponse.mk 2 "Jane Smith" "john@example.com"
                     "user" 0 5))
       /\ users r' !! 1 =
            Some (mkUser 1 "John Doe" "john@example.com" "admin" 0 0)
       /\ users r' !! 2 =
            Some (mkUser 2 "Jane Smith" "john@example.com" "user" 0 5)
       /\ ~ emails_unique (users r').
Proof.
  split; [apply seed_emails_unique|].
  eexists. split; [reflexivity|].
  split; [reflexivity|]. split; [reflexivity|].
  intros H.
  specialize (H 1 2 (mkUser 1 "John Doe" "john@example.com" "admin" 0 0)
                (mkUser 2 "Jane Smith" "john@example.com" "user" 0 5)
                eq_refl eq_refl eq_refl).
  discriminate.
Qed.

End email_uniqueness.

(** ** Sequences of operations and the IDs they are assigned *)

Section sequences.
Import models repository spec trace.

Lemma run_cons (r : InMemoryUserRepository) (o : op) (ops : list op) :
  run r (o :: ops) =
  ((run (exec r o).1 ops).1, (exec r o).2 ++ (run (exec r o).1 ops).2).
Proof. simpl. destruct (exec r o). now destruct (run _ ops). Qed.

Lemma exec_Create_fresh (r : InMemoryUserRepository) (user : User) :
  Name user <> ""%string -> Email user <> ""%string ->
  ~ live_email (users r) (Email user) ->
  exec r (OpCreate user) =
  (mkRepo (<[nextID r := set_ID user (nextID r)]> (users r))
          (wrap32 (nextID r + 1)),
   [nextID r]).
Proof. intros Hn He Hl. unfold exec. now rewrite Create_fresh. Qed.

(** Whatever the operations, the IDs assigned are the successive values
    of the counter, and the counter has moved once per ID. *)
Lemma run_ids (r : InMemoryUserRepository) (ops : list op) :
  exists n : nat,
    (run r ops).2 = ids32 (nextID r) n /\
    nextID (run r ops).1 = bump32 n (nextID r) /\
    (n <= Datatypes.length (created_emails ops))%nat.
Proof.
  revert r. induction ops as [|o ops IH]; intros r.
  - exists 0%nat. simpl. auto.
  - rewrite run_cons. destruct o as [user|user|id].
    + destruct (Create_cases r user) as [[E _]|[[E _]|[E _]]];
        unfold exec; rewrite E; simpl fst; simpl snd.
      * destruct (IH r) as (n & H1 & H2 & H3). exists n. simpl. auto.
      * destruct (IH r) as (n & H1 & H2 & H3). exists n. simpl. auto.
      * destruct (IH (mkRepo (<[nextID r := set_ID user (nextID r)]>
                                (users r)) (wrap32 (nextID r + 1))))
          as (n & H1 & H2 & H3).
        exists (S n). simpl in *. rewrite H1, H2. split; [|split]; auto. lia.
    + destruct (IH (Update r user).1) as (n & H1 & H2 & H3).
      exists n. unfold exec. simpl fst; simpl snd.
      rewrite H1, H2, Update_nextID. simpl. auto.
    + destruct (IH (Delete r id).1) as (n & H1 & H2 & H3).
      exists n. unfold exec. simpl fst; simpl snd.
      rewrite H1, H2, Delete_nextID. simpl. auto.
Qed.

(** Valid creations whose emails are distinct and not in use all succeed,
    also with deletions in between. *)
Lemma run_fresh (r : InMemoryUserRepository) (ops : list op) :
  Forall create_or_delete ops ->
  NoDup (created_emails ops) ->
  (forall e, e ∈ created_emails ops -> ~ live_email (users r) e) ->
  (run r ops).2 = ids32 (nextID r) (Datatypes.length (created_emails ops))
  /\ nextID (run r ops).1
     = bump32 (Datatypes.length (created_emails ops)) (nextID r)
  /\ (forall e, live_email (users (run r ops).1) e ->
                live_email (users r) e \/ e ∈ created_emails ops).
Proof.
  revert r. induction ops as [|o ops IH]; intros r Hok Hnd Hfresh.
  - simpl. auto.
  - rewrite run_cons. apply Forall_cons in Hok as [Ho Hok].
    destruct o as [user|user|id]; [|destruct Ho|].
    + destruct Ho as [Hn He]. simpl in Hnd, Hfresh.
      apply NoDup_cons in Hnd as [Hnotin Hnd].
      rewrite exec_Create_fresh;
        [|assumption|assumption|apply Hfresh; apply elem_of_cons; auto].
      simpl fst; simpl snd.
      destruct (IH (mkRepo (<[nextID r := set_ID user (nextID r)]>
                              (users r)) (wrap32 (nextID r + 1))) Hok Hnd)
        as (H1 & H2 & H3).
      { intros e Hin Hl. simpl in Hl.
        apply live_email_insert in Hl as [->|Hl].
        - apply Hnotin. exact Hin.
        - apply (Hfresh e); [apply elem_of_cons; auto | exact Hl]. }
      simpl in *. rewrite H1, H2. split; [|split]; auto.
      intros e Hl. apply H3 in Hl as [Hl|Hin].
      * apply live_email_insert in Hl as [->|Hl]; [right|left; exact Hl].
        apply elem_of_cons. auto.
      * right. apply elem_of_cons. auto.
    + simpl in Hnd, Hfresh. unfold exec. simpl fst; simpl snd.
      destruct (IH (Delete r id).1 Hok Hnd) as (H1 & H2 & H3).
      { intros e Hin Hl. apply (Hfresh e Hin).
        now apply Delete_live_email in Hl. }
      rewrite H1, H2, Delete_nextID. simpl. split; [|split]; auto.
      intros e Hl. apply H3 in Hl as [Hl|Hin]; [left|right; exact Hin].
      now apply Delete_live_email in Hl.
Qed.

(** A batch is the sequence of its [Create]s. *)
Lemma process_each_run (r : InMemoryUserRepository)
    (items : list (Z * pb.CreateUserRequest.t)) :
  run r (ops_of_items items) = (process_each r items).1
  /\ (Datatypes.length (process_each r items).1.2 +
      Datatypes.length (process_each r items).2
      = Datatypes.length items)%nat.
Proof.
  revert r. induction items as [|[now req] rest IH]; intros r.
  - simpl. auto.
  - unfold ops_of_items. rewrite map_cons. fold (ops_of_items rest).
    rewrite run_cons. unfold exec. cbn [process_each fst snd].
    destruct (Create r (FromCreateRequest now req 0)) as [[r1 u] [e|]];
      destruct (IH r1) as [H1 H2]; cbn [fst snd]; rewrite H1;
      destruct (process_each r1 rest) as [[r2 ids] errs]; simpl in *;
      split; auto; lia.
Qed.

Lemma created_emails_ops_of_items
    (items : list (Z * pb.CreateUserRequest.t)) :
  created_emails (ops_of_items items) = request_emails items.
Proof.
  induction items as [|[now req] rest IH]; simpl; [reflexivity|].
  now rewrite IH.
Qed.

Lemma request_emails_length (items : list (Z * pb.CreateUserRequest.t)) :
  Datatypes.length (request_emails items) = Datatypes.length items.
Proof. unfold request_emails. apply length_map. Qed.

Lemma ops_of_items_valid (items : list (Z * pb.CreateUserRequest.t)) :
  Forall (fun it => valid_request it.2) items ->
  Forall create_or_delete (ops_of_items items).
Proof.
  induction 1 as [|[now req] rest H _ IH]; [constructor|].
  constructor; [exact H | exact IH].
Qed.

(** Both hypotheses on the store that the properties below use hold of the
    seeded store and of every store reached from it before the counter
    wraps. *)
Lemma exec_keys_consistent (r : InMemoryUserRepository) (o : op) :
  keys_consistent (users r) -> keys_consistent (users (exec r o).1).
Proof.
  intros Hk. destruct o as [user|user|id]; unfold exec.
  - destruct (Create_cases r user) as [[E _]|[[E _]|[E _]]]; rewrite E;
      simpl; [exact Hk | exact Hk |].
    intros k u H. apply lookup_insert_Some in H as [[<- <-]|[_ H]];
      [reflexivity | now apply Hk].
  - unfold Update. destruct (users r !! ID user) as [old|]; simpl;
      [|exact Hk].
    intros k u H. apply lookup_insert_Some in H as [[<- <-]|[_ H]];
      [reflexivity | now apply Hk].
  - unfold Delete. destruct (users r !! id) as [old|]; simpl; [|exact Hk].
    intros k u H. apply lookup_delete_Some in H as [_ H]. now apply Hk.
Qed.

Lemma run_keys_consistent (r : InMemoryUserRepository) (ops : list op) :
  keys_consistent (users r) -> keys_consistent (users (run r ops).1).
Proof.
  revert r. induction ops as [|o ops IH]; intros r Hk; [exact Hk|].
  rewrite run_cons. simpl. apply IH. now apply exec_keys_consistent.
Qed.

Lemma exec_counter_fresh (r : InMemoryUserRepository) (o : op) :
  counter_fresh r ->
  nextID r + Z.of_nat (Datatypes.length (created_emails [o])) < 2 ^ 31 ->
  counter_fresh (exec r o).1.
Proof.
  intros [Hc Hk] Hb. destruct o as [user|user|id]; unfold exec.
  - simpl in Hb.
    destruct (Create_cases r user) as [[E _]|[[E _]|[E _]]]; rewrite E;
      simpl; [split; auto | split; auto |].
    rewrite wrap32_id by (unfold int32_range; lia).
    split; simpl; [lia|].
    intros k u H. apply lookup_insert_Some in H as [[<- <-]|[_ H]]; [lia|].
    apply Hk in H. lia.
  - unfold Update. destruct (users r !! ID user) as [old|] eqn:Hu; simpl;
      [|split; auto].
    split; simpl; [exact Hc|].
    intros k u H. apply lookup_insert_Some in H as [[<- <-]|[_ H]];
      [now apply Hk in Hu | now apply Hk in H].
  - unfold Delete. destruct (users r !! id) as [old|]; simpl;
      [|split; auto].
    split; simpl; [exact Hc|].
    intros k u H. apply lookup_delete_Some in H as [_ H]. now apply Hk in H.
Qed.

Lemma exec_nextID_le (r : InMemoryUserRepository) (o : op) :
  int32_range (nextID r) ->
  nextID r + Z.of_nat (Datatypes.length (created_emails [o])) < 2 ^ 31 ->
  nextID (exec r o).1
    <= nextID r + Z.of_nat (Datatypes.length (created_emails [o])).
Proof.
  intros Hr Hb. destruct o as [user|user|id]; unfold exec.
  - simpl in Hb.
    destruct (Create_cases r user) as [[E _]|[[E _]|[E _]]]; rewrite E;
      simpl; [lia | lia |].
    unfold int32_range in Hr.
    rewrite wrap32_id by (unfold int32_range; lia). lia.
  - cbn [fst]. rewrite Update_nextID. simpl. lia.
  - cbn [fst]. rewrite Delete_nextID. simpl. lia.
Qed.

Lemma created_emails_cons_length (o : op) (ops : list op) :
  Datatypes.length (created_emails (o :: ops))
  = (Datatypes.length (created_emails [o]) +
     Datatypes.length (created_emails ops))%nat.
Proof. destruct o; reflexivity. Qed.

Lemma run_counter_fresh (r : InMemoryUserRepository) (ops : list op) :
  counter_fresh r ->
  nextID r + Z.of_nat (Datatypes.length (created_emails ops)) < 2 ^ 31 ->
  counter_fresh (run r ops).1.
Proof.
  revert r. induction ops as [|o ops IH]; intros r Hc Hb; [exact Hc|].
  rewrite created_emails_cons_length in Hb.
  rewrite run_cons. simpl. apply IH.
  - apply exec_counter_fresh; [exact Hc | lia].
  - assert (int32_range (nextID r)) as Hr
      by (destruct Hc as [Hc _]; unfold int32_range; lia).
    pose proof (exec_nextID_le r o Hr). lia.
Qed.

End sequences.

(** ** Bulk ingest *)

Section bulk.
Import models repository spec service trace.

(** The loop of [CreateUsers] from any intermediate state, on input that
    ends with [io.EOF]. *)
Lemma CreateUsers_loop_process_each (r : InMemoryUserRepository)
    (items : list (Z * pb.CreateUserRequest.t))
    (createdCount : Z) (userIDs : list Z) (errors : list string) :
  CreateUsers_loop r items EOF createdCount userIDs errors =
  ((process_each r items).1.1,
   inl (pb.BulkCreateResponse.mk
          (bump32 (Datatypes.length (process_each r items).1.2)
                  createdCount)
          (userIDs ++ (process_each r items).1.2)
          (errors ++ (process_each r items).2))).
Proof.
  revert r createdCount userIDs errors.
  induction items as [|[now req] rest IH];
    intros r createdCount userIDs errors.
  - simpl. now rewrite !app_nil_r.
  - cbn [CreateUsers_loop process_each].
    destruct (Create r (FromCreateRequest now req 0)) as [[r1 u] [e|]];
      rewrite IH; destruct (process_each r1 rest) as [[r2 ids] errs];
      cbn [fst snd Datatypes.length bump32]; now rewrite <- app_assoc.
Qed.

(** A read error of the stream aborts the call: no response is sent. *)
Lemma CreateUsers_loop_RecvError (r : InMemoryUserRepository)
    (items : list (Z * pb.CreateUserRequest.t)) (err : string)
    (createdCount : Z) (userIDs : list Z) (errors : list string) :
  CreateUsers_loop r items (RecvError err) createdCount userIDs errors =
  ((process_each r items).1.1, inr err).
Proof.
  revert r createdCount userIDs errors.
  induction items as [|[now req] rest IH];
    intros r createdCount userIDs errors.
  - reflexivity.
  - cbn [CreateUsers_loop process_each].
    destruct (Create r (FromCreateRequest now req 0)) as [[r1 u] [e|]];
      rewrite IH; now destruct (process_each r1 rest) as [[r2 ids] errs].
Qed.

Lemma process_each_app (r : InMemoryUserRepository)
    (a b : list (Z * pb.CreateUserRequest.t)) :
  process_each r (a ++ b) =
  ((process_each (process_each r a).1.1 b).1.1,
   (process_each r a).1.2 ++ (process_each (process_each r a).1.1 b).1.2,
   (process_each r a).2 ++ (process_each (process_each r a).1.1 b).2).
Proof.
  revert r. induction a as [|[now req] a IH]; intros r.
  - simpl. now destruct (process_each r b) as [[r2 ids] errs].
  - rewrite <- app_comm_cons. cbn [process_each].
    destruct (Create r (FromCreateRequest now req 0)) as [[r1 u] [e|]];
      rewrite IH; destruct (process_each r1 a) as [[r2 ids] errs];
      reflexivity.
Qed.

(** A batch of valid requests whose emails are distinct and not in use:
    every item is created. *)
Lemma process_each_fresh (r : InMemoryUserRepository)
    (items : list (Z * pb.CreateUserRequest.t)) :
  Forall (fun it => valid_request it.2) items ->
  NoDup (request_emails items) ->
  (forall e, e ∈ request_emails items -> ~ live_email (users r) e) ->
  (process_each r items).1.2 = ids32 (nextID r) (Datatypes.length items)
  /\ (process_each r items).2 = []
  /\ nextID (process_each r items).1.1
     = bump32 (Datatypes.length items) (nextID r)
  /\ (forall e, live_email (users (process_each r items).1.1) e ->
                live_email (users r) e \/ e ∈ request_emails items).
Proof.
  intros Hv Hnd Hf.
  destruct (process_each_run r items) as [Hrun Hlen].
  destruct (run_fresh r (ops_of_items items)) as (H1 & H2 & H3).
  - now apply ops_of_items_valid.
  - now rewrite created_emails_ops_of_items.
  - now rewrite created_emails_ops_of_items.
  - rewrite created_emails_ops_of_items, request_emails_length in *.
    rewrite Hrun in H1, H2, H3. simpl in H1, H2, H3.
    rewrite H1 in Hlen. rewrite ids32_length in Hlen.
    split; [exact H1|]. split; [|split; [exact H2 | exact H3]].
    apply nil_length_inv. lia.
Qed.

End bulk.

(** ** Generated requests *)

Section generated.
Import models repository spec trace.

Lemma fresh_email_head (i : nat) :
  fresh_email i = String "u" ("ser" +:+ pretty i).
Proof. reflexivity. Qed.

Lemma fresh_email_inj (i j : nat) : fresh_email i = fresh_email j -> i = j.
Proof.
  unfold fresh_email. intros H.
  apply String.app_inj in H. now apply pretty_nat_inj in H.
Qed.

Lemma fresh_request_valid (i : nat) : valid_request (fresh_request i).2.
Proof.
  split; simpl; [discriminate|].
  rewrite fresh_email_head. discriminate.
Qed.

Lemma fresh_email_not_seed (now : Z) (i : nat) :
  ~ live_email (users (NewInMemoryUserRepository now)) (fresh_email i).
Proof.
  intros H. apply seed_live_email in H. rewrite fresh_email_head in H.
  destruct H as [H|[H|H]]; discriminate.
Qed.

Lemma churn_created_emails (l : list nat) :
  created_emails (flat_map churn l) = map fresh_email l.
Proof. induction l as [|i l IH]; simpl; [reflexivity | now rewrite IH]. Qed.

Lemma churn_create_or_delete (l : list nat) :
  Forall create_or_delete (flat_map churn l).
Proof.
  induction l as [|i l IH]; simpl; [constructor|].
  constructor; [apply (fresh_request_valid i)|].
  constructor; [exact I | exact IH].
Qed.

End generated.

(** ** Bulk ingest beside other calls *)

Section bulk_beside_other_calls.
Import models repository spec service trace laws.

Lemma run_app (r : InMemoryUserRepository) (a b : list op) :
  run r (a ++ b) =
  ((run (run r a).1 b).1, (run r a).2 ++ (run (run r a).1 b).2).
Proof.
  revert r. induction a as [|o a IH]; intros r.
  - simpl. now destruct (run r b).
  - rewrite <- app_comm_cons, !run_cons, IH. cbn [fst snd].
    now rewrite app_assoc.
Qed.

Lemma merged_cons (others : list op) (it : Z * pb.CreateUserRequest.t)
    (rest : list (list op * (Z * pb.CreateUserRequest.t))) :
  merged ((others, it) :: rest)
  = others ++ OpCreate (FromCreateRequest it.1 it.2 0) :: merged rest.
Proof. unfold merged. simpl. now rewrite <- app_assoc. Qed.

Lemma assigned_app (a b : list (Z + string)) :
  assigned (a ++ b) = assigned a ++ assigned b.
Proof.
  induction a as [|[id|message] a IH]; simpl; [reflexivity| |exact IH].
  now rewrite IH.
Qed.

Lemma refused_app (a b : list (Z + string)) :
  refused (a ++ b) = refused a ++ refused b.
Proof.
  induction a as [|[id|message] a IH]; simpl; [reflexivity|exact IH|].
  now rewrite IH.
Qed.

(** Every outcome is an ID or a message. *)
Lemma outcomes_length (outcomes : list (Z + string)) :
  (Datatypes.length (assigned outcomes) + Datatypes.length (refused outcomes)
   = Datatypes.length outcomes)%nat.
Proof.
  induction outcomes as [|[id|message] rest IH]; simpl; lia.
Qed.

Lemma turns_length (r : InMemoryUserRepository)
    (arrivals : list (list op * (Z * pb.CreateUserRequest.t))) :
  Datatypes.length (turns r arrivals) = Datatypes.length arrivals.
Proof.
  revert r. induction arrivals as [|[others [now req]] rest IH]; intros r;
    simpl; [reflexivity|].
  now rewrite IH.
Qed.

(** The turns are the requests of the batch in arrival order. *)
Lemma turns_requests (r : InMemoryUserRepository)
    (arrivals : list (list op * (Z * pb.CreateUserRequest.t))) :
  map snd (turns r arrivals) = map snd arrivals.
Proof.
  revert r. induction arrivals as [|[others [now req]] rest IH]; intros r;
    simpl; [reflexivity|].
  now rewrite IH.
Qed.

Lemma turn_outcome_eq (r : InMemoryUserRepository) (now : Z)
    (req : pb.CreateUserRequest.t) :
  turn_outcome (r, (now, req))
  = match Create r (FromCreateRequest now req 0) with
    | (_, user, None) => inl (ID user)
    | (_, _, Some err) =>
        inr ("Email " +:+ pb.CreateUserRequest.Email req +:+ ": " +:+
             Error err)
    end.
Proof. reflexivity. Qed.

(** The loop of [CreateUsers] from any intermediate state, on input that
    ends with [io.EOF]: the summary lists the outcome of every turn. *)
Lemma concurrent_CreateUsers_loop_outcomes (r : InMemoryUserRepository)
    (arrivals : list (list op * (Z * pb.CreateUserRequest.t)))
    (send : option string)
    (createdCount : Z) (userIDs : list Z) (errors : list string) :
  (concurrent.CreateUsers_loop r arrivals EOF send
     createdCount userIDs errors).2
  = match send with
    | None =>
        inl (pb.BulkCreateResponse.mk
               (bump32
                  (Datatypes.length
                     (assigned (map turn_outcome (turns r arrivals))))
                  createdCount)
               (userIDs ++ assigned (map turn_outcome (turns r arrivals)))
               (errors ++ refused (map turn_outcome (turns r arrivals))))
    | Some err => inr err
    end.
Proof.
  revert r createdCount userIDs errors.
  induction arrivals as [|[others [now req]] rest IH];
    intros r createdCount userIDs errors.
  - simpl. destruct send; [reflexivity|]. now rewrite !app_nil_r.
  - cbn [concurrent.CreateUsers_loop turns map]. rewrite turn_outcome_eq.
    destruct (Create (run r others).1 (FromCreateRequest now req 0))
      as [[r1 u] [e|]]; rewrite IH; destruct send;
      cbn [fst snd assigned refused Datatypes.length bump32];
      try reflexivity; now rewrite <- !app_assoc.
Qed.

(** The store after the batch is the store after all the writes served
    while it was, whatever the end of the input and of the call. *)
Lemma concurrent_CreateUsers_loop_store (r : InMemoryUserRepository)
    (arrivals : list (list op * (Z * pb.CreateUserRequest.t)))
    (fin : recvEnd) (send : option string)
    (createdCount : Z) (userIDs : list Z) (errors : list string) :
  (concurrent.CreateUsers_loop r arrivals fin send
     createdCount userIDs errors).1
  = (run r (merged arrivals)).1.
Proof.
  revert r createdCount userIDs errors.
  induction arrivals as [|[others [now req]] rest IH];
    intros r createdCount userIDs errors.
  - simpl. destruct fin; [destruct send|]; reflexivity.
  - rewrite merged_cons, run_app, run_cons.
    cbn [fst snd concurrent.CreateUsers_loop]. unfold exec.
    destruct (Create (run r others).1 (FromCreateRequest now req 0))
      as [[r1 u] [e|]]; rewrite IH; reflexivity.
Qed.

(** A read error of the stream aborts the call: no summary is sent. *)
Lemma concurrent_CreateUsers_loop_RecvError (r : InMemoryUserRepository)
    (arrivals : list (list op * (Z * pb.CreateUserRequest.t)))
    (err : string) (send : option string)
    (createdCount : Z) (userIDs : list Z) (errors : list string) :
  (concurrent.CreateUsers_loop r arrivals (RecvError err) send
     createdCount userIDs errors).2 = inr err.
Proof.
  revert r createdCount userIDs errors.
  induction arrivals as [|[others [now req]] rest IH];
    intros r createdCount userIDs errors.
  - reflexivity.
  - cbn [concurrent.CreateUsers_loop].
    destruct (Create (run r others).1 (FromCreateRequest now req 0))
      as [[r1 u] [e|]]; apply IH.
Qed.

(** With no write of another call in between and a summary that is sent,
    the handler is the loop over one store. *)
Lemma concurrent_CreateUsers_loop_alone (r : InMemoryUserRepository)
    (items : list (Z * pb.CreateUserRequest.t)) (fin : recvEnd)
    (createdCount : Z) (userIDs : list Z) (errors : list string) :
  concurrent.CreateUsers_loop r (alone items) fin None
    createdCount userIDs errors
  = CreateUsers_loop r items fin createdCount userIDs errors.
Proof.
  revert r createdCount userIDs errors.
  induction items as [|[now req] rest IH];
    intros r createdCount userIDs errors.
  - reflexivity.
  - cbn [alone map concurrent.CreateUsers_loop CreateUsers_loop run fst snd].
    fold (alone rest).
    destruct (Create r (FromCreateRequest now req 0)) as [[r1 u] [e|]];
      apply IH.
Qed.

Lemma merged_alone (items : list (Z * pb.CreateUserRequest.t)) :
  merged (alone items) = ops_of_items items.
Proof.
  induction items as [|[now req] rest IH]; [reflexivity|].
  unfold alone. rewrite map_cons. fold (alone rest).
  rewrite merged_cons, IH. reflexivity.
Qed.

Lemma turn_outcome_fresh
    (t : InMemoryUserRepository * (Z * pb.CreateUserRequest.t)) :
  fresh_turn t -> turn_outcome t = inl (nextID t.1).
Proof.
  intros [[Hn He] Hl]. unfold turn_outcome.
  rewrite Create_fresh; [reflexivity | exact Hn | exact He | exact Hl].
Qed.

Lemma turn_outcome_live
    (t : InMemoryUserRepository * (Z * pb.CreateUserRequest.t)) :
  live_email (users t.1) (pb.CreateUserRequest.Email t.2.2) ->
  exists reason,
    turn_outcome t
    = inr ("Email " +:+ pb.CreateUserRequest.Email t.2.2 +:+ ": " +:+ reason)
    /\ (valid_request t.2.2 -> reason = "email already exists"%string).
Proof.
  intros Hl. unfold turn_outcome.
  destruct (Create_cases t.1 (FromCreateRequest t.2.1 t.2.2 0))
    as [[E H]|[[E H]|[E (_ & _ & H)]]]; rewrite E.
  - exists "invalid input"%string. split; [reflexivity|].
    intros [Hn He]. destruct H; contradiction.
  - exists "email already exists"%string. split; reflexivity.
  - contradiction.
Qed.

(** Requests that are valid and meet a store without their email are all
    assigned the counter's value at their turn. *)
Lemma outcomes_fresh
    (ts : list (InMemoryUserRepository * (Z * pb.CreateUserRequest.t))) :
  Forall fresh_turn ts ->
  map turn_outcome ts = map (fun t => inl (nextID t.1)) ts.
Proof.
  induction 1 as [|t ts Ht _ IH]; [reflexivity|].
  simpl. now rewrite IH, turn_outcome_fresh.
Qed.

Lemma assigned_inl {A} (f : A -> Z) (l : list A) :
  assigned (map (fun x => inl (f x)) l) = map f l
  /\ refused (map (fun x => inl (f x)) l) = [].
Proof.
  induction l as [|x l [IH1 IH2]]; [split; reflexivity|].
  simpl. now rewrite IH1, IH2.
Qed.

(** The IDs tagged as the batch's are the IDs of its successful turns, and
    all the IDs are those the writes were assigned in order. *)
Lemma own_app (a b : list (bool * Z)) : own (a ++ b) = own a ++ own b.
Proof.
  induction a as [|[[|] id] a IH]; simpl; [reflexivity| |exact IH].
  now rewrite IH.
Qed.

Lemma own_others (l : list (bool * Z)) :
  Forall (fun a => a.1 = false) l -> own l = [].
Proof.
  induction 1 as [|[tag id] l Ht _ IH]; [reflexivity|].
  simpl in Ht. subst tag. exact IH.
Qed.

Lemma own_batch (l : list (bool * Z)) :
  Forall (fun a => a.1 = true) l -> own l = map snd l.
Proof.
  induction 1 as [|[tag id] l Ht _ IH]; [reflexivity|].
  simpl in Ht. subst tag. simpl. now rewrite IH.
Qed.

Lemma own_assignments (r : InMemoryUserRepository)
    (arrivals : list (list op * (Z * pb.CreateUserRequest.t))) :
  own (assignments r arrivals)
  = assigned (map turn_outcome (turns r arrivals)).
Proof.
  revert r. induction arrivals as [|[others [now req]] rest IH]; intros r.
  - reflexivity.
  - cbn [assignments turns map]. rewrite turn_outcome_eq.
    destruct (run r others) as [r1 ids] eqn:Hrun. cbn [fst].
    assert (own (map (pair false) ids) = []) as Hnone
      by (apply own_others, Forall_forall; intros a Ha;
          apply list_elem_of_fmap in Ha as (id & -> & _); reflexivity).
    destruct (Create r1 (FromCreateRequest now req 0)) as [[r2 u] [e|]];
      rewrite own_app, Hnone; cbn [fst snd own assigned app];
      now rewrite IH.
Qed.

Lemma assignments_run (r : InMemoryUserRepository)
    (arrivals : list (list op * (Z * pb.CreateUserRequest.t))) :
  map snd (assignments r arrivals) = (run r (merged arrivals)).2.
Proof.
  revert r. induction arrivals as [|[others [now req]] rest IH]; intros r.
  - reflexivity.
  - rewrite merged_cons, run_app, run_cons. cbn [assignments fst snd].
    unfold exec. destruct (run r others) as [r1 ids]. cbn [fst snd].
    assert (map snd (map (pair false) ids) = ids) as Hids
      by (rewrite List.map_map; apply List.map_id).
    destruct (Create r1 (FromCreateRequest now req 0)) as [[r2 u] [e|]];
      rewrite map_app, Hids; cbn [fst snd map app]; now rewrite IH.
Qed.

(** All the IDs assigned while a batch is served are successive values of
    the counter. *)
Lemma assignments_ids (r : InMemoryUserRepository)
    (arrivals : list (list op * (Z * pb.CreateUserRequest.t))) :
  map snd (assignments r arrivals)
  = ids32 (nextID r) (Datatypes.length (assignments r arrivals)).
Proof.
  destruct (run_ids r (merged arrivals)) as (n & Hids & _ & _).
  rewrite <- assignments_run in Hids.
  assert (Datatypes.length (assignments r arrivals) = n) as ->.
  { rewrite <- (length_map snd), Hids. apply ids32_length. }
  exact Hids.
Qed.

(** A batch alone, in terms of [process_each]. *)
Lemma outcomes_alone (r : InMemoryUserRepository)
    (items : list (Z * pb.CreateUserRequest.t)) :
  assigned (map turn_outcome (turns r (alone items)))
  = (process_each r items).1.2
  /\ refused (map turn_outcome (turns r (alone items)))
     = (process_each r items).2.
Proof.
  revert r. induction items as [|[now req] rest IH]; intros r.
  - split; reflexivity.
  - cbn [alone map turns run fst snd process_each]. fold (alone rest).
    rewrite turn_outcome_eq.
    destruct (Create r (FromCreateRequest now req 0)) as [[r1 u] [e|]];
      cbn [fst snd assigned refused]; destruct (IH r1) as [IH1 IH2];
      rewrite IH1, IH2; destruct (process_each r1 rest) as [[r2 ids] errs];
      split; reflexivity.
Qed.

(** As long as the IDs handed out are distinct and not in use, nothing is
    overwritten: the emails in use and the emails of the batch are all in
    use afterwards. *)
Lemma process_each_overwrites_nothing (r : InMemoryUserRepository)
    (items : list (Z * pb.CreateUserRequest.t)) :
  Forall (fun it => valid_request it.2) items ->
  NoDup (request_emails items) ->
  (forall e, e ∈ request_emails items -> ~ live_email (users r) e) ->
  NoDup (ids32 (nextID r) (Datatypes.length items)) ->
  Forall (fun id => users r !! id = None)
         (ids32 (nextID r) (Datatypes.length items)) ->
  forall e, live_email (users r) e \/ e ∈ request_emails items ->
            live_email (users (process_each r items).1.1) e.
Proof.
  revert r. induction items as [|[now req] rest IH];
    intros r Hv Hnd Hf Hids Hun e He.
  - simpl. destruct He as [He|He]; [exact He | inversion He].
  - apply Forall_cons in Hv as [[Hn Hem] Hv]. simpl in Hn, Hem.
    simpl in Hnd, Hf, He. apply NoDup_cons in Hnd as [Hnotin Hnd].
    cbn [Datatypes.length ids32] in Hids, Hun.
    apply NoDup_cons in Hids as [Hfirst Hids].
    apply Forall_cons in Hun as [Hfree Hun].
    cbn [process_each]. rewrite Create_fresh;
      [| exact Hn | exact Hem | apply Hf; apply elem_of_cons; auto].
    set (r1 := mkRepo _ _).
    assert (process_each r1 rest
            = ((process_each r1 rest).1.1, (process_each r1 rest).1.2,
               (process_each r1 rest).2)) as ->
      by now destruct (process_each r1 rest) as [[? ?] ?].
    cbn [fst snd]. apply IH; [exact Hv | exact Hnd | | exact Hids | |].
    + intros e' Hin Hl. unfold r1 in Hl. simpl in Hl.
      apply live_email_insert in Hl as [->|Hl].
      * apply Hnotin. exact Hin.
      * apply (Hf e'); [apply elem_of_cons; auto | exact Hl].
    + apply Forall_forall. intros k Hk. unfold r1. cbn [users].
      rewrite lookup_insert_ne by (intros <-; exact (Hfirst Hk)).
      rewrite Forall_forall in Hun. now apply Hun.
    + unfold r1. cbn [users].
      destruct He as [He|He].
      * left. apply live_email_insert_new; auto.
      * apply elem_of_cons in He as [->|He]; [left | right; exact He].
        apply live_email_insert_new; auto.
Qed.

(** Creating a generated user and deleting it again leaves the records of
    the seeded store as they were and moves the counter by one. *)
Lemma churn_ops_S (n : nat) : churn_ops (S n) = churn_ops n ++ churn n.
Proof.
  unfold churn_ops. rewrite seq_S, flat_map_app. reflexivity.
Qed.

Lemma churn_ops_store (now : Z) (n : nat) :
  4 + Z.of_nat n < 2 ^ 31 ->
  (run (NewInMemoryUserRepository now) (churn_ops n)).1
  = mkRepo (users (NewInMemoryUserRepository now)) (4 + Z.of_nat n).
Proof.
  induction n as [|n IH]; intros Hn; [reflexivity|].
  rewrite churn_ops_S, run_app, IH by lia. cbn [fst]. unfold churn.
  rewrite run_cons, exec_Create_fresh;
    [| discriminate
     | cbn [fresh_request snd FromCreateRequest Email
            pb.CreateUserRequest.Email];
       rewrite fresh_email_head; discriminate
     | apply fresh_email_not_seed].
  cbn [fst snd nextID users]. rewrite run_cons. cbn [run fst snd].
  unfold exec, Delete. cbn [users nextID].
  rewrite !wrap32_id by (unfold int32_range; lia).
  rewrite lookup_insert_eq. cbn [fst].
  rewrite delete_insert_id.
  - f_equal. lia.
  - destruct (users (NewInMemoryUserRepository now) !! (4 + Z.of_nat n))
      as [u|] eqn:Hu; [|reflexivity].
    apply (proj2 (seed_counter_fresh now)) in Hu. simpl in Hu. lia.
Qed.

End bulk_beside_other_calls.

(** ** Bulk ingest: the claims *)

Section bulk_claims.
Import models repository spec service trace laws.

(** What the handler returns on input that ends with [io.EOF]: the error
    of [stream.SendAndClose], or, the summary sent, the outcome of every
    turn. *)
Lemma concurrent_CreateUsers_EOF (r : InMemoryUserRepository)
    (arrivals : list (list op * (Z * pb.CreateUserRequest.t)))
    (send : option string) :
  (concurrent.CreateUsers r arrivals EOF send).2
  = match send with
    | None =>
        inl (pb.BulkCreateResponse.mk
               (wrap32
                  (Z.of_nat
                     (Datatypes.length
                        (assigned (map turn_outcome (turns r arrivals))))))
               (assigned (map turn_outcome (turns r arrivals)))
               (refused (map turn_outcome (turns r arrivals))))
    | Some err => inr err
    end.
Proof.
  unfold concurrent.CreateUsers.
  rewrite concurrent_CreateUsers_loop_outcomes.
  rewrite bump32_wrap by (unfold int32_range; lia). reflexivity.
Qed.

Lemma bump32_lower (n : nat) (z : Z) :
  - 2 ^ 31 <= z -> - 2 ^ 31 <= bump32 n z.
Proof.
  destruct n as [|n]; intros Hz; [exact Hz|].
  simpl bump32.
  pose proof (bump32_range n (wrap32 (z + 1)) (wrap32_range _)) as H.
  unfold int32_range in H. lia.
Qed.

(** C10, as the code has it.  A failing [Create] leaves the records, the
    counter and the caller's record as they were, so a failed item of a
    batch takes no ID.  The IDs assigned while a batch is served, to the
    batch and to other calls, are the successive values of the [int32]
    counter, and the IDs in the summary are those among them that went to
    the batch, however many items failed in between.  They are successive
    values of the counter whenever no ID went to another call between two
    of them, and then they are consecutive integers as long as the counter
    does not pass 2^31 - 1 on the way. *)
Theorem failed_Create_changes_nothing_bulk_ids_follow_counter :
  (forall r user,
     (Create r user).2 <> None ->
     (Create r user).1.1 = r /\ (Create r user).1.2 = user)
  /\ (forall r arrivals,
        exists resp,
          (concurrent.CreateUsers r arrivals EOF None).2 = inl resp
          /\ pb.BulkCreateResponse.UserIds resp = own (assignments r arrivals)
          /\ map snd (assignments r arrivals)
             = ids32 (nextID r) (Datatypes.length (assignments r arrivals))
          /\ (Datatypes.length (pb.BulkCreateResponse.UserIds resp) +
              Datatypes.length (pb.BulkCreateResponse.Errors resp)
              = Datatypes.length arrivals)%nat
          /\ (forall before batch after,
                assignments r arrivals = before ++ batch ++ after ->
                Forall (fun a => a.1 = false) (before ++ after) ->
                Forall (fun a => a.1 = true) batch ->
                pb.BulkCreateResponse.UserIds resp
                = ids32 (bump32 (Datatypes.length before) (nextID r))
                        (Datatypes.length batch)
                /\ consecutive32_from
                     (bump32 (Datatypes.length before) (nextID r))
                     (pb.BulkCreateResponse.UserIds resp)
                /\ (- 2 ^ 31 <= nextID r ->
                    bump32 (Datatypes.length before) (nextID r) +
                    Z.of_nat (Datatypes.length batch) <= 2 ^ 31 ->
                    consecutive_from
                      (bump32 (Datatypes.length before) (nextID r))
                      (pb.BulkCreateResponse.UserIds resp)))).
Proof.
  split.
  - intros r user H.
    destruct (Create_cases r user) as [[E _]|[[E _]|[E _]]];
      rewrite E in *; simpl in *; auto. congruence.
  - intros r arrivals. eexists.
    split; [apply (concurrent_CreateUsers_EOF r arrivals None)|].
    cbn [pb.BulkCreateResponse.UserIds pb.BulkCreateResponse.Errors].
    split; [symmetry; apply own_assignments|].
    split; [apply assignments_ids|].
    split; [now rewrite outcomes_length, length_map, turns_length|].
    intros before batch after Hsplit Hothers Hbatch.
    apply Forall_app in Hothers as [Hbefore Hafter].
    assert (assigned (map turn_outcome (turns r arrivals))
            = ids32 (bump32 (Datatypes.length before) (nextID r))
                    (Datatypes.length batch)) as Hids.
    { rewrite <- own_assignments, Hsplit, !own_app.
      rewrite (own_others before Hbefore), (own_others after Hafter).
      rewrite (own_batch batch Hbatch), app_nil_r. cbn [app].
      pose proof (assignments_ids r arrivals) as Hall.
      rewrite Hsplit, !map_app, !length_app, !ids32_app in Hall.
      apply app_inj_1 in Hall as [_ Hall];
        [|now rewrite length_map, ids32_length].
      apply app_inj_1 in Hall as [Hall _];
        [|now rewrite length_map, ids32_length].
      exact Hall. }
    rewrite Hids. split; [reflexivity|].
    split; [apply consecutive32_from_ids32|].
    intros Hlo Hhi.
    rewrite ids32_seqZ; [apply consecutive_from_seqZ | | exact Hhi].
    now apply bump32_lower.
Qed.

Lemma failed_Create_changes_nothing_bulk_ids_follow_counter_witness :
  (Create (NewInMemoryUserRepository 0)
          (mkUser 0 "Test" "john@example.com" "user" 1 1)).1.1
  = NewInMemoryUserRepository 0
  /\ exists resp,
       (concurrent.CreateUsers (NewInMemoryUserRepository 0)
          [([OpCreate (mkUser 0 "Zed" "zed@example.com" "user" 1 1)],
            (1, pb.CreateUserRequest.mk "Alice" "alice@example.com" ""));
           ([], (2, pb.CreateUserRequest.mk "Bob" "bob@example.com" ""));
           ([], (3, pb.CreateUserRequest.mk "" "nobody@example.com" ""));
           ([OpDelete 1],
            (4, pb.CreateUserRequest.mk "Charlie" "charlie@example.com" ""));
           ([OpCreate (mkUser 0 "Yan" "yan@example.com" "user" 5 5)],
            (5, pb.CreateUserRequest.mk "Al" "alice@example.com" ""))]
          EOF None).2 = inl resp
       /\ pb.BulkCreateResponse.UserIds resp = [5; 6]
       /\ consecutive_from 5 (pb.BulkCreateResponse.UserIds resp).
Proof.
  destruct failed_Create_changes_nothing_bulk_ids_follow_counter
    as [Hfail Hbulk].
  split.
  - apply Hfail. vm_compute. discriminate.
  - destruct (Hbulk (NewInMemoryUserRepository 0)
          [([OpCreate (mkUser 0 "Zed" "zed@example.com" "user" 1 1)],
            (1, pb.CreateUserRequest.mk "Alice" "alice@example.com" ""));
           ([], (2, pb.CreateUserRequest.mk "Bob" "bob@example.com" ""));
           ([], (3, pb.CreateUserRequest.mk "" "nobody@example.com" ""));
           ([OpDelete 1],
            (4, pb.CreateUserRequest.mk "Charlie" "charlie@example.com" ""));
           ([OpCreate (mkUser 0 "Yan" "yan@example.com" "user" 5 5)],
            (5, pb.CreateUserRequest.mk "Al" "alice@example.com" ""))])
      as (resp & Hrun & _ & _ & _ & Hcons).
    destruct (Hcons [(false, 4)] [(true, 5); (true, 6)] [(false, 7)])
      as (Hids & _ & Hint).
    + reflexivity.
    + repeat constructor.
    + repeat constructor.
    + exists resp. split; [exact Hrun|]. split; [exact Hids|].
      apply Hint; vm_compute; discriminate.
Defined.

(** C9, as the code has it.  On input that ends with [io.EOF] the handler
    passes every item through [Create] in arrival order, whatever became
    of the items before it, and its summary lists the ID of every success
    and the message of every failure, every item accounted for; the count
    is the number of IDs as an [int32].  If exactly one item of a batch of
    [N] finds its email held by a live user when its turn comes, and every
    other item is valid and finds its email unused when its turn comes,
    the summary has the [N - 1] IDs in processing order, each the value of
    the counter at its item's turn, the count [N - 1] as an [int32], which
    is [N - 1] itself when [N - 1 < 2^31], and the one message, naming the
    email.  This is so for a batch served with no write of another call in
    between whose items are valid with distinct unused emails but for one
    whose email is in use or repeats an earlier item's, as long as the IDs
    handed out before that item are distinct and not in use: then the IDs
    are the [N - 1] successive values of the counter. *)
Theorem CreateUsers_processes_every_item :
  (forall r arrivals send,
     map snd (turns r arrivals) = map snd arrivals
     /\ (Datatypes.length (assigned (map turn_outcome (turns r arrivals))) +
         Datatypes.length (refused (map turn_outcome (turns r arrivals)))
         = Datatypes.length arrivals)%nat
     /\ (concurrent.CreateUsers r arrivals EOF send).2
        = match send with
          | None =>
              inl (pb.BulkCreateResponse.mk
                     (wrap32
                        (Z.of_nat
                           (Datatypes.length
                              (assigned
                                 (map turn_outcome (turns r arrivals))))))
                     (assigned (map turn_outcome (turns r arrivals)))
                     (refused (map turn_outcome (turns r arrivals))))
          | Some err => inr err
          end)
  /\ (forall r arrivals pre d post,
        turns r arrivals = pre ++ d :: post ->
        Forall fresh_turn (pre ++ post) ->
        live_email (users d.1) (pb.CreateUserRequest.Email d.2.2) ->
        exists resp reason,
          (concurrent.CreateUsers r arrivals EOF None).2 = inl resp
          /\ Z.of_nat (Datatypes.length (pb.BulkCreateResponse.UserIds resp))
             = Z.of_nat (Datatypes.length arrivals) - 1
          /\ pb.BulkCreateResponse.UserIds resp
             = map (fun t => nextID t.1) (pre ++ post)
          /\ pb.BulkCreateResponse.CreatedCount resp
             = wrap32 (Z.of_nat (Datatypes.length arrivals) - 1)
          /\ (Z.of_nat (Datatypes.length arrivals) - 1 < 2 ^ 31 ->
              pb.BulkCreateResponse.CreatedCount resp
              = Z.of_nat (Datatypes.length arrivals) - 1)
          /\ pb.BulkCreateResponse.Errors resp
             = ["Email " +:+ pb.CreateUserRequest.Email d.2.2 +:+ ": " +:+
                reason]
          /\ (valid_request d.2.2 ->
              reason = "email already exists"%string))
  /\ (forall r pre dup post,
        Forall (fun it => valid_request it.2) (pre ++ post) ->
        NoDup (request_emails (pre ++ post)) ->
        (forall e, e ∈ request_emails (pre ++ post) ->
                   ~ live_email (users r) e) ->
        (live_email (users r) (pb.CreateUserRequest.Email dup.2) \/
         pb.CreateUserRequest.Email dup.2 ∈ request_emails pre) ->
        NoDup (ids32 (nextID r) (Datatypes.length pre)) ->
        Forall (fun id => users r !! id = None)
               (ids32 (nextID r) (Datatypes.length pre)) ->
        exists resp reason,
          (concurrent.CreateUsers r (alone (pre ++ dup :: post)) EOF None).2
          = inl resp
          /\ pb.BulkCreateResponse.UserIds resp
             = ids32 (nextID r) (Datatypes.length (pre ++ post))
          /\ pb.BulkCreateResponse.CreatedCount resp
             = wrap32 (Z.of_nat (Datatypes.length (pre ++ dup :: post)) - 1)
          /\ (Z.of_nat (Datatypes.length (pre ++ dup :: post)) - 1 < 2 ^ 31 ->
              pb.BulkCreateResponse.CreatedCount resp
              = Z.of_nat (Datatypes.length (pre ++ dup :: post)) - 1)
          /\ pb.BulkCreateResponse.Errors resp
             = ["Email " +:+ pb.CreateUserRequest.Email dup.2 +:+ ": " +:+
                reason]
          /\ (valid_request dup.2 ->
              reason = "email already exists"%string)).
Proof.
  split; [|split].
  - intros r arrivals send. split; [apply turns_requests|].
    split; [now rewrite outcomes_length, length_map, turns_length|].
    apply concurrent_CreateUsers_EOF.
  - intros r arrivals pre d post Hturns Hfresh Hlive.
    apply Forall_app in Hfresh as [Hpre Hpost].
    destruct (turn_outcome_live d Hlive) as (reason & Hd & Hreason).
    assert (Datatypes.length arrivals
            = S (Datatypes.length (pre ++ post))) as Hlen.
    { rewrite <- (turns_length r arrivals), Hturns, !length_app. simpl. lia. }
    assert (assigned (map turn_outcome (turns r arrivals))
            = map (fun t => nextID t.1) (pre ++ post)) as Hids.
    { rewrite Hturns, map_app, map_cons, assigned_app, Hd.
      rewrite !outcomes_fresh by assumption. cbn [assigned].
      rewrite (proj1 (assigned_inl _ pre)), (proj1 (assigned_inl _ post)).
      now rewrite map_app. }
    assert (refused (map turn_outcome (turns r arrivals))
            = ["Email " +:+ pb.CreateUserRequest.Email d.2.2 +:+ ": " +:+
               reason]) as Herrs.
    { rewrite Hturns, map_app, map_cons, refused_app, Hd.
      rewrite !outcomes_fresh by assumption. cbn [refused].
      now rewrite (proj2 (assigned_inl _ pre)), (proj2 (assigned_inl _ post)). }
    eexists _, reason.
    split; [apply (concurrent_CreateUsers_EOF r arrivals None)|].
    cbn [pb.BulkCreateResponse.UserIds pb.BulkCreateResponse.Errors
         pb.BulkCreateResponse.CreatedCount].
    rewrite Hids, Herrs, length_map, Hlen.
    replace (Z.of_nat (S (Datatypes.length (pre ++ post))) - 1)
      with (Z.of_nat (Datatypes.length (pre ++ post))) by lia.
    split; [reflexivity|]. split; [reflexivity|]. split; [reflexivity|].
    split; [|split; [reflexivity | exact Hreason]].
    intros Hsmall. apply wrap32_id. unfold int32_range. lia.
  - intros r pre [now req] post Hvalid Hnd Hfresh Hdup Hids Hun.
    simpl in Hdup.
    apply Forall_app in Hvalid as [Hvpre Hvpost].
    unfold request_emails in Hnd, Hfresh. rewrite map_app in Hnd, Hfresh.
    fold (request_emails pre) in Hnd, Hfresh.
    fold (request_emails post) in Hnd, Hfresh.
    apply NoDup_app in Hnd as (Hndpre & Hdisj & Hndpost).
    assert (forall e, e ∈ request_emails pre -> ~ live_email (users r) e)
      as Hfpre by (intros e Hin; apply Hfresh, elem_of_app; auto).
    destruct (process_each_fresh r pre Hvpre Hndpre Hfpre)
      as (Hids1 & Herrs1 & Hnext1 & Hupper).
    pose proof (process_each_overwrites_nothing r pre Hvpre Hndpre Hfpre
                  Hids Hun) as Hlower.
    rewrite concurrent_CreateUsers_EOF.
    destruct (outcomes_alone r (pre ++ (now, req) :: post)) as [-> ->].
    rewrite process_each_app.
    set (r1 := (process_each r pre).1.1) in *.
    assert (forall e, e ∈ request_emails post ->
                      ~ live_email (users r1) e) as Hfpost.
    { intros e Hin Hl. apply Hupper in Hl as [Hl|Hl].
      - apply (Hfresh e); [apply elem_of_app; auto | exact Hl].
      - apply (Hdisj e Hl Hin). }
    destruct (process_each_fresh r1 post Hvpost Hndpost Hfpost)
      as (Hids2 & Herrs2 & _ & _).
    assert (exists reason,
              Create r1 (FromCreateRequest now req 0)
              = (r1, FromCreateRequest now req 0, Some reason)
              /\ (valid_request req -> reason = ErrEmailExists))
      as (reason & E & Hreason).
    { destruct (Create_cases r1 (FromCreateRequest now req 0))
        as [[E H]|[[E H]|[E (_ & _ & H)]]].
      - exists ErrInvalidInput. split; [exact E|].
        intros [Hn He]. destruct H; contradiction.
      - exists ErrEmailExists. split; [exact E | reflexivity].
      - exfalso. apply H, Hlower. exact Hdup. }
    cbn [process_each]. rewrite E.
    destruct (process_each r1 post) as [[r2 ids2] errs2].
    cbn [fst snd] in *. subst errs2. rewrite Herrs1, Hids1, Hids2, Hnext1.
    rewrite <- ids32_app, length_app, !ids32_length.
    replace (Z.of_nat (Datatypes.length (pre ++ (now, req) :: post)) - 1)
      with (Z.of_nat (Datatypes.length pre + Datatypes.length post))
      by (rewrite length_app, length_cons; lia).
    eexists _, (Error reason). split; [reflexivity|].
    cbn [pb.BulkCreateResponse.UserIds pb.BulkCreateResponse.Errors
         pb.BulkCreateResponse.CreatedCount].
    split; [reflexivity|]. split; [reflexivity|].
    split; [|split; [reflexivity|]].
    + intros Hsmall. apply wrap32_id. unfold int32_range. lia.
    + intros Hv. now rewrite (Hreason Hv).
Qed.

Lemma CreateUsers_processes_every_item_witness :
  (exists resp reason,
     (concurrent.CreateUsers (NewInMemoryUserRepository 0)
        [([OpDelete 1],
          (1, pb.CreateUserRequest.mk "Alice" "alice@example.com" ""));
         ([OpCreate (mkUser 0 "Zed" "zed@example.com" "user" 1 1)],
          (2, pb.CreateUserRequest.mk "Bob" "bob@example.com" ""));
         ([], (3, pb.CreateUserRequest.mk "Charlie" "charlie@example.com"
                    ""))]
        EOF None).2 = inl resp
     /\ pb.BulkCreateResponse.UserIds resp = [4; 6]
     /\ pb.BulkCreateResponse.CreatedCount resp = 2
     /\ pb.BulkCreateResponse.Errors resp
        = ["Email bob@example.com: " +:+ reason]
     /\ reason = "email already exists"%string)
  /\ (exists resp reason,
        (concurrent.CreateUsers (NewInMemoryUserRepository 0)
           (alone
              ([(1, pb.CreateUserRequest.mk "Alice" "alice@example.com" "")]
               ++ (2, pb.CreateUserRequest.mk "Bob" "bob@example.com" "")
               :: [(3, pb.CreateUserRequest.mk "Charlie"
                         "charlie@example.com" "")]))
           EOF None).2 = inl resp
        /\ pb.BulkCreateResponse.UserIds resp = [4; 5]
        /\ pb.BulkCreateResponse.CreatedCount resp = 2
        /\ pb.BulkCreateResponse.Errors resp
           = ["Email bob@example.com: " +:+ reason]
        /\ reason = "email already exists"%string).
Proof.
  destruct CreateUsers_processes_every_item as (_ & Hturns & Halone).
  split.
  - destruct (Hturns (NewInMemoryUserRepository 0)
        [([OpDelete 1],
          (1, pb.CreateUserRequest.mk "Alice" "alice@example.com" ""));
         ([OpCreate (mkUser 0 "Zed" "zed@example.com" "user" 1 1)],
          (2, pb.CreateUserRequest.mk "Bob" "bob@example.com" ""));
         ([], (3, pb.CreateUserRequest.mk "Charlie" "charlie@example.com"
                    ""))]
        [((run (NewInMemoryUserRepository 0) [OpDelete 1]).1,
          (1, pb.CreateUserRequest.mk "Alice" "alice@example.com" ""))]
        ((run (NewInMemoryUserRepository 0)
            [OpDelete 1;
             OpCreate (mkUser 0 "Alice" "alice@example.com" "user" 1 1);
             OpCreate (mkUser 0 "Zed" "zed@example.com" "user" 1 1)]).1,
         (2, pb.CreateUserRequest.mk "Bob" "bob@example.com" ""))
        [((run (NewInMemoryUserRepository 0)
             [OpDelete 1;
              OpCreate (mkUser 0 "Alice" "alice@example.com" "user" 1 1);
              OpCreate (mkUser 0 "Zed" "zed@example.com" "user" 1 1)]).1,
          (3, pb.CreateUserRequest.mk "Charlie" "charlie@example.com"
                ""))])
      as (resp & reason & Hrun & _ & Hids & _ & Hcount & Herrs & Hreason).
    + reflexivity.
    + repeat constructor; try discriminate; cbn [fst snd];
        intros H; apply emailScan_true in H; vm_compute in H; discriminate.
    + apply emailScan_true. reflexivity.
    + exists resp, reason. split; [exact Hrun|]. split; [exact Hids|].
      split; [apply Hcount; simpl; lia|]. split; [exact Herrs|].
      apply Hreason. split; discriminate.
  - destruct (Halone (NewInMemoryUserRepository 0)
           [(1, pb.CreateUserRequest.mk "Alice" "alice@example.com" "")]
           (2, pb.CreateUserRequest.mk "Bob" "bob@example.com" "")
           [(3, pb.CreateUserRequest.mk "Charlie" "charlie@example.com"
                  "")])
      as (resp & reason & Hrun & Hids & _ & Hcount & Herrs & Hreason).
    + repeat constructor; discriminate.
    + simpl. apply NoDup_cons. split; [|apply NoDup_singleton].
      intros H. apply list_elem_of_singleton in H. discriminate.
    + intros e Hin Hl. apply seed_live_email in Hl. simpl in Hin.
      apply elem_of_cons in Hin as [->|Hin];
        [|apply elem_of_cons in Hin as [->|Hin]; [|inversion Hin]];
        destruct Hl as [Hl|[Hl|Hl]]; discriminate.
    + left. exists 3, (mkUser 3 "Bob Johnson" "bob@example.com" "user" 0 0).
      split; reflexivity.
    + apply NoDup_singleton.
    + repeat constructor.
    + exists resp, reason. split; [exact Hrun|]. split; [exact Hids|].
      split; [apply Hcount; simpl; lia|]. split; [exact Herrs|].
      apply Hreason. split; discriminate.
Defined.

(** C9 as stated fails beside other calls.  A batch of three valid
    requests with distinct emails, of which only the second's is held by a
    live user of the seeded store, has two failures and one success when
    another call creates a user with the third's email while the handler
    waits for the third request; and it has no failure and three successes
    when another call deletes the user holding the second's email before
    the second request arrives. *)
Lemma CreateUsers_one_duplicate_beside_other_calls :
  Forall (fun it => valid_request it.2)
    [(1, pb.CreateUserRequest.mk "Alice" "alice@example.com" "");
     (2, pb.CreateUserRequest.mk "Bob" "bob@example.com" "");
     (3, pb.CreateUserRequest.mk "Charlie" "charlie@example.com" "")]
  /\ NoDup
       (request_emails
          [(1, pb.CreateUserRequest.mk "Alice" "alice@example.com" "");
           (2, pb.CreateUserRequest.mk "Bob" "bob@example.com" "");
           (3, pb.CreateUserRequest.mk "Charlie" "charlie@example.com" "")])
  /\ ~ live_email (users (NewInMemoryUserRepository 0)) "alice@example.com"
  /\ live_email (users (NewInMemoryUserRepository 0)) "bob@example.com"
  /\ ~ live_email (users (NewInMemoryUserRepository 0)) "charlie@example.com"
  /\ (concurrent.CreateUsers (NewInMemoryUserRepository 0)
        [([], (1, pb.CreateUserRequest.mk "Alice" "alice@example.com" ""));
         ([], (2, pb.CreateUserRequest.mk "Bob" "bob@example.com" ""));
         ([OpCreate
             (FromCreateRequest 3
                (pb.CreateUserRequest.mk "Chuck" "charlie@example.com" "")
                0)],
          (4, pb.CreateUserRequest.mk "Charlie" "charlie@example.com" ""))]
        EOF None).2
     = inl (pb.BulkCreateResponse.mk 1 [4]
              ["Email bob@example.com: email already exists"%string;
               "Email charlie@example.com: email already exists"%string])
  /\ (concurrent.CreateUsers (NewInMemoryUserRepository 0)
        [([], (1, pb.CreateUserRequest.mk "Alice" "alice@example.com" ""));
         ([OpDelete 3],
          (2, pb.CreateUserRequest.mk "Bob" "bob@example.com" ""));
         ([], (3, pb.CreateUserRequest.mk "Charlie" "charlie@example.com"
                    ""))]
        EOF None).2
     = inl (pb.BulkCreateResponse.mk 3 [4; 5; 6] []).
Proof.
  split; [repeat constructor; discriminate|].
  split.
  { simpl. apply NoDup_cons. split.
    - intros H.
      repeat (apply elem_of_cons in H as [H|H]; [discriminate|]).
      inversion H.
    - apply NoDup_cons. split; [|apply NoDup_singleton].
      intros H. apply list_elem_of_singleton in H. discriminate. }
  split.
  { intros H. apply seed_live_email in H.
    destruct H as [H|[H|H]]; discriminate. }
  split.
  { exists 3, (mkUser 3 "Bob Johnson" "bob@example.com" "user" 0 0).
    split; reflexivity. }
  split.
  { intros H. apply seed_live_email in H.
    destruct H as [H|[H|H]]; discriminate. }
  split; reflexivity.
Qed.

(** C10 as stated fails in two ways.  Beside other calls: on the seeded
    store a batch of two valid requests is assigned the IDs 4 and 6 when
    another call creates a user between the two.  At the end of the
    counter's range: on the store reached from the seeded one by creating
    and deleting 2^31 - 5 users, where the counter is at 2^31 - 1, a batch
    of two valid requests served alone is assigned the IDs 2^31 - 1 and
    -2^31. *)
Lemma bulk_ids_not_consecutive :
  (concurrent.CreateUsers (NewInMemoryUserRepository 0)
     [([], (1, pb.CreateUserRequest.mk "Alice" "alice@example.com" ""));
      ([OpCreate
          (FromCreateRequest 2
             (pb.CreateUserRequest.mk "Dave" "dave@example.com" "") 0)],
       (3, pb.CreateUserRequest.mk "Carol" "carol@example.com" ""))]
     EOF None).2
  = inl (pb.BulkCreateResponse.mk 2 [4; 6] [])
  /\ ~ (exists start, consecutive_from start [4; 6])
  /\ (concurrent.CreateUsers
        (run (NewInMemoryUserRepository 0)
             (churn_ops (Z.to_nat (2 ^ 31 - 5)))).1
        (alone
           [(1, pb.CreateUserRequest.mk "Alice" "alice@example.com" "");
            (2, pb.CreateUserRequest.mk "Carol" "carol@example.com" "")])
        EOF None).2
     = inl (pb.BulkCreateResponse.mk 2 [2 ^ 31 - 1; - 2 ^ 31] [])
  /\ ~ (exists start, consecutive_from start [2 ^ 31 - 1; - 2 ^ 31]).
Proof.
  split; [reflexivity|].
  split; [intros (start & H1 & H2 & _); lia|].
  split; [|intros (start & H1 & H2 & _); lia].
  rewrite churn_ops_store by lia.
  replace (4 + Z.of_nat (Z.to_nat (2 ^ 31 - 5))) with (2 ^ 31 - 1) by lia.
  reflexivity.
Qed.

End bulk_claims.

(** ** ID assignment over sequences of operations *)

Section id_assignment.
Import models repository spec service trace.

(** C5, as the code has it.  Starting from the seeded store, the IDs
    assigned by any sequence of creations, updates and deletions are the
    successive values of the [int32] counter from 4 on, and if the
    sequence consists of deletions and of valid creations whose emails are
    distinct and not in the seed data, every creation is assigned one.
    The first 2^31 - 4 IDs assigned are 4, 5, ..., 2^31 - 1: strictly
    increasing.  The first 2^32 IDs assigned are pairwise distinct, so
    among them an ID once assigned is not assigned again, whether or not
    the record holding it has been deleted, and the first 2^32 - 3 are
    none of the seeded IDs 1 to 3. *)
Theorem Create_ids_increase_until_counter_wraps (now : Z)
    (ops : list op) :
  exists n : nat,
    (run (NewInMemoryUserRepository now) ops).2 = ids32 4 n
    /\ (n <= Datatypes.length (created_emails ops))%nat
    /\ nextID (run (NewInMemoryUserRepository now) ops).1
       = wrap32 (4 + Z.of_nat n)
    /\ take (Z.to_nat (2 ^ 31 - 4))
            (run (NewInMemoryUserRepository now) ops).2
       = seqZ 4 (Z.of_nat (Nat.min (Z.to_nat (2 ^ 31 - 4)) n))
    /\ StronglySorted Z.lt
         (take (Z.to_nat (2 ^ 31 - 4))
               (run (NewInMemoryUserRepository now) ops).2)
    /\ NoDup (take (Z.to_nat (2 ^ 32))
                   (run (NewInMemoryUserRepository now) ops).2)
    /\ Forall (fun id => id < 1 \/ 3 < id)
              (take (Z.to_nat (2 ^ 32 - 3))
                    (run (NewInMemoryUserRepository now) ops).2)
    /\ (Forall create_or_delete ops ->
        NoDup (created_emails ops) ->
        (forall e, e ∈ created_emails ops ->
                   ~ live_email (users (NewInMemoryUserRepository now)) e) ->
        n = Datatypes.length (created_emails ops)).
Proof.
  destruct (run_ids (NewInMemoryUserRepository now) ops)
    as (n & Hids & Hnext & Hn).
  change (nextID (NewInMemoryUserRepository now)) with 4 in Hids, Hnext.
  exists n. rewrite Hids, Hnext, !ids32_take.
  rewrite bump32_wrap by (unfold int32_range; lia).
  split; [reflexivity|]. split; [exact Hn|]. split; [reflexivity|].
  rewrite ids32_seqZ by lia.
  split; [reflexivity|]. split; [apply seqZ_sorted|].
  split; [apply ids32_NoDup; [unfold int32_range|]; lia|].
  split; [apply ids32_not_seeded; lia|].
  intros Hok Hnd Hfresh.
  destruct (run_fresh _ _ Hok Hnd Hfresh) as (Hids' & _ & _).
  rewrite Hids in Hids'.
  apply (f_equal (@Datatypes.length Z)) in Hids'.
  now rewrite !ids32_length in Hids'.
Qed.

Lemma Create_ids_increase_until_counter_wraps_witness :
  exists n : nat,
    (run (NewInMemoryUserRepository 0)
         [OpCreate (mkUser 0 "Alice" "alice@example.com" "user" 1 1);
          OpDelete 4;
          OpCreate (mkUser 0 "Carol" "carol@example.com" "user" 2 2)]).2
    = ids32 4 n
    /\ StronglySorted Z.lt
         (take (Z.to_nat (2 ^ 31 - 4))
            (run (NewInMemoryUserRepository 0)
               [OpCreate (mkUser 0 "Alice" "alice@example.com" "user" 1 1);
                OpDelete 4;
                OpCreate (mkUser 0 "Carol" "carol@example.com" "user" 2 2)]).2)
    /\ NoDup
         (take (Z.to_nat (2 ^ 32))
            (run (NewInMemoryUserRepository 0)
               [OpCreate (mkUser 0 "Alice" "alice@example.com" "user" 1 1);
                OpDelete 4;
                OpCreate (mkUser 0 "Carol" "carol@example.com" "user" 2 2)]).2)
    /\ n = 2%nat.
Proof.
  destruct (Create_ids_increase_until_counter_wraps 0
              [OpCreate (mkUser 0 "Alice" "alice@example.com" "user" 1 1);
               OpDelete 4;
               OpCreate (mkUser 0 "Carol" "carol@example.com" "user" 2 2)])
    as (n & Hids & _ & _ & _ & Hsorted & Hnodup & _ & Hall).
  exists n. split; [exact Hids|]. split; [exact Hsorted|].
  split; [exact Hnodup|].
  apply Hall.
  - repeat constructor; discriminate.
  - simpl. apply NoDup_cons. split; [|apply NoDup_singleton].
    intros H. apply list_elem_of_singleton in H. discriminate.
  - intros e Hin Hl. apply seed_live_email in Hl. simpl in Hin.
    apply elem_of_cons in Hin as [->|Hin];
      [|apply elem_of_cons in Hin as [->|Hin]; [|inversion Hin]];
      destruct Hl as [Hl|[Hl|Hl]]; discriminate.
Defined.

Lemma churn_ops_valid (n : nat) :
  Forall create_or_delete (churn_ops n)
  /\ NoDup (created_emails (churn_ops n))
  /\ (forall now e,
        e ∈ created_emails (churn_ops n) ->
        ~ live_email (users (NewInMemoryUserRepository now)) e).
Proof.
  unfold churn_ops. split; [apply churn_create_or_delete|].
  rewrite churn_created_emails. split.
  - apply (@NoDup_fmap_2 _ _ fresh_email fresh_email_inj), NoDup_seq.
  - intros now e Hin. apply list_elem_of_fmap in Hin as (i & -> & _).
    apply fresh_email_not_seed.
Qed.

Lemma churn_ops_ids (now : Z) (n : nat) :
  (run (NewInMemoryUserRepository now) (churn_ops n)).2 = ids32 4 n.
Proof.
  destruct (churn_ops_valid n) as (Hok & Hnd & Hfresh).
  destruct (run_fresh (NewInMemoryUserRepository now) (churn_ops n)
              Hok Hnd (Hfresh now)) as (Hids & _ & _).
  unfold churn_ops in Hids at 2.
  rewrite churn_created_emails, length_map, length_seq in Hids.
  exact Hids.
Qed.

(** C5 as stated fails in both halves.  The sequences below create a new
    user and delete it again, over and over: they consist of deletions and
    of valid creations with distinct emails, none of them in the seed
    data.  After 2^31 - 3 rounds the IDs assigned run from 4 to 2^31 - 1
    and are followed by -2^31, so they are not increasing.  After
    2^32 + 1 rounds the ID 4, assigned in the first round to a record
    deleted since, is assigned again in the last. *)
Lemma Create_ids_wrap_to_negative :
  (forall n,
     Forall create_or_delete (churn_ops n)
     /\ NoDup (created_emails (churn_ops n))
     /\ (forall e,
           e ∈ created_emails (churn_ops n) ->
           ~ live_email (users (NewInMemoryUserRepository 0)) e))
  /\ (run (NewInMemoryUserRepository 0)
          (churn_ops (Z.to_nat (2 ^ 31 - 5) + 2))).2
     = seqZ 4 (Z.of_nat (Z.to_nat (2 ^ 31 - 5))) ++ [2 ^ 31 - 1; - 2 ^ 31]
  /\ ~ StronglySorted Z.lt
        (run (NewInMemoryUserRepository 0)
             (churn_ops (Z.to_nat (2 ^ 31 - 5) + 2))).2
  /\ (run (NewInMemoryUserRepository 0)
          (churn_ops (Z.to_nat (2 ^ 32) + 1))).2 !! 0%nat = Some 4
  /\ (run (NewInMemoryUserRepository 0)
          (churn_ops (Z.to_nat (2 ^ 32) + 1))).2 !! Z.to_nat (2 ^ 32)
     = Some 4
  /\ ~ NoDup (run (NewInMemoryUserRepository 0)
                  (churn_ops (Z.to_nat (2 ^ 32) + 1))).2.
Proof.
  split.
  { intros n. destruct (churn_ops_valid n) as (Hok & Hnd & Hfresh).
    split; [exact Hok|]. split; [exact Hnd | apply Hfresh]. }
  rewrite !churn_ops_ids.
  assert (ids32 4 (Z.to_nat (2 ^ 32) + 1) !! 0%nat = Some 4) as Hfirst.
  { rewrite ids32_lookup by (unfold int32_range; lia). reflexivity. }
  assert (ids32 4 (Z.to_nat (2 ^ 32) + 1) !! Z.to_nat (2 ^ 32) = Some 4)
    as Hlast.
  { rewrite ids32_lookup by (unfold int32_range; lia).
    rewrite Z2Nat.id by lia. reflexivity. }
  rewrite ids32_across_wrap by lia.
  split; [reflexivity|].
  split.
  { intros H. apply StronglySorted_app_1_r in H.
    apply StronglySorted_inv in H as [_ H].
    apply Forall_cons in H as [H _]. lia. }
  split; [exact Hfirst|]. split; [exact Hlast|].
  intros H. rewrite NoDup_alt in H.
  pose proof (H _ _ _ Hfirst Hlast). lia.
Qed.

End id_assignment.

(** * Further properties of the store and the handlers *)

(** ** Reading back what the store wrote *)

Section store_round_trips.
Import models repository spec.

(** X1.  [Delete] of an ID that is not in use fails with
    [ErrUserNotFound] and changes nothing.  [Delete] of an ID in use
    succeeds; afterwards [GetByID] and a second [Delete] of that ID fail
    with [ErrUserNotFound], every other ID reads as before and the counter
    has not moved. *)
Theorem Delete_removes_exactly_that_record (r : InMemoryUserRepository)
    (id : Z) :
  (users r !! id = None -> Delete r id = (r, Some ErrUserNotFound))
  /\ (forall u, users r !! id = Some u ->
        exists r',
          Delete r id = (r', None)
          /\ GetByID r' id = inr ErrUserNotFound
          /\ Delete r' id = (r', Some ErrUserNotFound)
          /\ (forall k, k <> id -> GetByID r' k = GetByID r k)
          /\ nextID r' = nextID r).
Proof.
  split.
  - intros H. unfold Delete. now rewrite H.
  - intros u H. eexists. unfold Delete at 1. rewrite H.
    split; [reflexivity|]. unfold GetByID, Delete. simpl.
    rewrite lookup_delete_eq. repeat split.
    intros k Hk. now rewrite lookup_delete_ne.
Qed.

Lemma Delete_removes_exactly_that_record_witness :
  Delete (NewInMemoryUserRepository 0) 7
    = (NewInMemoryUserRepository 0, Some ErrUserNotFound)
  /\ exists r',
       Delete (NewInMemoryUserRepository 0) 2 = (r', None)
       /\ GetByID r' 2 = inr ErrUserNotFound
       /\ Delete r' 2 = (r', Some ErrUserNotFound)
       /\ (forall k, k <> 2 ->
             GetByID r' k = GetByID (NewInMemoryUserRepository 0) k)
       /\ nextID r' = nextID (NewInMemoryUserRepository 0).
Proof.
  split.
  - apply (proj1 (Delete_removes_exactly_that_record
                    (NewInMemoryUserRepository 0) 7)).
    reflexivity.
  - apply (proj2 (Delete_removes_exactly_that_record
                    (NewInMemoryUserRepository 0) 2)
             (mkUser 2 "Jane Smith" "jane@example.com" "user" 0 0)).
    reflexivity.
Defined.

(** X2.  A successful [Create] can be read back under the assigned ID and
    leaves every other ID as it was; from then on the email is reported as
    taken and a further [Create] with it fails with [ErrEmailExists].
    Deleting the new record again, when its ID was not in use before,
    restores the records; the counter stays advanced. *)
Theorem Create_then_read_recreate_delete (r : InMemoryUserRepository)
    (user : User) :
  Name user <> ""%string -> Email user <> ""%string ->
  ~ live_email (users r) (Email user) ->
  exists r',
    Create r user = (r', set_ID user (nextID r), None)
    /\ GetByID r' (nextID r) = inl (set_ID user (nextID r))
    /\ (forall k, k <> nextID r -> GetByID r' k = GetByID r k)
    /\ EmailExists r' (Email user) = true
    /\ (forall other,
          Name other <> ""%string -> Email other = Email user ->
          Create r' other = (r', other, Some ErrEmailExists))
    /\ (users r !! nextID r = None ->
        exists r'',
          Delete r' (nextID r) = (r'', None)
          /\ users r'' = users r
          /\ nextID r'' = wrap32 (nextID r + 1)).
Proof.
  intros Hn He Hl. eexists. split; [now apply Create_fresh|].
  assert (live_email
            (<[nextID r := set_ID user (nextID r)]> (users r)) (Email user))
    as Hlive.
  { exists (nextID r), (set_ID user (nextID r)).
    split; [apply lookup_insert_eq | reflexivity]. }
  unfold GetByID, EmailExists. simpl. rewrite lookup_insert_eq.
  split; [reflexivity|]. split; [|split; [|split]].
  - intros k Hk. now rewrite lookup_insert_ne.
  - now apply emailScan_true.
  - intros other Hon Hoe. apply Create_duplicate; [exact Hon | |].
    + now rewrite Hoe.
    + simpl. now rewrite Hoe.
  - intros Hfree. eexists. unfold Delete. simpl. rewrite lookup_insert_eq.
    split; [reflexivity|]. simpl. split; [|reflexivity].
    rewrite delete_insert_eq. now apply delete_id.
Qed.

Lemma Create_then_read_recreate_delete_witness :
  exists r',
    Create (NewInMemoryUserRepository 0)
           (mkUser 0 "Test User" "test@example.com" "user" 5 5)
      = (r', set_ID (mkUser 0 "Test User" "test@example.com" "user" 5 5)
               (nextID (NewInMemoryUserRepository 0)), None)
    /\ GetByID r' (nextID (NewInMemoryUserRepository 0))
       = inl (set_ID (mkUser 0 "Test User" "test@example.com" "user" 5 5)
                     (nextID (NewInMemoryUserRepository 0)))
    /\ (forall k, k <> nextID (NewInMemoryUserRepository 0) ->
          GetByID r' k = GetByID (NewInMemoryUserRepository 0) k)
    /\ EmailExists r'
         (Email (mkUser 0 "Test User" "test@example.com" "user" 5 5)) = true
    /\ (forall other,
          Name other <> ""%string ->
          Email other
            = Email (mkUser 0 "Test User" "test@example.com" "user" 5 5) ->
          Create r' other = (r', other, Some ErrEmailExists))
    /\ (users (NewInMemoryUserRepository 0)
          !! nextID (NewInMemoryUserRepository 0) = None ->
        exists r'',
          Delete r' (nextID (NewInMemoryUserRepository 0)) = (r'', None)
          /\ users r'' = users (NewInMemoryUserRepository 0)
          /\ nextID r'' = wrap32 (nextID (NewInMemoryUserRepository 0) + 1)).
Proof.
  apply (Create_then_read_recreate_delete (NewInMemoryUserRepository 0)
           (mkUser 0 "Test User" "test@example.com" "user" 5 5)).
  - discriminate.
  - discriminate.
  - apply emailScan_false. vm_compute. reflexivity.
Defined.

(** X3.  [Update] of a record whose ID is in use replaces exactly that
    record: it can be read back, every other ID reads as before, the set
    of IDs in use and the counter are unchanged, and repeating the
    [Update] changes nothing more. *)
Theorem Update_replaces_exactly_that_record (r : InMemoryUserRepository)
    (user old : User) :
  users r !! ID user = Some old ->
  exists r',
    Update r user = (r', None)
    /\ GetByID r' (ID user) = inl user
    /\ (forall k, k <> ID user -> GetByID r' k = GetByID r k)
    /\ dom (users r') = dom (users r)
    /\ nextID r' = nextID r
    /\ Update r' user = (r', None).
Proof.
  intros H. eexists. unfold Update at 1. rewrite H. split; [reflexivity|].
  unfold GetByID, Update. simpl. rewrite lookup_insert_eq.
  split; [reflexivity|]. split; [|split; [|split; [reflexivity|]]].
  - intros k Hk. now rewrite lookup_insert_ne.
  - rewrite dom_insert_L. apply subseteq_union_1_L, singleton_subseteq_l.
    now apply elem_of_dom_2 in H.
  - now rewrite insert_insert_eq.
Qed.

Lemma Update_replaces_exactly_that_record_witness :
  exists r',
    Update (NewInMemoryUserRepository 0)
           (mkUser 3 "Robert Johnson" "bob@example.com" "admin" 0 9)
      = (r', None)
    /\ GetByID r' (ID (mkUser 3 "Robert Johnson" "bob@example.com" "admin"
                              0 9))
       = inl (mkUser 3 "Robert Johnson" "bob@example.com" "admin" 0 9)
    /\ (forall k,
          k <> ID (mkUser 3 "Robert Johnson" "bob@example.com" "admin" 0 9) ->
          GetByID r' k = GetByID (NewInMemoryUserRepository 0) k)
    /\ dom (users r') = dom (users (NewInMemoryUserRepository 0))
    /\ nextID r' = nextID (NewInMemoryUserRepository 0)
    /\ Update r' (mkUser 3 "Robert Johnson" "bob@example.com" "admin" 0 9)
       = (r', None).
Proof.
  apply (Update_replaces_exactly_that_record (NewInMemoryUserRepository 0)
           (mkUser 3 "Robert Johnson" "bob@example.com" "admin" 0 9)
           (mkUser 3 "Bob Johnson" "bob@example.com" "user" 0 0)).
  reflexivity.
Defined.

(** X4.  [EmailExists] is true exactly when some live user has the email,
    and for a record with name and email [Create] succeeds exactly when
    [EmailExists] is false for its email. *)
Theorem EmailExists_decides_Create (r : InMemoryUserRepository) :
  (forall email,
     EmailExists r email = true <->
     exists id u, GetByID r id = inl u /\ Email u = email)
  /\ (forall user,
        Name user <> ""%string -> Email user <> ""%string ->
        ((Create r user).2 = None <-> EmailExists r (Email user) = false)).
Proof.
  split.
  - intros email. unfold EmailExists. rewrite emailScan_true.
    unfold live_email, GetByID. split; intros (k & u & H & E); exists k, u.
    + now rewrite H.
    + destruct (users r !! k); [|discriminate]. injection H as ->. auto.
  - intros user Hn He. unfold EmailExists.
    destruct (emailScan (users r) (Email user)) eqn:Hs.
    + rewrite Create_duplicate by (auto; now apply emailScan_true).
      simpl. split; discriminate.
    + rewrite Create_fresh by (auto; now apply emailScan_false).
      simpl. split; reflexivity.
Qed.

Lemma EmailExists_decides_Create_witness :
  ((Create (NewInMemoryUserRepository 0)
           (mkUser 0 "Test" "jane@example.com" "" 1 1)).2 = None <->
   EmailExists (NewInMemoryUserRepository 0)
     (Email (mkUser 0 "Test" "jane@example.com" "" 1 1)) = false).
Proof.
  apply (proj2 (EmailExists_decides_Create (NewInMemoryUserRepository 0))
           (mkUser 0 "Test" "jane@example.com" "" 1 1));
    discriminate.
Defined.

End store_round_trips.

(** ** The IDs in use *)

Section key_sets.
Import models repository spec.

(** X5.  The IDs in use change only as follows: a successful [Create]
    adds the counter's value, [Update] adds and removes none, [Delete]
    removes just the given one.  While the counter is above every ID in
    use, [Create] takes an ID that was free, so it overwrites no record and
    the number of records grows by one. *)
Theorem operations_on_the_ids_in_use (r : InMemoryUserRepository) :
  (forall user,
     (Create r user).2 = None ->
     dom (users (Create r user).1.1) = {[nextID r]} ∪ dom (users r))
  /\ (forall user, dom (users (Update r user).1) = dom (users r))
  /\ (forall id, dom (users (Delete r id).1) = dom (users r) ∖ {[id]})
  /\ (counter_fresh r ->
      forall user,
        (Create r user).2 = None ->
        users r !! nextID r = None
        /\ (forall k u, users r !! k = Some u ->
                        users (Create r user).1.1 !! k = Some u)
        /\ size (users (Create r user).1.1) = S (size (users r))).
Proof.
  split; [|split; [|split]].
  - intros user H.
    destruct (Create_cases r user) as [[E _]|[[E _]|[E _]]];
      rewrite E in *; simpl in *; try discriminate.
    apply dom_insert_L.
  - intros user. unfold Update.
    destruct (users r !! ID user) as [old|] eqn:Hu; simpl; [|reflexivity].
    rewrite dom_insert_L. apply subseteq_union_1_L, singleton_subseteq_l.
    now apply elem_of_dom_2 in Hu.
  - intros id. unfold Delete.
    destruct (users r !! id) as [old|] eqn:Hu; simpl.
    + apply dom_delete_L.
    + apply not_elem_of_dom in Hu. symmetry. apply difference_disjoint_L.
      now apply disjoint_singleton_r.
  - intros [_ Hkeys] user H.
    assert (users r !! nextID r = None) as Hfree.
    { destruct (users r !! nextID r) as [u|] eqn:Hu; [|reflexivity].
      apply Hkeys in Hu. lia. }
    split; [exact Hfree|].
    destruct (Create_cases r user) as [[E _]|[[E _]|[E _]]];
      rewrite E in *; simpl in *; try discriminate.
    split.
    + intros k u Hk. rewrite lookup_insert_ne; [exact Hk | congruence].
    + now apply map_size_insert_None.
Qed.

Lemma operations_on_the_ids_in_use_witness :
  dom (users (Create (NewInMemoryUserRepository 0)
                     (mkUser 0 "Test" "test@example.com" "user" 1 1)).1.1)
  = {[nextID (NewInMemoryUserRepository 0)]}
    ∪ dom (users (NewInMemoryUserRepository 0))
  /\ size (users (Create (NewInMemoryUserRepository 0)
                    (mkUser 0 "Test" "test@example.com" "user" 1 1)).1.1)
     = S (size (users (NewInMemoryUserRepository 0))).
Proof.
  destruct (operations_on_the_ids_in_use (NewInMemoryUserRepository 0))
    as (Hc & _ & _ & Hf).
  split.
  - apply Hc. vm_compute. reflexivity.
  - apply (Hf (seed_counter_fresh 0)). vm_compute. reflexivity.
Defined.

End key_sets.

(** ** Partial updates of a record *)

Section partial_updates.
Import models repository spec laws.

(** X6.  [User.Update] never changes the ID or the creation time and sets
    the update time to the clock reading.  A field that is present cannot
    be cleared, so a record with name, email and role keeps all three.
    Two updates in a row amount to one update with the later request's
    fields where they are set and the earlier request's elsewhere; so
    repeating an update changes nothing. *)
Theorem User_Update_laws (now1 now2 : Z) (u : User)
    (q1 q2 : pb.UpdateUserRequest.t) :
  ID (models.Update now1 u q1) = ID u
  /\ CreatedAt (models.Update now1 u q1) = CreatedAt u
  /\ UpdatedAt (models.Update now1 u q1) = now1
  /\ (Name u <> ""%string -> Name (models.Update now1 u q1) <> ""%string)
  /\ (Email u <> ""%string -> Email (models.Update now1 u q1) <> ""%string)
  /\ (Role u <> ""%string -> Role (models.Update now1 u q1) <> ""%string)
  /\ models.Update now2 (models.Update now1 u q1) q2
     = models.Update now2 u (merge_updates q1 q2)
  /\ models.Update now1 (models.Update now1 u q1) q1
     = models.Update now1 u q1.
Proof.
  unfold models.Update, merge_updates. simpl.
  destruct (String.eqb_spec (pb.UpdateUserRequest.Name q1) "") as [En1|Nn1];
    destruct (String.eqb_spec (pb.UpdateUserRequest.Email q1) "")
      as [Ee1|Ne1];
    destruct (String.eqb_spec (pb.UpdateUserRequest.Role q1) "")
      as [Er1|Nr1];
    destruct (String.eqb_spec (pb.UpdateUserRequest.Name q2) "") as [En2|Nn2];
    destruct (String.eqb_spec (pb.UpdateUserRequest.Email q2) "")
      as [Ee2|Ne2];
    destruct (String.eqb_spec (pb.UpdateUserRequest.Role q2) "")
      as [Er2|Nr2];
    simpl;
    rewrite ?(eqb_empty_false _ Nn1), ?(eqb_empty_false _ Ne1),
            ?(eqb_empty_false _ Nr1), ?(eqb_empty_false _ Nn2),
            ?(eqb_empty_false _ Ne2), ?(eqb_empty_false _ Nr2),
            ?En1, ?Ee1, ?Er1; simpl;
    repeat split; auto.
Qed.

Lemma User_Update_laws_witness :
  Name (models.Update 7 (mkUser 2 "Jane Smith" "jane@example.com" "user" 0 0)
          (pb.UpdateUserRequest.mk 2 "" "" "admin")) <> ""%string.
Proof.
  apply (proj1 (proj2 (proj2 (proj2
           (User_Update_laws 7 7
              (mkUser 2 "Jane Smith" "jane@example.com" "user" 0 0)
              (pb.UpdateUserRequest.mk 2 "" "" "admin")
              (pb.UpdateUserRequest.mk 2 "" "" "admin")))))).
  discriminate.
Defined.

End partial_updates.

(** ** The unary handlers *)

Section unary_handlers.
Import models repository spec service rpc laws.

Lemma CreateUser_store (now : Z) (r : InMemoryUserRepository)
    (req : pb.CreateUserRequest.t) :
  (CreateUser now ctxNil r req).1
  = (Create r (FromCreateRequest now req 0)).1.1.
Proof.
  unfold CreateUser. simpl.
  destruct (Create_cases r (FromCreateRequest now req 0))
    as [[E _]|[[E _]|[E _]]]; now rewrite E.
Qed.

Lemma UpdateUser_store (now : Z) (r : InMemoryUserRepository)
    (req : pb.UpdateUserRequest.t) :
  (UpdateUser now ctxNil r req).1
  = match users r !! pb.UpdateUserRequest.Id req with
    | None => r
    | Some user => (repository.Update r (models.Update now user req)).1
    end.
Proof.
  unfold UpdateUser, GetByID. simpl.
  destruct (users r !! pb.UpdateUserRequest.Id req) as [user|];
    [|reflexivity].
  now destruct (repository.Update r (models.Update now user req))
    as [r' [e|]].
Qed.

Lemma DeleteUser_store (r : InMemoryUserRepository)
    (req : pb.UserRequest.t) :
  (DeleteUser ctxNil r req).1 = (Delete r (pb.UserRequest.Id req)).1.
Proof.
  unfold DeleteUser. simpl.
  destruct (Delete r (pb.UserRequest.Id req)) as [r' [[]|]]; reflexivity.
Qed.

Lemma CreateUsers_store (r : InMemoryUserRepository)
    (items : list (Z * pb.CreateUserRequest.t)) (fin : recvEnd) :
  (CreateUsers r items fin).1 = (process_each r items).1.1.
Proof.
  unfold CreateUsers. destruct fin as [|err].
  - now rewrite CreateUsers_loop_process_each.
  - now rewrite CreateUsers_loop_RecvError.
Qed.

(** X7.  A unary call whose context has ended is refused before the store
    is consulted: every unary handler answers [DeadlineExceeded] for an
    expired deadline and [Canceled] for a canceled call, whatever the
    request, and returns the store as it was. *)
Theorem ended_context_is_refused (ctx : ctxErr)
    (r : InMemoryUserRepository) :
  ctx <> ctxNil ->
  exists st,
    checkContext ctx = Some st
    /\ (ctx = ctxDeadlineExceeded ->
        st = mkStatus DeadlineExceeded "Request timeout")
    /\ (ctx = ctxCanceled -> st = mkStatus Canceled "Request canceled")
    /\ (forall req, GetUser ctx r req = inr st)
    /\ (forall now req, CreateUser now ctx r req = (r, inr st))
    /\ (forall now req, UpdateUser now ctx r req = (r, inr st))
    /\ (forall req, DeleteUser ctx r req = (r, inr st)).
Proof.
  intros H. destruct ctx; [contradiction| |]; eexists;
    (split; [reflexivity|]); repeat split; intros; try discriminate;
    reflexivity.
Qed.

Lemma ended_context_is_refused_witness :
  exists st,
    checkContext ctxCanceled = Some st
    /\ (ctxCanceled = ctxDeadlineExceeded ->
        st = mkStatus DeadlineExceeded "Request timeout")
    /\ (ctxCanceled = ctxCanceled -> st = mkStatus Canceled "Request canceled")
    /\ (forall req, GetUser ctxCanceled (NewInMemoryUserRepository 0) req
                    = inr st)
    /\ (forall now req,
          CreateUser now ctxCanceled (NewInMemoryUserRepository 0) req
          = (NewInMemoryUserRepository 0, inr st))
    /\ (forall now req,
          UpdateUser now ctxCanceled (NewInMemoryUserRepository 0) req
          = (NewInMemoryUserRepository 0, inr st))
    /\ (forall req,
          DeleteUser ctxCanceled (NewInMemoryUserRepository 0) req
          = (NewInMemoryUserRepository 0, inr st)).
Proof.
  apply (ended_context_is_refused ctxCanceled (NewInMemoryUserRepository 0)).
  discriminate.
Defined.

Lemma UpdateUser_alone (now : Z) (ctx : ctxErr) (r : InMemoryUserRepository)
    (req : pb.UpdateUserRequest.t) :
  concurrent.UpdateUser now ctx r [] req = UpdateUser now ctx r req.
Proof. reflexivity. Qed.

(** X8.  The status [Internal] has one way in.  [GetUser], [CreateUser]
    and [DeleteUser], which take the lock once, never answer with it.
    [UpdateUser] answers with it exactly when the call is live, [GetByID]
    found the record, and no record is stored under that record's ID when
    [repository.Update] gets the lock, as after another call has deleted it
    in between; the message is then "Failed to update user: user not
    found" and the store is as the other calls left it.  With no write of
    another call in between, on a store whose records sit under their own
    IDs, [UpdateUser] never answers [Internal]. *)
Theorem Internal_only_from_UpdateUser_losing_its_record (now : Z)
    (ctx : ctxErr) (r : InMemoryUserRepository) :
  (forall req st, GetUser ctx r req = inr st -> code st <> Internal)
  /\ (forall req st,
        (CreateUser now ctx r req).2 = inr st -> code st <> Internal)
  /\ (forall req st,
        (DeleteUser ctx r req).2 = inr st -> code st <> Internal)
  /\ (forall others req,
        (exists st,
           (concurrent.UpdateUser now ctx r others req).2 = inr st
           /\ code st = Internal)
        <-> (ctx = ctxNil
             /\ exists user,
                  users r !! pb.UpdateUserRequest.Id req = Some user
                  /\ users (trace.run r others).1 !! ID user = None))
  /\ (forall others req st,
        (concurrent.UpdateUser now ctx r others req).2 = inr st ->
        code st = Internal ->
        st = mkStatus Internal "Failed to update user: user not found"
        /\ (concurrent.UpdateUser now ctx r others req).1
           = (trace.run r others).1)
  /\ (keys_consistent (users r) ->
      forall req st,
        (concurrent.UpdateUser now ctx r [] req).2 = inr st ->
        code st <> Internal).
Proof.
  split; [|split; [|split; [|split; [|split]]]].
  - intros req st. unfold GetUser, GetByID.
    destruct ctx; simpl; try (intros [= <-]; discriminate).
    destruct (users r !! pb.UserRequest.Id req); intros [= <-]; discriminate.
  - intros req st. unfold CreateUser.
    destruct ctx; simpl; try (intros [= <-]; discriminate).
    destruct (Create_cases r (FromCreateRequest now req 0))
      as [[E _]|[[E _]|[E _]]]; rewrite E; simpl; intros [= <-];
      discriminate.
  - intros req st. unfold DeleteUser, Delete.
    destruct ctx; simpl; try (intros [= <-]; discriminate).
    destruct (users r !! pb.UserRequest.Id req); simpl; intros [= <-];
      discriminate.
  - intros others req. unfold concurrent.UpdateUser, GetByID. split.
    + intros (st & Hst & Hcode).
      destruct ctx; simpl in Hst;
        try (injection Hst as <-; discriminate).
      split; [reflexivity|].
      destruct (users r !! pb.UpdateUserRequest.Id req) as [user|];
        [|injection Hst as <-; discriminate].
      exists user. split; [reflexivity|].
      unfold repository.Update in Hst. simpl in Hst.
      destruct (users (trace.run r others).1 !! ID user);
        [discriminate | reflexivity].
    + intros (-> & user & Hu & Hgone). simpl. rewrite Hu.
      unfold repository.Update. simpl. rewrite Hgone. simpl.
      eexists. split; reflexivity.
  - intros others req st. unfold concurrent.UpdateUser, GetByID.
    destruct ctx; simpl; try (intros [= <-]; discriminate).
    destruct (users r !! pb.UpdateUserRequest.Id req) as [user|];
      [|intros [= <-]; discriminate].
    unfold repository.Update. simpl.
    destruct (users (trace.run r others).1 !! ID user); simpl;
      [discriminate|].
    intros [= <-] _. split; reflexivity.
  - intros Hk req st. unfold concurrent.UpdateUser, GetByID.
    destruct ctx; simpl; try (intros [= <-]; discriminate).
    destruct (users r !! pb.UpdateUserRequest.Id req) as [user|] eqn:Hu;
      [|intros [= <-]; discriminate].
    unfold repository.Update. simpl. rewrite (Hk _ _ Hu), Hu. simpl.
    discriminate.
Qed.

Lemma Internal_only_from_UpdateUser_losing_its_record_witness :
  (concurrent.UpdateUser 5 ctxNil (NewInMemoryUserRepository 0)
     [trace.OpDelete 2] (pb.UpdateUserRequest.mk 2 "" "" "admin")).2
  = inr (mkStatus Internal "Failed to update user: user not found")
  /\ code (mkStatus NotFound "User ID=9 not found") <> Internal.
Proof.
  destruct (Internal_only_from_UpdateUser_losing_its_record 5 ctxNil
              (NewInMemoryUserRepository 0))
    as (_ & _ & _ & Hiff & Hmsg & Halone).
  split.
  - destruct (proj2 (Hiff [trace.OpDelete 2]
                       (pb.UpdateUserRequest.mk 2 "" "" "admin")))
      as (st & Hst & Hcode).
    + split; [reflexivity|].
      exists (mkUser 2 "Jane Smith" "jane@example.com" "user" 0 0).
      split; reflexivity.
    + rewrite Hst. f_equal. apply (Hmsg _ _ _ Hst Hcode).
  - apply (Halone (seed_keys_consistent 0)
             (pb.UpdateUserRequest.mk 9 "Ghost" "" "")).
    reflexivity.
Defined.

(** X9.  The handlers read their own writes.  The record [CreateUser]
    answers with is what [GetUser] answers for its ID afterwards; on a
    store whose records sit under their own IDs the same holds of
    [UpdateUser], whose answer carries the requested ID; and after a
    successful [DeleteUser] both [GetUser] and a second [DeleteUser] of the
    ID answer [NotFound]. *)
Theorem handlers_read_their_writes (now : Z)
    (r r' : InMemoryUserRepository) :
  (forall req resp,
     CreateUser now ctxNil r req = (r', inl resp) ->
     GetUser ctxNil r' (pb.UserRequest.mk (pb.UserResponse.Id resp))
     = inl resp)
  /\ (keys_consistent (users r) ->
      forall req resp,
        UpdateUser now ctxNil r req = (r', inl resp) ->
        pb.UserResponse.Id resp = pb.UpdateUserRequest.Id req
        /\ GetUser ctxNil r' (pb.UserRequest.mk (pb.UpdateUserRequest.Id req))
           = inl resp)
  /\ (forall req,
        DeleteUser ctxNil r req = (r', inl tt) ->
        GetUser ctxNil r' req
        = inr (mkStatus NotFound
                 ("User ID=" +:+ pretty (pb.UserRequest.Id req) +:+
                  " not found"))
        /\ DeleteUser ctxNil r' req
           = (r', inr (mkStatus NotFound
                         ("User ID=" +:+ pretty (pb.UserRequest.Id req) +:+
                          " not found")))).
Proof.
  split; [|split].
  - intros req resp. unfold CreateUser. simpl.
    destruct (Create_cases r (FromCreateRequest now req 0))
      as [[E _]|[[E _]|[E _]]]; rewrite E; simpl; try discriminate.
    intros [= <- <-]. unfold GetUser, GetByID. simpl.
    now rewrite lookup_insert_eq.
  - intros Hk req resp. unfold UpdateUser, GetByID. simpl.
    destruct (users r !! pb.UpdateUserRequest.Id req) as [user|] eqn:Hu;
      [|discriminate].
    unfold repository.Update. simpl. rewrite (Hk _ _ Hu), Hu.
    intros [= <- <-]. simpl. split; [now apply Hk|].
    unfold GetUser, GetByID. simpl. now rewrite lookup_insert_eq.
  - intros [id]. unfold DeleteUser, Delete. simpl.
    destruct (users r !! id) as [user|]; simpl; [|discriminate].
    intros [= <-]. unfold GetUser, GetByID. simpl.
    now rewrite lookup_delete_eq.
Qed.

Lemma handlers_read_their_writes_witness :
  (exists r' resp,
     CreateUser 5 ctxNil (NewInMemoryUserRepository 0)
                (pb.CreateUserRequest.mk "Test User" "test@example.com" "")
     = (r', inl resp)
     /\ resp = pb.UserResponse.mk 4 "Test User" "test@example.com" "user" 5 5
     /\ GetUser ctxNil r' (pb.UserRequest.mk (pb.UserResponse.Id resp))
        = inl resp)
  /\ (exists r' resp,
        UpdateUser 5 ctxNil (NewInMemoryUserRepository 0)
                   (pb.UpdateUserRequest.mk 3 "Robert" "" "")
        = (r', inl resp)
        /\ resp = pb.UserResponse.mk 3 "Robert" "bob@example.com" "user" 0 5
        /\ GetUser ctxNil r' (pb.UserRequest.mk 3) = inl resp)
  /\ (exists r',
        DeleteUser ctxNil (NewInMemoryUserRepository 0) (pb.UserRequest.mk 1)
        = (r', inl tt)
        /\ GetUser ctxNil r' (pb.UserRequest.mk 1)
           = inr (mkStatus NotFound "User ID=1 not found")).
Proof.
  split; [|split].
  - eexists _, _. split; [reflexivity|]. split; [reflexivity|].
    apply (proj1 (handlers_read_their_writes 5
                    (NewInMemoryUserRepository 0) _)
             (pb.CreateUserRequest.mk "Test User" "test@example.com" "")).
    reflexivity.
  - eexists _, _. split; [reflexivity|]. split; [reflexivity|].
    apply (proj1 (proj2 (handlers_read_their_writes 5
                           (NewInMemoryUserRepository 0) _))
             (seed_keys_consistent 0)
             (pb.UpdateUserRequest.mk 3 "Robert" "" "")).
    reflexivity.
  - eexists. split; [reflexivity|].
    apply (proj2 (proj2 (handlers_read_their_writes 5
                           (NewInMemoryUserRepository 0) _))
             (pb.UserRequest.mk 1)).
    reflexivity.
Defined.

End unary_handlers.

(** ** Invariants of the store under the calls *)

Section served_invariants.
Import models repository spec service rpc laws.

Lemma process_each_invariant (P : InMemoryUserRepository -> Prop) :
  (forall r now req, P r -> P (Create r (FromCreateRequest now req 0)).1.1) ->
  forall items r, P r -> P (process_each r items).1.1.
Proof.
  intros Hstep items. induction items as [|[now req] rest IH]; intros r HP.
  - exact HP.
  - cbn [process_each]. specialize (Hstep r now req HP).
    destruct (Create r (FromCreateRequest now req 0)) as [[r1 u] [e|]];
      specialize (IH r1 Hstep);
      now destruct (process_each r1 rest) as [[r2 ids] errs].
Qed.

Lemma FromCreateRequest_Role_present now req id :
  Role (FromCreateRequest now req id) <> ""%string.
Proof.
  unfold FromCreateRequest. simpl.
  destruct (String.eqb_spec (pb.CreateUserRequest.Role req) "");
    [discriminate | assumption].
Qed.

Lemma User_Update_fields_present (now : Z) (u : User)
    (req : pb.UpdateUserRequest.t) :
  record_complete u -> record_complete (models.Update now u req).
Proof.
  intros (Hn & He & Hr). unfold record_complete, models.Update. simpl.
  destruct (String.eqb_spec (pb.UpdateUserRequest.Name req) "");
    destruct (String.eqb_spec (pb.UpdateUserRequest.Email req) "");
    destruct (String.eqb_spec (pb.UpdateUserRequest.Role req) "");
    simpl; auto.
Qed.

Lemma Create_well_kept (r : InMemoryUserRepository) (now : Z)
    (req : pb.CreateUserRequest.t) :
  well_kept r -> well_kept (Create r (FromCreateRequest now req 0)).1.1.
Proof.
  intros [Hk Hc].
  destruct (Create_cases r (FromCreateRequest now req 0))
    as [[E _]|[[E _]|[E (Hn & He & _)]]]; rewrite E; simpl;
    [split; assumption | split; assumption |].
  split; intros k u H; simpl in H;
    apply lookup_insert_Some in H as [[<- <-]|[_ H]].
  - reflexivity.
  - now apply Hk.
  - split; [exact Hn|]. split; [exact He|].
    apply FromCreateRequest_Role_present.
  - now apply Hc in H.
Qed.

Lemma handle_well_kept (r : InMemoryUserRepository) (c : call) :
  well_kept r -> well_kept (handle r c).
Proof.
  intros Hw.
  destruct c as [ctx req|now ctx req|now ctx req|ctx req|f|items fin];
    simpl; try exact Hw.
  - destruct ctx; try exact Hw. rewrite CreateUser_store.
    now apply Create_well_kept.
  - destruct ctx; try exact Hw. rewrite UpdateUser_store.
    destruct (users r !! pb.UpdateUserRequest.Id req) as [user|] eqn:Hu;
      [|exact Hw].
    destruct Hw as [Hk Hc]. unfold repository.Update. simpl.
    rewrite (Hk _ _ Hu), Hu. simpl.
    split; intros k u H; simpl in H;
      apply lookup_insert_Some in H as [[<- <-]|[_ H]].
    + simpl. now apply Hk.
    + now apply Hk.
    + apply User_Update_fields_present. now apply Hc in Hu.
    + now apply Hc in H.
  - destruct ctx; try exact Hw. rewrite DeleteUser_store.
    destruct Hw as [Hk Hc]. unfold Delete.
    destruct (users r !! pb.UserRequest.Id req) as [old|]; simpl;
      [|split; assumption].
    split; intros k u H; simpl in H; apply lookup_delete_Some in H as [_ H].
    + now apply Hk.
    + now apply Hc in H.
  - rewrite CreateUsers_store.
    apply (process_each_invariant well_kept); [|exact Hw].
    intros r0 now req. apply Create_well_kept.
Qed.

Lemma serve_snoc (r : InMemoryUserRepository) (calls : list call)
    (c : call) :
  serve r (calls ++ [c]) = handle (serve r calls) c.
Proof. unfold serve. now rewrite foldl_app. Qed.

Lemma serve_cons (r : InMemoryUserRepository) (c : call)
    (calls : list call) :
  serve r (c :: calls) = serve (handle r c) calls.
Proof. reflexivity. Qed.

Lemma seed_store_complete (now : Z) :
  store_complete (users (NewInMemoryUserRepository now)).
Proof.
  intros k u H.
  destruct (seed_lookup _ _ _ H) as [[-> ->]|[[-> ->]|[-> ->]]];
    repeat split; discriminate.
Qed.

(** X10.  Whatever calls are served, one after another, on a store whose
    records sit under their own IDs with name, email and role present (as
    in the seed data), the store stays that way: every record [GetUser]
    returns carries the requested ID and a non-empty name, email and
    role. *)
Theorem served_records_stay_complete (r : InMemoryUserRepository)
    (calls : list call) :
  keys_consistent (users r) -> store_complete (users r) ->
  keys_consistent (users (serve r calls))
  /\ store_complete (users (serve r calls))
  /\ (forall id resp,
        GetUser ctxNil (serve r calls) (pb.UserRequest.mk id) = inl resp ->
        pb.UserResponse.Id resp = id
        /\ pb.UserResponse.Name resp <> ""%string
        /\ pb.UserResponse.Email resp <> ""%string
        /\ pb.UserResponse.Role resp <> ""%string).
Proof.
  intros Hk Hc.
  assert (well_kept (serve r calls)) as [Hk' Hc'].
  { revert r Hk Hc. induction calls as [|c calls IH]; intros r Hk Hc.
    - split; assumption.
    - rewrite serve_cons.
      destruct (handle_well_kept r c (conj Hk Hc)) as [Hk1 Hc1].
      now apply IH. }
  split; [exact Hk'|]. split; [exact Hc'|].
  intros id resp. unfold GetUser, GetByID. simpl.
  destruct (users (serve r calls) !! id) as [u|] eqn:Hu; [|discriminate].
  intros [= <-]. simpl. split; [now apply Hk'|]. now apply Hc' in Hu.
Qed.

Lemma served_records_stay_complete_witness :
  keys_consistent
    (users (serve (NewInMemoryUserRepository 0)
              [CallCreateUser 1 ctxNil
                 (pb.CreateUserRequest.mk "Ann" "ann@example.com" "");
               CallUpdateUser 2 ctxNil
                 (pb.UpdateUserRequest.mk 4 "" "" "admin");
               CallDeleteUser ctxNil (pb.UserRequest.mk 1)]))
  /\ store_complete
       (users (serve (NewInMemoryUserRepository 0)
                 [CallCreateUser 1 ctxNil
                    (pb.CreateUserRequest.mk "Ann" "ann@example.com" "");
                  CallUpdateUser 2 ctxNil
                    (pb.UpdateUserRequest.mk 4 "" "" "admin");
                  CallDeleteUser ctxNil (pb.UserRequest.mk 1)]))
  /\ (pb.UserResponse.Id
        (pb.UserResponse.mk 4 "Ann" "ann@example.com" "admin" 1 2) = 4
      /\ pb.UserResponse.Name
           (pb.UserResponse.mk 4 "Ann" "ann@example.com" "admin" 1 2)
         <> ""%string
      /\ pb.UserResponse.Email
           (pb.UserResponse.mk 4 "Ann" "ann@example.com" "admin" 1 2)
         <> ""%string
      /\ pb.UserResponse.Role
           (pb.UserResponse.mk 4 "Ann" "ann@example.com" "admin" 1 2)
         <> ""%string).
Proof.
  destruct (served_records_stay_complete (NewInMemoryUserRepository 0)
              [CallCreateUser 1 ctxNil
                 (pb.CreateUserRequest.mk "Ann" "ann@example.com" "");
               CallUpdateUser 2 ctxNil
                 (pb.UpdateUserRequest.mk 4 "" "" "admin");
               CallDeleteUser ctxNil (pb.UserRequest.mk 1)]
              (seed_keys_consistent 0) (seed_store_complete 0))
    as (Hk & Hc & Hg).
  split; [exact Hk|]. split; [exact Hc|].
  apply (Hg 4). reflexivity.
Defined.

Lemma Create_keys_consistent (r : InMemoryUserRepository) (user : User) :
  keys_consistent (users r) -> keys_consistent (users (Create r user).1.1).
Proof.
  intros Hk.
  destruct (Create_cases r user) as [[E _]|[[E _]|[E _]]]; rewrite E; simpl;
    [exact Hk | exact Hk |].
  intros k u H. apply lookup_insert_Some in H as [[<- <-]|[_ H]];
    [reflexivity | now apply Hk].
Qed.

Lemma handle_unique_kept (r : InMemoryUserRepository) (c : call) :
  keeps_emails c -> unique_kept r -> unique_kept (handle r c).
Proof.
  intros Hc Hw.
  destruct c as [ctx req|now ctx req|now ctx req|ctx req|f|items fin];
    simpl; try exact Hw.
  - destruct ctx; try exact Hw. rewrite CreateUser_store.
    destruct Hw as [Hk Hu].
    split; [now apply Create_keys_consistent | now apply Create_emails_unique].
  - destruct ctx; try exact Hw. rewrite UpdateUser_store.
    destruct (users r !! pb.UpdateUserRequest.Id req) as [user|] eqn:Hl;
      [|exact Hw].
    destruct Hw as [Hk Hu]. simpl in Hc.
    unfold repository.Update. simpl. rewrite (Hk _ _ Hl), Hl. simpl.
    assert (Email (models.Update now user req) = Email user) as Hsame
      by (unfold models.Update; simpl; now rewrite Hc).
    split.
    + intros k u H. simpl in H.
      apply lookup_insert_Some in H as [[<- <-]|[_ H]];
        [simpl; now apply Hk | now apply Hk].
    + intros k1 k2 u1 u2 H1 H2 E. simpl in H1, H2.
      apply lookup_insert_Some in H1 as [[<- <-]|[N1 H1]];
        apply lookup_insert_Some in H2 as [[<- <-]|[N2 H2]].
      * reflexivity.
      * rewrite Hsame in E. apply (Hu _ _ _ _ Hl H2 E).
      * rewrite Hsame in E. apply (Hu _ _ _ _ H1 Hl E).
      * apply (Hu _ _ _ _ H1 H2 E).
  - destruct ctx; try exact Hw. rewrite DeleteUser_store.
    destruct Hw as [Hk Hu]. split; [|now apply Delete_emails_unique].
    unfold Delete.
    destruct (users r !! pb.UserRequest.Id req) as [old|]; simpl;
      [|exact Hk].
    intros k u H. simpl in H. apply lookup_delete_Some in H as [_ H].
    now apply Hk.
  - rewrite CreateUsers_store.
    apply (process_each_invariant unique_kept); [|exact Hw].
    intros r0 now req [Hk Hu].
    split; [now apply Create_keys_consistent | now apply Create_emails_unique].
Qed.

(** X11.  Email uniqueness survives every call but an email-changing
    update: on a store whose records sit under their own IDs with pairwise
    distinct emails (as in the seed data), any sequence of calls among
    which no [UpdateUser] sets the email field leaves the emails of the
    live users pairwise distinct. *)
Theorem emails_stay_unique_without_email_updates
    (r : InMemoryUserRepository) (calls : list call) :
  keys_consistent (users r) -> emails_unique (users r) ->
  Forall keeps_emails calls ->
  emails_unique (users (serve r calls)).
Proof.
  intros Hk Hu Hcalls.
  assert (unique_kept (serve r calls)) as [_ H]; [|exact H].
  revert r Hk Hu. induction Hcalls as [|c calls Hc _ IH]; intros r Hk Hu.
  - split; assumption.
  - rewrite serve_cons.
    destruct (handle_unique_kept r c Hc (conj Hk Hu)) as [Hk1 Hu1].
    now apply IH.
Qed.

Lemma emails_stay_unique_without_email_updates_witness :
  emails_unique
    (users (serve (NewInMemoryUserRepository 0)
              [CallCreateUser 1 ctxNil
                 (pb.CreateUserRequest.mk "Ann" "ann@example.com" "");
               CallUpdateUser 2 ctxNil
                 (pb.UpdateUserRequest.mk 4 "Anna" "" "");
               CallCreateUsers
                 [(3, pb.CreateUserRequest.mk "Ben" "ann@example.com" "");
                  (4, pb.CreateUserRequest.mk "Cy" "cy@example.com" "")]
                 EOF;
               CallDeleteUser ctxNil (pb.UserRequest.mk 2)])).
Proof.
  apply (emails_stay_unique_without_email_updates
           (NewInMemoryUserRepository 0)
           [CallCreateUser 1 ctxNil
              (pb.CreateUserRequest.mk "Ann" "ann@example.com" "");
            CallUpdateUser 2 ctxNil
              (pb.UpdateUserRequest.mk 4 "Anna" "" "");
            CallCreateUsers
              [(3, pb.CreateUserRequest.mk "Ben" "ann@example.com" "");
               (4, pb.CreateUserRequest.mk "Cy" "cy@example.com" "")]
              EOF;
            CallDeleteUser ctxNil (pb.UserRequest.mk 2)]
           (seed_keys_consistent 0) (seed_emails_unique 0)).
  repeat constructor.
Defined.

Lemma process_each_cons_store (r : InMemoryUserRepository) (now : Z)
    (req : pb.CreateUserRequest.t)
    (rest : list (Z * pb.CreateUserRequest.t)) :
  (process_each r ((now, req) :: rest)).1.1
  = (process_each (Create r (FromCreateRequest now req 0)).1.1 rest).1.1.
Proof.
  cbn [process_each].
  destruct (Create r (FromCreateRequest now req 0)) as [[r1 u] [e|]];
    cbn [fst]; now destruct (process_each r1 rest) as [[r2 ids] errs].
Qed.

(** X12.  Bulk ingest with no write of another call in between leaves the
    store as the same requests sent one by one through [CreateUser] would,
    however the input and the call end; beside other calls it leaves the
    store as all the writes served while it was, in their order.  The
    handler answers with a summary exactly when the input ends with
    [io.EOF] and [stream.SendAndClose] succeeds.  When
    [stream.SendAndClose] fails, or after a read error, it returns that
    error and the client gets no summary, but the users created from the
    items received stay in the store. *)
Theorem CreateUsers_is_CreateUser_for_each (r : InMemoryUserRepository)
    (items : list (Z * pb.CreateUserRequest.t))
    (arrivals : list (list trace.op * (Z * pb.CreateUserRequest.t))) :
  (forall fin send,
     (concurrent.CreateUsers r (alone items) fin send).1
     = serve r (calls_of_items items))
  /\ (forall fin,
        concurrent.CreateUsers r (alone items) fin None
        = CreateUsers r items fin)
  /\ (forall fin send,
        (concurrent.CreateUsers r arrivals fin send).1
        = (trace.run r (merged arrivals)).1)
  /\ (exists resp, (concurrent.CreateUsers r arrivals EOF None).2 = inl resp)
  /\ (forall err,
        (concurrent.CreateUsers r arrivals EOF (Some err)).2 = inr err)
  /\ (forall err send,
        (concurrent.CreateUsers r arrivals (RecvError err) send).2
        = inr err).
Proof.
  split; [|split; [|split; [|split; [|split]]]].
  - intros fin send. unfold concurrent.CreateUsers.
    rewrite concurrent_CreateUsers_loop_store, merged_alone.
    rewrite (proj1 (process_each_run r items)). revert r.
    induction items as [|[now req] rest IH]; intros r; [reflexivity|].
    rewrite process_each_cons_store, IH.
    unfold calls_of_items. rewrite map_cons, serve_cons. simpl.
    now rewrite CreateUser_store.
  - intros fin. apply concurrent_CreateUsers_loop_alone.
  - intros fin send. apply concurrent_CreateUsers_loop_store.
  - eexists. unfold concurrent.CreateUsers.
    apply (concurrent_CreateUsers_loop_outcomes r arrivals None).
  - intros err. unfold concurrent.CreateUsers.
    apply (concurrent_CreateUsers_loop_outcomes r arrivals (Some err)).
  - intros err send. apply concurrent_CreateUsers_loop_RecvError.
Qed.

End served_invariants.

(** ** The streaming handlers *)

Section streaming_handlers.
Import models repository spec service laws.

Lemma StreamUsers_loop_prefix (users : list User)
    (env : nat -> ctxErr * option string) (i : nat) :
  (StreamUsers_loop users env i).1 `prefix_of` map ToProto users.
Proof.
  revert i. induction users as [|u rest IH]; intros i; simpl.
  - reflexivity.
  - destruct (env i).1; simpl; try apply prefix_nil.
    destruct (env i).2; simpl; [apply prefix_nil|].
    specialize (IH (S i)).
    destruct (StreamUsers_loop rest env (S i)) as [sent err]. simpl in *.
    now apply prefix_cons.
Qed.

Lemma StreamUsers_loop_undisturbed (users : list User)
    (env : nat -> ctxErr * option string) (i : nat) :
  (forall j, (j < Datatypes.length users)%nat ->
             env (i + j)%nat = (ctxNil, None)) ->
  StreamUsers_loop users env i = (map ToProto users, None).
Proof.
  revert i. induction users as [|u rest IH]; intros i H; simpl.
  - reflexivity.
  - pose proof (H 0%nat ltac:(simpl; lia)) as H0.
    rewrite Nat.add_0_r in H0. rewrite H0. simpl.
    rewrite (IH (S i)); [reflexivity|].
    intros j Hj. rewrite <- (H (S j)); [f_equal; lia | simpl; lia].
Qed.

Lemma StreamUsers_loop_stopped (n : nat) (users : list User)
    (env : nat -> ctxErr * option string) (i : nat) :
  (n < Datatypes.length users)%nat ->
  (forall j, (j < n)%nat -> env (i + j)%nat = (ctxNil, None)) ->
  ((env (i + n)%nat).1 <> ctxNil ->
   StreamUsers_loop users env i
   = (map ToProto (take n users),
      Some (StreamContextErr (env (i + n)%nat).1)))
  /\ ((env (i + n)%nat).1 = ctxNil ->
      forall err, (env (i + n)%nat).2 = Some err ->
      StreamUsers_loop users env i
      = (map ToProto (take n users), Some (StreamSendErr err))).
Proof.
  revert users i. induction n as [|n IH]; intros users i Hn Hok;
    destruct users as [|u rest]; simpl in Hn; try lia.
  - rewrite Nat.add_0_r. simpl. split.
    + intros Hc. destruct (env i).1; [contradiction|reflexivity|reflexivity].
    + intros -> err ->. reflexivity.
  - pose proof (Hok 0%nat ltac:(lia)) as H0.
    rewrite Nat.add_0_r in H0. simpl. rewrite H0. simpl.
    destruct (IH rest (S i)) as [Hctx Hsend]; [lia| |].
    { intros j Hj. rewrite <- (Hok (S j)); [f_equal; lia | lia]. }
    replace (S i + n)%nat with (i + S n)%nat in Hctx, Hsend by lia.
    split.
    + intros Hc. now rewrite (Hctx Hc).
    + intros Hc err He. now rewrite (Hsend Hc err He).
Qed.

Lemma List_in_order_capped (order : list User) (filter : pb.UserFilter.t) :
  0 < pb.UserFilter.Limit filter ->
  Z.of_nat (Datatypes.length (List_in_order order filter))
    <= pb.UserFilter.Limit filter.
Proof.
  intros H. rewrite List_in_order_spec. unfold List_spec.
  replace (0 <? pb.UserFilter.Limit filter) with true
    by (symmetry; now apply Z.ltb_lt).
  rewrite length_take. lia.
Qed.

(** X13.  [StreamUsers] sends the records [List] found, in that order, and
    stops at the first iteration that meets an ended context or a failed
    send: with neither, every record is sent and the call returns no
    error; otherwise exactly the records before that iteration have been
    sent and the call returns the context's error or the send error.  With
    a limit [N > 0] at most [N] responses are sent. *)
Theorem StreamUsers_sends_in_order_until_stopped (order : list User)
    (filter : pb.UserFilter.t) (env : nat -> ctxErr * option string) :
  (StreamUsers order filter env).1
    `prefix_of` map ToProto (List_in_order order filter)
  /\ ((forall j, (j < Datatypes.length (List_in_order order filter))%nat ->
                 env j = (ctxNil, None)) ->
      StreamUsers order filter env
      = (map ToProto (List_in_order order filter), None))
  /\ (forall n,
        (n < Datatypes.length (List_in_order order filter))%nat ->
        (forall j, (j < n)%nat -> env j = (ctxNil, None)) ->
        ((env n).1 <> ctxNil ->
         StreamUsers order filter env
         = (map ToProto (take n (List_in_order order filter)),
            Some (StreamContextErr (env n).1)))
        /\ ((env n).1 = ctxNil ->
            forall err, (env n).2 = Some err ->
            StreamUsers order filter env
            = (map ToProto (take n (List_in_order order filter)),
               Some (StreamSendErr err))))
  /\ (0 < pb.UserFilter.Limit filter ->
      Z.of_nat (Datatypes.length (StreamUsers order filter env).1)
        <= pb.UserFilter.Limit filter).
Proof.
  unfold StreamUsers. split; [apply StreamUsers_loop_prefix|].
  split; [|split].
  - intros H. now apply StreamUsers_loop_undisturbed.
  - intros n Hn Hok. now apply (StreamUsers_loop_stopped n _ env 0).
  - intros Hpos. pose proof (List_in_order_capped order filter Hpos) as Hcap.
    pose proof (StreamUsers_loop_prefix (List_in_order order filter) env 0)
      as Hpre.
    apply prefix_length in Hpre. rewrite length_map in Hpre. lia.
Qed.

Lemma StreamUsers_sends_in_order_until_stopped_witness :
  StreamUsers
    [mkUser 1 "John Doe" "john@example.com" "admin" 0 0;
     mkUser 3 "Bob Johnson" "bob@example.com" "user" 0 0;
     mkUser 2 "Jane Smith" "jane@example.com" "user" 0 0]
    (pb.UserFilter.mk "John" [] 10)
    (fun i => if (i =? 1)%nat then (ctxCanceled, None) else (ctxNil, None))
  = ([pb.UserResponse.mk 1 "John Doe" "john@example.com" "admin" 0 0],
     Some (StreamContextErr ctxCanceled))
  /\ StreamUsers
       [mkUser 1 "John Doe" "john@example.com" "admin" 0 0;
        mkUser 3 "Bob Johnson" "bob@example.com" "user" 0 0;
        mkUser 2 "Jane Smith" "jane@example.com" "user" 0 0]
       (pb.UserFilter.mk "John" [] 10)
       (fun _ => (ctxNil, None))
     = ([pb.UserResponse.mk 1 "John Doe" "john@example.com" "admin" 0 0;
         pb.UserResponse.mk 3 "Bob Johnson" "bob@example.com" "user" 0 0],
        None).
Proof.
  split.
  - apply (proj1 (proj1 (proj2 (proj2
             (StreamUsers_sends_in_order_until_stopped
                [mkUser 1 "John Doe" "john@example.com" "admin" 0 0;
                 mkUser 3 "Bob Johnson" "bob@example.com" "user" 0 0;
                 mkUser 2 "Jane Smith" "jane@example.com" "user" 0 0]
                (pb.UserFilter.mk "John" [] 10)
                (fun i => if (i =? 1)%nat then (ctxCanceled, None)
                          else (ctxNil, None))))) 1%nat
             ltac:(vm_compute; lia)
             ltac:(intros [|j] Hj; [reflexivity | lia]))).
    discriminate.
  - apply (proj1 (proj2 (StreamUsers_sends_in_order_until_stopped
                           [mkUser 1 "John Doe" "john@example.com" "admin" 0 0;
                            mkUser 3 "Bob Johnson" "bob@example.com" "user"
                                   0 0;
                            mkUser 2 "Jane Smith" "jane@example.com" "user"
                                   0 0]
                           (pb.UserFilter.mk "John" [] 10)
                           (fun _ => (ctxNil, None))))).
    reflexivity.
Defined.

(** X14.  The echo loop of [Chat] answers the inbound messages one for
    one and in order for as long as its sends succeed, and ends at the
    first send that fails: no later message is answered.  It never sends
    more replies than it received messages. *)
Theorem Chat_echo_loop_answers_until_send_fails
    (answered rest : list (Z * pb.ChatMessage.t * bool)) (now : Z)
    (msg : pb.ChatMessage.t) :
  (Datatypes.length (Chat_echo_loop rest) <= Datatypes.length rest)%nat
  /\ (all_sent answered ->
      Chat_echo_loop answered
      = map (fun it => echoResponse it.1.1 it.1.2) answered
      /\ Chat_echo_loop (answered ++ (now, msg, false) :: rest)
         = map (fun it => echoResponse it.1.1 it.1.2) answered
      /\ Chat_echo_loop (answered ++ rest)
         = map (fun it => echoResponse it.1.1 it.1.2) answered
           ++ Chat_echo_loop rest).
Proof.
  split.
  - induction rest as [|[[n m] sent] rest' IH]; simpl; [lia|].
    destruct sent; simpl; lia.
  - intros Hall. induction Hall as [|[[n m] sent] answered Hs _ IH].
    + simpl. auto.
    + simpl in Hs. subst sent. simpl. destruct IH as (IH1 & IH2 & IH3).
      now rewrite IH1, IH2, IH3.
Qed.

Lemma Chat_echo_loop_answers_until_send_fails_witness :
  Chat_echo_loop
    ([(1, pb.ChatMessage.mk "Client" "Server" "Message 1" 0
             pb.MESSAGE_TYPE_TEXT, true)] ++
     (2, pb.ChatMessage.mk "Client" "Server" "Message 2" 0
           pb.MESSAGE_TYPE_TEXT, false) ::
     [(3, pb.ChatMessage.mk "Client" "Server" "Message 3" 0
            pb.MESSAGE_TYPE_TEXT, true)])
  = map (fun it => echoResponse it.1.1 it.1.2)
        [(1, pb.ChatMessage.mk "Client" "Server" "Message 1" 0
               pb.MESSAGE_TYPE_TEXT, true)].
Proof.
  apply (proj2 (Chat_echo_loop_answers_until_send_fails
                  [(1, pb.ChatMessage.mk "Client" "Server" "Message 1" 0
                         pb.MESSAGE_TYPE_TEXT, true)]
                  [(3, pb.ChatMessage.mk "Client" "Server" "Message 3" 0
                         pb.MESSAGE_TYPE_TEXT, true)]
                  2
                  (pb.ChatMessage.mk "Client" "Server" "Message 2" 0
                     pb.MESSAGE_TYPE_TEXT))).
  repeat constructor.
Defined.

(** X15.  Every message the heartbeat loop of [Chat] sends comes from
    "Server", names no recipient, has the body "Heartbeat" and carries the
    clock reading of its tick; nothing is sent after the context has ended
    or after a send has failed. *)
Theorem Chat_heartbeat_loop_sends_until_done
    (events after : list heartbeatEvent) (now : Z) :
  Forall (fun hb => pb.ChatMessage.From hb = "Server"%string
                    /\ pb.ChatMessage.To hb = ""%string
                    /\ pb.ChatMessage.Message hb = "Heartbeat"%string
                    /\ exists sent,
                         Tick (pb.ChatMessage.Timestamp hb) sent ∈ events)
         (Chat_heartbeat_loop events)
  /\ Chat_heartbeat_loop (events ++ ContextDone :: after)
     = Chat_heartbeat_loop events
  /\ Chat_heartbeat_loop (events ++ Tick now false :: after)
     = Chat_heartbeat_loop events.
Proof.
  split; [|split].
  - induction events as [|[t sent|] events IH]; simpl; try constructor.
    + destruct sent; [|constructor]. constructor.
      * repeat split. exists true. apply list_elem_of_here.
      * eapply Forall_impl; [exact IH|].
        intros hb (H1 & H2 & H3 & s & H4). repeat split; auto.
        exists s. now apply list_elem_of_further.
  - induction events as [|[t sent|] events IH]; simpl; auto.
    destruct sent; [now rewrite IH | reflexivity].
  - induction events as [|[t sent|] events IH]; simpl; auto.
    destruct sent; [now rewrite IH | reflexivity].
Qed.

End streaming_handlers.

(** ** More on [List] and [contains] *)

Section more_on_List.
Import models repository spec.

Lemma filter_Permutation_bool {A : Type} (f : A -> bool) (l1 l2 : list A) :
  l1 ≡ₚ l2 -> List.filter f l1 ≡ₚ List.filter f l2.
Proof.
  induction 1 as [|x l1 l2 _ IH|x y l|l1 l2 l3 _ IH1 _ IH2]; simpl.
  - reflexivity.
  - destruct (f x); [now constructor | exact IH].
  - destruct (f x), (f y); try reflexivity. apply perm_swap.
  - now transitivity (List.filter f l2).
Qed.

Lemma filter_sublist_bool {A : Type} (f : A -> bool) (l : list A) :
  List.filter f l `sublist_of` l.
Proof.
  induction l as [|x l IH]; simpl; [constructor|].
  destruct (f x); [now apply sublist_skip | now apply sublist_cons].
Qed.

Lemma List_in_order_sublist (order : list User)
    (filter : pb.UserFilter.t) :
  List_in_order order filter `sublist_of` List.filter (keepsb filter) order.
Proof.
  rewrite List_in_order_spec. unfold List_spec.
  destruct (0 <? pb.UserFilter.Limit filter); [apply sublist_take|].
  reflexivity.
Qed.

(** X16.  How many records [List] returns does not depend on the order in
    which the map is iterated: it is the number of matching records, cut
    to the limit when that is positive.  Without a positive limit the
    records returned are the same up to their order. *)
Theorem List_size_is_independent_of_iteration_order
    (order1 order2 : list User) (filter : pb.UserFilter.t) :
  order1 ≡ₚ order2 ->
  Datatypes.length (List_in_order order1 filter)
  = Datatypes.length (List_in_order order2 filter)
  /\ Datatypes.length (List_in_order order1 filter)
     = (if 0 <? pb.UserFilter.Limit filter
        then Nat.min (Z.to_nat (pb.UserFilter.Limit filter))
                     (Datatypes.length
                        (List.filter (keepsb filter) order2))
        else Datatypes.length (List.filter (keepsb filter) order2))
  /\ (pb.UserFilter.Limit filter <= 0 ->
      List_in_order order1 filter ≡ₚ List_in_order order2 filter).
Proof.
  intros Hp. rewrite !List_in_order_spec. unfold List_spec.
  pose proof (filter_Permutation_bool (keepsb filter) _ _ Hp) as Hf.
  pose proof (Permutation_length Hf) as Hl.
  destruct (Z.ltb_spec 0 (pb.UserFilter.Limit filter)) as [Hpos|Hnp].
  - rewrite !length_take, Hl. split; [reflexivity|].
    split; [reflexivity | lia].
  - split; [exact Hl|]. split; [exact Hl|]. intros _. exact Hf.
Qed.

Lemma List_size_is_independent_of_iteration_order_witness :
  Datatypes.length
    (List_in_order
       [mkUser 1 "John Doe" "john@example.com" "admin" 0 0;
        mkUser 3 "Bob Johnson" "bob@example.com" "user" 0 0]
       (pb.UserFilter.mk "John" [] 1))
  = Datatypes.length
      (List_in_order
         [mkUser 3 "Bob Johnson" "bob@example.com" "user" 0 0;
          mkUser 1 "John Doe" "john@example.com" "admin" 0 0]
         (pb.UserFilter.mk "John" [] 1)).
Proof.
  apply (proj1 (List_size_is_independent_of_iteration_order
                  [mkUser 1 "John Doe" "john@example.com" "admin" 0 0;
                   mkUser 3 "Bob Johnson" "bob@example.com" "user" 0 0]
                  [mkUser 3 "Bob Johnson" "bob@example.com" "user" 0 0;
                   mkUser 1 "John Doe" "john@example.com" "admin" 0 0]
                  (pb.UserFilter.mk "John" [] 1) (perm_swap _ _ []))).
Defined.

(** X17.  [List] never fails and returns records of the iteration order
    in that order, without repeating or inventing any, each of which
    passes the filter; with a keyword that occurs in no name the result is
    empty. *)
Theorem List_returns_matching_records_in_order (order : list User)
    (filter : pb.UserFilter.t) :
  List_in_order order filter `sublist_of` order
  /\ Forall (keeps filter) (List_in_order order filter)
  /\ (pb.UserFilter.Keyword filter <> ""%string ->
      (forall u, u ∈ order ->
                 ~ is_substring (pb.UserFilter.Keyword filter) (Name u)) ->
      List_in_order order filter = [])
  /\ (forall r, (List r filter).2 = None).
Proof.
  pose proof (List_in_order_sublist order filter) as Hsub.
  split; [|split; [|split]].
  - etransitivity; [exact Hsub | apply filter_sublist_bool].
  - apply Forall_forall. intros u Hu.
    apply (fun H => elem_of_sublist _ _ _ H Hsub) in Hu.
    apply list_elem_of_In, List.filter_In in Hu.
    now apply keepsb_keeps.
  - intros Hkw Hnone.
    assert (List.filter (keepsb filter) order = []) as Hnil.
    { destruct (List.filter (keepsb filter) order) as [|u l] eqn:Hf;
        [reflexivity|]. exfalso.
      assert (In u (List.filter (keepsb filter) order)) as Hin
        by (rewrite Hf; left; reflexivity).
      apply List.filter_In in Hin as [Hin Hkeep].
      apply keepsb_keeps in Hkeep as [[Hk|Hk] _]; [contradiction|].
      apply (Hnone u); [now apply list_elem_of_In | exact Hk]. }
    rewrite Hnil in Hsub. now apply sublist_nil_r in Hsub.
  - reflexivity.
Qed.

Lemma List_returns_matching_records_in_order_witness :
  List_in_order
    [mkUser 1 "John Doe" "john@example.com" "admin" 0 0;
     mkUser 2 "Jane Smith" "jane@example.com" "user" 0 0]
    (pb.UserFilter.mk "Zed" ["admin"%string] 5) = [].
Proof.
  apply (proj1 (proj2 (proj2 (List_returns_matching_records_in_order
                  [mkUser 1 "John Doe" "john@example.com" "admin" 0 0;
                   mkUser 2 "Jane Smith" "jane@example.com" "user" 0 0]
                  (pb.UserFilter.mk "Zed" ["admin"%string] 5))))).
  - discriminate.
  - intros u Hu Hsub. apply substringb_correct in Hsub.
    apply elem_of_cons in Hu as [->|Hu];
      [|apply elem_of_cons in Hu as [->|Hu]; [|inversion Hu]];
      vm_compute in Hsub; discriminate.
Defined.

(** X18.  On a store whose records sit under their own IDs, [List] and
    [GetByID] agree: every record [List] returns is the one [GetByID]
    returns for its ID, and without a positive limit every record that
    [GetByID] can return and that passes the filter is in the result of
    [List]. *)
Theorem List_agrees_with_GetByID (r : InMemoryUserRepository)
    (filter : pb.UserFilter.t) :
  keys_consistent (users r) ->
  (forall u, u ∈ (List r filter).1 ->
             GetByID r (ID u) = inl u /\ keeps filter u)
  /\ (pb.UserFilter.Limit filter <= 0 ->
      forall id u, GetByID r id = inl u -> keeps filter u ->
                   u ∈ (List r filter).1).
Proof.
  intros Hk. unfold List, fst. split.
  - intros u Hu.
    pose proof (List_in_order_sublist (map_to_list (users r)).*2 filter)
      as Hsub.
    apply (fun H => elem_of_sublist _ _ _ H Hsub) in Hu.
    apply list_elem_of_In, List.filter_In in Hu.
    destruct Hu as [Hin Hkeep]. split; [|now apply keepsb_keeps].
    apply list_elem_of_In, list_elem_of_fmap in Hin as ([k u'] & -> & Hin).
    apply elem_of_map_to_list in Hin. simpl.
    unfold GetByID. now rewrite (Hk _ _ Hin), Hin.
  - intros Hlim id u Hget Hkeep. unfold GetByID in Hget.
    destruct (users r !! id) as [u'|] eqn:Hu; [|discriminate].
    injection Hget as ->.
    rewrite List_in_order_spec. unfold List_spec.
    replace (0 <? pb.UserFilter.Limit filter) with false
      by (symmetry; now apply Z.ltb_ge).
    apply list_elem_of_In, List.filter_In. split; [|now apply keepsb_keeps].
    apply list_elem_of_In, list_elem_of_fmap. exists (id, u).
    split; [reflexivity | now apply elem_of_map_to_list].
Qed.

Lemma List_agrees_with_GetByID_witness :
  GetByID (NewInMemoryUserRepository 0)
          (ID (mkUser 1 "John Doe" "john@example.com" "admin" 0 0))
  = inl (mkUser 1 "John Doe" "john@example.com" "admin" 0 0)
  /\ keeps (pb.UserFilter.mk "John" [] 0)
           (mkUser 1 "John Doe" "john@example.com" "admin" 0 0).
Proof.
  apply (proj1 (List_agrees_with_GetByID (NewInMemoryUserRepository 0)
                  (pb.UserFilter.mk "John" [] 0) (seed_keys_consistent 0))).
  unfold List, fst. rewrite List_in_order_spec. unfold List_spec.
  change (0 <? pb.UserFilter.Limit (pb.UserFilter.mk "John" [] 0))
    with false.
  apply list_elem_of_In, List.filter_In. split; [|vm_compute; reflexivity].
  apply list_elem_of_In, list_elem_of_fmap.
  exists (1, mkUser 1 "John Doe" "john@example.com" "admin" 0 0).
  split; [reflexivity|]. now apply elem_of_map_to_list.
Defined.

(** X19.  [contains] is a partial order on strings with the empty string
    below everything: every string contains the empty string and itself,
    containment is transitive, two strings that contain each other are
    equal, a string contains nothing longer than itself, and it contains
    each of its slices. *)
Theorem contains_is_a_partial_order (a b c : string) :
  contains a "" = true
  /\ contains a a = true
  /\ (contains a b = true -> contains b c = true -> contains a c = true)
  /\ (contains a b = true -> contains b a = true -> a = b)
  /\ ((len a < len b)%nat -> contains a b = false)
  /\ contains (a +:+ b +:+ c) b = true.
Proof.
  split; [|split; [|split; [|split; [|split]]]].
  - apply contains_correct. exists ""%string, a. reflexivity.
  - apply contains_correct. exists ""%string, ""%string.
    now rewrite append_nil_l, append_nil_r.
  - rewrite !contains_correct. intros (p1 & s1 & ->) (p2 & s2 & ->).
    exists (p1 +:+ p2), (s2 +:+ s1). now rewrite !append_assoc.
  - rewrite !contains_correct. intros (p1 & s1 & Ha) Hb.
    apply is_substring_len in Hb. rewrite Ha, !len_append in Hb.
    assert (p1 = ""%string) as -> by (apply len_zero; lia).
    assert (s1 = ""%string) as -> by (apply len_zero; lia).
    now rewrite append_nil_l, append_nil_r in Ha.
  - intros Hlt. destruct (contains a b) eqn:Hc; [|reflexivity].
    apply contains_correct, is_substring_len in Hc. lia.
  - apply contains_correct. exists a, c. reflexivity.
Qed.

Lemma contains_is_a_partial_order_witness :
  contains "Bob Johnson" "o" = true.
Proof.
  apply (proj1 (proj2 (proj2 (contains_is_a_partial_order
                                "Bob Johnson" "John" "o")))).
  - reflexivity.
  - reflexivity.
Defined.

End more_on_List.
